(** * LandscapeChange_GeoTools: attribute enrichment and export validation

    A shallow embedding of the toolbox scripts.  The geodatabase is the
    Tabular Store: a feature class is a [table] (an ordered schema and a
    list of features), and every arcpy field primitive the scripts call
    ([AddField], [CalculateField], [DeleteField], [JoinField]) is a function
    on tables.  Whatever the Geospatial Data Provider decides from geometry
    (spatial selections, central points) enters as a function on an abstract
    geometry type. *)

From Stdlib Require Import ZArith QArith String Ascii List Lia Bool.
From stdpp Require Import gmap strings list fin_maps pretty option.

Local Open Scope string_scope.

(** ** Cell values *)

(** A cell of a feature class holds null, an integer, a real or a text:
    what a cursor returns as [None], an int, a float or a str.  The cells of
    a pandas data frame, which tell [None], [nan] and [pd.NA] apart, are
    [cellv] below. *)
Inductive value :=
  | VNull
  | VInt (z : Z)
  | VReal (q : Q)
  | VText (s : string).

Inductive ftype := TEXT | SHORT | LONG | FLOAT | DOUBLE.

#[global] Instance Q_eq_dec : EqDecision Q.
Proof. solve_decision. Defined.

#[global] Instance value_eq_dec : EqDecision value.
Proof. solve_decision. Defined.

#[global] Instance ftype_eq_dec : EqDecision ftype.
Proof. solve_decision. Defined.

Definition is_numeric (ty : ftype) : bool :=
  match ty with TEXT => false | _ => true end.

Definition isna (v : value) : bool :=
  match v with VNull => true | _ => false end.

(** Python truthiness of a cell value, as used by [if a_id:]. *)
Definition truthy (v : value) : bool :=
  match v with
  | VNull => false
  | VInt z => negb (z =? 0)%Z
  | VReal q => negb (Qeq_bool q 0)
  | VText s => negb (String.eqb s "")
  end.

(** Python [==] between two cell values: numbers compare by value across
    int and float, texts by content, null only equals null. *)
Definition py_eq (a b : value) : bool :=
  match a, b with
  | VNull, VNull => true
  | VInt x, VInt y => (x =? y)%Z
  | VInt x, VReal q | VReal q, VInt x => Qeq_bool (inject_Z x) q
  | VReal p, VReal q => Qeq_bool p q
  | VText s, VText t => String.eqb s t
  | _, _ => false
  end.

(** ** Decimal text of integers *)

Definition digit_of (a : ascii) : option Z :=
  let n := Z.of_nat (nat_of_ascii a) in
  if ((48 <=? n) && (n <=? 57))%Z then Some (n - 48)%Z else None.

Fixpoint parse_digits (acc : Z) (s : string) : option Z :=
  match s with
  | EmptyString => Some acc
  | String a s' =>
      match digit_of a with
      | Some d => parse_digits (acc * 10 + d)%Z s'
      | None => None
      end
  end.

(** [int(s)] for a plain decimal literal with an optional minus sign. *)
Definition parse_int (s : string) : option Z :=
  match s with
  | EmptyString => None
  | String "-" EmptyString => None
  | String "-" s' => Z.opp <$> parse_digits 0 s'
  | _ => parse_digits 0 s
  end.

(** [str(v)] of Python.  How a float prints is the interpreter's business and
    enters as [fr]. *)
Definition py_str (fr : Q → string) (v : value) : string :=
  match v with
  | VNull => "None"
  | VInt z => pretty z
  | VReal q => fr q
  | VText s => s
  end.

(** ** The Tabular Store *)

Record feature (G : Type) := Feature {
  shape : G;
  attrs : gmap string value
}.
Arguments Feature {G} _ _.
Arguments shape {G} _.
Arguments attrs {G} _.

Record table (G : Type) := Table {
  fields : list (string * ftype);
  rows : list (feature G)
}.
Arguments Table {G} _ _.
Arguments fields {G} _.
Arguments rows {G} _.

Module Store.
Section Store.
Context {G : Type}.
Variable fr : Q → string.

Definition ListFields (t : table G) : list string := (fields t).*1.

Definition has_field (t : table G) (f : string) : bool :=
  bool_decide (f ∈ ListFields t).

Fixpoint assoc (l : list (string * ftype)) (f : string) : option ftype :=
  match l with
  | [] => None
  | (g, ty) :: l' => if String.eqb g f then Some ty else assoc l' f
  end.

Definition field_type (t : table G) (f : string) : option ftype :=
  assoc (fields t) f.

Definition set_attr (f : string) (v : value) (r : feature G) : feature G :=
  Feature (shape r) (<[f := v]> (attrs r)).

(** [!f!] in a field expression; reading a field that is not there is an
    error. *)
Definition read (f : string) (r : feature G) : option value := attrs r !! f.

(** A new nullable field holds null in every existing row.  Adding a field
    that already exists changes nothing. *)
Definition AddField (t : table G) (f : string) (ty : ftype) : table G :=
  if has_field t f then t
  else Table (fields t ++ [(f, ty)])%list (set_attr f VNull <$> rows t).

(** What the store keeps when a value is written to a column: a text
    column keeps the text of a number, a numeric column reads a number out
    of a text ([add_annual_var] writes quoted numbers) and refuses a text
    that is no number. *)
Definition coerce (ty : ftype) (v : value) : option value :=
  match v with
  | VNull => Some VNull
  | VText s => if is_numeric ty then VInt <$> parse_int s else Some v
  | _ => if is_numeric ty then Some v else Some (VText (py_str fr v))
  end.

(** [CalculateField] over the rows in [sel] (the layer's definition query
    and selection).  A field that does not exist yet is added with
    [field_type].  An expression that raises, or a value the column
    refuses, fails the tool. *)
Definition CalculateField (t : table G) (sel : feature G → bool)
    (f : string) (ty : ftype) (expr : feature G → option value)
    : option (table G) :=
  let t' := AddField t f ty in
  ty' ← field_type t' f;
  rows' ← mapM (λ r, if sel r
                     then v ← expr r; v' ← coerce ty' v; Some (set_attr f v' r)
                     else Some r) (rows t');
  Some (Table (fields t') rows').

Definition DeleteField (t : table G) (fs : list string) : table G :=
  Table (filter (λ p, p.1 ∉ fs) (fields t))
        ((λ r, Feature (shape r) (foldr delete (attrs r) fs)) <$> rows t).

(** The name a joined field gets: its own, or with [_1] appended when the
    input already has a field of that name. *)
Definition join_name (names : list string) (f : string) : string :=
  if bool_decide (f ∈ names) then f +:+ "_1" else f.

(** The first row of the join table whose key equals [k]; null keys match
    nothing. *)
Definition join_match {H : Type} (jt : table H) (join_field : string)
    (k : value) : option (feature H) :=
  if isna k then None
  else head (filter (λ j, attrs j !! join_field = Some k) (rows jt)).

Definition join_one {H : Type} (in_field : string) (jt : table H)
    (join_field : string) (t : table G) (f : string) : option (table G) :=
  ty ← assoc (fields jt) f;
  let name := join_name (ListFields t) f in
  rows' ← mapM (λ r,
             k ← read in_field r;
             let v := match join_match jt join_field k with
                      | Some j => default VNull (attrs j !! f)
                      | None => VNull
                      end in
             Some (set_attr name v r)) (rows t);
  Some (Table (fields t ++ [(name, ty)])%list rows').

(** [JoinField]: a permanent join of the listed fields, one after the
    other. *)
Definition JoinField {H : Type} (t : table G) (in_field : string)
    (jt : table H) (join_field : string) (fs : list string)
    : option (table G) :=
  foldl (λ acc f, t' ← acc; join_one in_field jt join_field t' f) (Some t) fs.

End Store.
End Store.

(** ** eventsFunctions.py *)

Module Events.
Section Events.
Context {G : Type}.
Variable fr : Q → string.
(** [str(date.today())] *)
Variable today : string.
(** COMPLETELY_WITHIN the water mask feature class. *)
Variable within_water : G → bool.

Import Store.

Definition field_names : list string :=
  ["EventType"; "ChangeType"; "Confidence"; "AltType"; "ChangeDesc";
   "EventDate"; "LabeledBy"; "PriorRun"; "PostDist"; "DistName"; "DistYear";
   "Split"; "MapPatch"].

Definition field_types : list ftype :=
  [TEXT; TEXT; SHORT; TEXT; TEXT; TEXT; TEXT; SHORT; SHORT; TEXT; SHORT;
   SHORT; TEXT].

Definition add_event_fields (t : table G) : option (table G) :=
  let t1 := foldl (λ acc p, AddField acc p.1 p.2) t (zip field_names field_types) in
  CalculateField fr t1 (λ _, true) "Split" TEXT (λ _, Some (VInt 0)).

(** The loop of [add_annual_var]: every value goes into the expression
    between double quotes, so the expression is a text literal. *)
Definition annual_var_fields : list string :=
  ["EventType"; "ChangeType"; "Confidence"; "EventDate"; "LabeledBy";
   "PriorRun"; "PostDist"].

Definition annual_var_values : list value :=
  [VText "Mask"; VText "Annual Variability"; VInt 2; VText today;
   VText "Geoprocessing"; VInt 0; VInt 0].

Definition add_annual_var (sel : feature G → bool) (t : table G)
    : option (table G) :=
  foldl (λ acc p, t' ← acc;
           CalculateField fr t' sel p.1 TEXT (λ _, Some (VText (py_str fr p.2))))
        (Some t) (zip annual_var_fields annual_var_values).

(** A layer with the definition query [InMask = 1]. *)
Definition in_mask (r : feature G) : bool :=
  py_eq (default VNull (attrs r !! "InMask")) (VInt 1).

Definition label_elev_mask (t : table G) : option (table G) :=
  if has_field t "InMask" then add_annual_var in_mask t else None.

Definition label_water_mask (t : table G) : option (table G) :=
  add_annual_var (λ r, within_water (shape r)) t.

(** The [if events_mask:] block of the yearly loop in
    AddAttributesToPatches.py. *)
Definition label_events (park : string) (t : table G) : option (table G) :=
  t1 ← add_event_fields t;
  t2 ← (if bool_decide (park ≠ "LEWI") then label_elev_mask t1 else Some t1);
  label_water_mask t2.

Definition patches_fields : list string :=
  ["EventType"; "ChangeType"; "Confidence"; "AltType"; "ChangeType";
   "DistYear"; "DistName"].

Definition value_fields : list string :=
  ["EventType_1"; "ChangeType_1"; "Confidence_1"; "AltType_1";
   "ChangeType_1"; "DistYear_1"; "DistName_1"].

Definition update_event_fields (t : table G) : option (table G) :=
  t' ← foldl (λ acc p, t' ← acc;
                CalculateField fr t' (λ _, true) p.1 TEXT (read p.2))
             (Some t) (zip patches_fields value_fields);
  Some (DeleteField t' value_fields).

(** The join/update part of JoinLabelsToPatches.py. *)
Definition join_labels {H : Type} (patches : table G) (events_tbl : table H)
    : option (table G) :=
  let event_fields_exist := has_field patches "EventType" in
  t ← JoinField patches "PatchName" events_tbl "PatchName"
        ["EventType"; "ChangeType"; "Confidence"; "AltType"; "ChangeDesc";
         "DistYear"; "DistName"];
  if event_fields_exist then update_event_fields t else Some t.

End Events.
End Events.

(** ** addAttrUtils.py: area and perimeter *)

Module Shape.
Section Shape.
Context {G : Type}.
Variable fr : Q → string.
Import Store.

(** [round(x)] of Python 3 on a float: the nearest integer, a tie going to
    the even one.  A finite float is a rational, so the value is exact. *)
Definition round_half_even (q : Q) : Z :=
  let n := Qnum q in
  let d := Zpos (Qden q) in
  let fl := (n / d)%Z in
  match (2 * (n mod d) ?= d)%Z with
  | Lt => fl
  | Gt => (fl + 1)%Z
  | Eq => if Z.even fl then fl else (fl + 1)%Z
  end.

Definition py_round (v : value) : option value :=
  match v with
  | VInt z => Some (VInt z)
  | VReal q => Some (VInt (round_half_even q))
  | _ => None
  end.

(** The code block [update(orig, new)]. *)
Definition update (orig new : value) : option value :=
  if py_eq orig new then Some orig else py_round new.

Definition update_area_perim (t : table G) : option (table G) :=
  t1 ← CalculateField fr t (λ _, true) "area" LONG
         (λ r, o ← read "area" r; n ← read "Shape_Area" r; update o n);
  CalculateField fr t1 (λ _, true) "perim" LONG
         (λ r, o ← read "perim" r; n ← read "Shape_Length" r; update o n).

End Shape.
End Shape.

(** ** addAttrFunctions.py: Park and PatchName, overlap with the previous year *)

Module Naming.
Section Naming.
Context {G : Type}.
Variable fr : Q → string.
Import Store.

(** The PatchName expression:
    ["{park}_{mmu}_" + !index! + "_{start_yr}_{end_yr}_" + str(!yod!) + "_" + str(!annualID!)].
    [!index!] is added to a text without [str], so it has to be a text. *)
Definition patch_name_expr (park : string) (mmu start_yr end_yr : Z)
    (r : feature G) : option value :=
  index ← read "index" r;
  yod ← read "yod" r;
  annualID ← read "annualID" r;
  match index with
  | VText ix =>
      Some (VText (park +:+ "_" +:+ pretty mmu +:+ "_" +:+ ix +:+ "_"
                   +:+ pretty start_yr +:+ "_" +:+ pretty end_yr +:+ "_"
                   +:+ py_str fr yod +:+ "_" +:+ py_str fr annualID))
  | _ => None
  end.

Definition add_park_patch_name (changeDB_fc : table G) (park : string)
    (mmu start_yr end_yr : Z) : option (table G) :=
  let t1 := AddField changeDB_fc "Park" TEXT in
  t2 ← CalculateField fr t1 (λ _, true) "Park" TEXT (λ _, Some (VText park));
  let t3 := AddField t2 "PatchName" TEXT in
  CalculateField fr t3 (λ _, true) "PatchName" TEXT
    (patch_name_expr park mmu start_yr end_yr).

(** [min(yrs)] and [max(yrs)]; both raise on an empty list. *)
Definition py_min (l : list Z) : option Z :=
  match l with [] => None | y :: ys => Some (foldl Z.min y ys) end.

Definition py_max (l : list Z) : option Z :=
  match l with [] => None | y :: ys => Some (foldl Z.max y ys) end.

(** [yod] is an integer column. *)
Definition year_of (r : feature G) : option Z :=
  match read "yod" r with Some (VInt y) => Some y | _ => None end.

(** The end of AddAttributesToPatches.py: the year span is read from the
    merged feature class, then Park and PatchName are added. *)
Definition finalize (changeDB_fc : table G) (park : string) (mmu : Z)
    : option (table G) :=
  yrs ← mapM year_of (rows changeDB_fc);
  start_yr ← py_min yrs;
  end_yr ← py_max yrs;
  add_park_patch_name changeDB_fc park mmu start_yr end_yr.

End Naming.
End Naming.

Module Overlap.
Section Overlap.
Context {G : Type}.
Variable fr : Q → string.
(** INTERSECT with a search distance of -1 meter. *)
Variable overlaps : G → G → bool.
Import Store.

(** The definition query of [base_lyr] and [prev_lyr]; a query on a field
    the feature class does not have is an error. *)
Definition layer_query (park : string) (events_mask : bool)
    (base_fc prev_fc : table G) : option (feature G → bool) :=
  if events_mask then
    if has_field base_fc "EventType" && has_field prev_fc "EventType"
    then Some (λ r, isna (default VNull (attrs r !! "EventType")))
    else None
  else if bool_decide (park ≠ "LEWI") then
    if has_field base_fc "InMask" && has_field prev_fc "InMask"
    then Some (λ r, py_eq (default VNull (attrs r !! "InMask")) (VInt 0))
    else None
  else Some (λ _, true).

Definition add_overlap_prev (base_fc prev_fc : table G) (park : string)
    (events_mask : bool) : option (table G) :=
  q ← layer_query park events_mask base_fc prev_fc;
  let selected r :=
    q r && existsb (λ p, q p && overlaps (shape r) (shape p)) (rows prev_fc) in
  CalculateField fr base_fc selected "OverlapPrv" TEXT (λ _, Some (VInt 1)).

End Overlap.
End Overlap.

(** ** Cells of a pandas data frame *)

(** What a cell of a data frame holds: [None] (a geodatabase null in an
    object column), [nan] (a null in a float64 column), [pd.NA] (what
    [extract_data] fills a missing field with and [clean_data] writes), an
    int, a float or a str. *)
Inductive cellv :=
  | CNone
  | CNaN
  | CNA
  | CInt (z : Z)
  | CFloat (q : Q)
  | CText (s : string).

#[global] Instance cellv_eq_dec : EqDecision cellv.
Proof. solve_decision. Defined.

(** ** Messages of the tools *)

(** A message is an f-string: literal text and formatted values. *)
Inductive piece :=
  | Lit (s : string)
  | Val (v : value)
  | Vals (l : list value)
  | Cell (c : cellv).

Inductive msg :=
  | AddError (m : list piece)
  | AddWarning (m : list piece)
  | AddMessage (m : list piece).

#[global] Instance piece_eq_dec : EqDecision piece.
Proof. solve_decision. Defined.

#[global] Instance msg_eq_dec : EqDecision msg.
Proof. solve_decision. Defined.

(** ** addAttrFunctions.py: coordinates *)

Inductive method := INSIDE | CENTROID.
Inductive crs := Albers | UTM | DD.

Module Coords.
Section Coords.
Context {G : Type}.
Variable fr : Q → string.
(** The central point of a polygon in a coordinate system, when it can be
    calculated, and its centroid. *)
Variable central : crs → G → option (Q * Q).
Variable centroid : crs → G → Q * Q.
Import Store.

Definition point (m : method) (c : crs) (g : G) : option (Q * Q) :=
  match m with INSIDE => central c g | CENTROID => Some (centroid c g) end.

Fixpoint calc_rows (m : method) (c : crs) (fx fy : string)
    (sel : feature G → bool) (l : list (feature G))
    : list (feature G) * bool :=
  match l with
  | [] => ([], true)
  | r :: rs =>
      if sel r then
        match point m c (shape r) with
        | Some (x, y) =>
            let '(rs', ok) := calc_rows m c fx fy sel rs in
            (set_attr fy (VReal y) (set_attr fx (VReal x) r) :: rs', ok)
        | None => (r :: rs, false)
        end
      else
        let '(rs', ok) := calc_rows m c fx fy sel rs in (r :: rs', ok)
  end.

(** [CalculateGeometryAttributes] for a pair of point coordinates.  The two
    fields are added when missing; the selected rows are written in table
    order; at the first row whose point cannot be calculated the tool
    raises ExecuteError ([false]) and that row and the rows after it stay
    as they were. *)
Definition CalculateGeometryAttributes (t : table G) (sel : feature G → bool)
    (m : method) (c : crs) (fx fy : string) : table G * bool :=
  let t0 := AddField (AddField t fx DOUBLE) fy DOUBLE in
  let '(rs, ok) := calc_rows m c fx fy sel (rows t0) in
  (Table (fields t0) rs, ok).

(** [annualID] is an integer column. *)
Definition annual_id_of (r : feature G) : option Z :=
  match read "annualID" r with Some (VInt z) => Some z | _ => None end.

Definition id_is (a : Z) (r : feature G) : bool :=
  match annual_id_of r with Some z => (z =? a)%Z | None => false end.

Definition id_gt (a : Z) (r : feature G) : bool :=
  match annual_id_of r with Some z => (a <? z)%Z | None => false end.

Definition id_in (l : list Z) (r : feature G) : bool :=
  match annual_id_of r with Some z => bool_decide (z ∈ l) | None => false end.

Definition add_utm_dd (t : table G) (sel : feature G → bool) (m : method)
    : option (table G) :=
  let '(t1, ok1) := CalculateGeometryAttributes t sel m UTM "UTMX" "UTMY" in
  if ok1 then
    let '(t2, ok2) :=
      CalculateGeometryAttributes t1 sel m DD "Longitude" "Latitude" in
    if ok2 then Some t2 else None
  else None.

Definition centroid_warning (fc_name : string) (annual_ids : list Z) : msg :=
  AddWarning [Lit "The central point(s) could not be calculated for patch(es) from ";
              Lit fc_name; Lit " with annualID(s) "; Vals (VInt <$> annual_ids);
              Lit ". Centroid(s) calculated instead."].

(** The state [add_albers] works on: the feature class and the messages
    issued so far.  [annual_ids] is a Python list that the recursive call
    appends to and returns; the caller rebinds its variable to the returned
    list, so passing the list by value gives the same result. *)
Definition st : Type := table G * list msg.

(** [add_albers(fc, a_id, annual_ids)].  The search cursor reads the rows
    as they are at the moment it reaches them.  [None] stands for an
    uncaught error, or for [fuel] running out. *)
Fixpoint add_albers (fuel : nat) (fc_name : string) (s : st)
    (a_id : option Z) (annual_ids : option (list Z))
    : option (option (list Z) * st) :=
  match fuel with
  | O => None
  | S fuel' =>
      let '(t, log) := s in
      a_ids ← mapM annual_id_of (rows t);
      max_aid ← Naming.py_max a_ids;
      let cursor :=
        fix loop (n i : nat) (annual_ids : option (list Z)) (s : st)
            : option (option (list Z) * st) :=
          match n with
          | O => Some (annual_ids, s)
          | S n' =>
              match rows s.1 !! i with
              | None => Some (annual_ids, s)
              | Some row =>
                  annual_id ← annual_id_of row;
                  x_coord ← read "X_Coord_m" row;
                  if isna x_coord then
                    let t1 := (CalculateGeometryAttributes s.1 (id_is annual_id)
                                 CENTROID Albers "X_Coord_m" "Y_Coord_m").1 in
                    '(ids, s') ←
                      (match annual_ids with
                       | Some (_ :: _) =>
                           add_albers fuel' fc_name (t1, s.2) (Some annual_id) annual_ids
                       | _ =>
                           add_albers fuel' fc_name (t1, s.2) (Some annual_id) None
                       end);
                    loop n' (S i) ids s'
                  else loop n' (S i) annual_ids s
              end
          end in
      match a_id with
      | Some a =>
          if negb (a =? 0)%Z then
            let annual_ids := (default [] annual_ids ++ [a])%list in
            if (a =? max_aid)%Z then
              Some (Some annual_ids,
                    (t, (log ++ [centroid_warning fc_name annual_ids])%list))
            else
              let '(t1, ok) :=
                CalculateGeometryAttributes t (id_gt a) INSIDE Albers
                  "X_Coord_m" "Y_Coord_m" in
              if ok then Some (Some annual_ids, (t1, log))
              else cursor (length (rows t1)) 0%nat (Some annual_ids) (t1, log)
          else
            let '(t1, ok) :=
              CalculateGeometryAttributes t (λ _, true) INSIDE Albers
                "X_Coord_m" "Y_Coord_m" in
            if ok then Some (annual_ids, (t1, log))
            else cursor (length (rows t1)) 0%nat annual_ids (t1, log)
      | None =>
          let '(t1, ok) :=
            CalculateGeometryAttributes t (λ _, true) INSIDE Albers
              "X_Coord_m" "Y_Coord_m" in
          if ok then Some (annual_ids, (t1, log))
          else cursor (length (rows t1)) 0%nat annual_ids (t1, log)
      end
  end.

(** Every recursive call of [add_albers] follows a centroid written to a
    row whose X_Coord_m was null, so one more than the number of rows is
    fuel enough. *)
Definition add_coords (fc_name : string) (s : st) : option st :=
  let '(t, log) := s in
  let t := AddField t "CoordType" TEXT in
  t ← CalculateField fr t (λ _, true) "CoordType" TEXT
        (λ _, Some (VText "Central point"));
  '(annual_ids, (t, log)) ←
    add_albers (S (length (rows t))) fc_name (t, log) None None;
  t ← (match annual_ids with
       | Some ids =>
           match ids with
           | [] => None
           | _ =>
               t ← CalculateField fr t (id_in ids) "CoordType" TEXT
                     (λ _, Some (VText "Centroid"));
               t ← add_utm_dd t (id_in ids) CENTROID;
               add_utm_dd t (λ r, negb (id_in ids r)) INSIDE
           end
       | None => add_utm_dd t (λ _, true) INSIDE
       end);
  let t := AddField t "Datum" TEXT in
  t ← CalculateField fr t (λ _, true) "Datum" TEXT (λ _, Some (VText "NAD83"));
  Some (t, log).

End Coords.
End Coords.

(** ** expPatchesFunctions.py and ExportPatches.py *)

(** The data frame the export works on: named columns and one map per row.
    After [extract_data] every requested column is there, so a cell is
    always found. *)
Record frame := Frame {
  columns : list string;
  data : list (gmap string cellv)
}.

Definition cell (r : gmap string cellv) (c : string) : cellv :=
  default CNone (r !! c).

(** [isna()]: the three nulls. *)
Definition pd_isna (v : cellv) : bool :=
  match v with CNone | CNaN | CNA => true | _ => false end.

(** [==] of a column with a scalar, cell by cell: numbers compare by
    value across int and float, texts by content, and a null equals
    nothing. *)
Definition cell_eq (a b : cellv) : bool :=
  match a, b with
  | CInt x, CInt y => (x =? y)%Z
  | CInt x, CFloat q | CFloat q, CInt x => Qeq_bool (inject_Z x) q
  | CFloat p, CFloat q => Qeq_bool p q
  | CText s, CText t => String.eqb s t
  | _, _ => false
  end.

(** What a tool run leaves behind: messages and written artifacts. *)
Inductive effect :=
  | Log (m : msg)
  | ToCsv (out_fp : string) (df : frame)
  | ToShapefile (patches_fc : string) (exp_fields : list string) (shp_folder : string).

#[global] Instance frame_eq_dec : EqDecision frame.
Proof. solve_decision. Defined.

#[global] Instance effect_eq_dec : EqDecision effect.
Proof. solve_decision. Defined.

(** A Python value that is either [None] or a Boolean, with [or]. *)
Inductive pyval := PyNone | PyBool (b : bool).



(** Effects are collected in order of occurrence. *)
Definition W (A : Type) : Type := list effect * A.

#[global] Instance W_ret : MRet W := λ A a, ([], a).
#[global] Instance W_bind : MBind W := λ A B k m,
  let '(l1, a) := m in let '(l2, b) := k a in ((l1 ++ l2)%list, b).

Definition tell (e : effect) : W unit := ([e], tt).

Definition tell_all (l : list effect) : W unit := (l, tt).

(** The exceptions of the export: the [TypeError] of a comparison with
    [pd.NA], and the [arcpy.ExecuteError] the driver raises itself. *)
Inductive exn := TypeError | ExecuteError.

Inductive result (A : Type) :=
  | Raised (e : exn)
  | Ok (a : A).
Arguments Raised {A} _.
Arguments Ok {A} _.

(** A computation that may raise: what it did before raising stays done. *)
Definition ok {A : Type} (m : W A) : W (result A) := (m.1, Ok m.2).

Definition raise {A : Type} (e : exn) : W (result A) := ([], Raised e).

Definition W_try {A B : Type} (m : W (result A)) (k : A → W (result B))
    : W (result B) :=
  match m.2 with
  | Raised e => (m.1, Raised e)
  | Ok a => ((m.1 ++ (k a).1)%list, (k a).2)
  end.

Notation "x ←! m ; k" := (W_try m (λ x, k))
  (at level 20, m at level 100, k at level 200, only parsing, right associativity).
Notation "' x ←! m ; k" := (W_try m (λ x, k))
  (at level 20, x pattern, m at level 100, k at level 200, only parsing,
   right associativity).

Module ExpPatches.
Section ExpPatches.
Context {G : Type}.
(** [lookup.ChangeType] of the Relational Lookup Service. *)
Variable change_types : list string.
(** The folder [exp_shp_spec_fields] settles on for a feature class. *)
Variable shp_folder_of : string → string → string.
Import Store.

(** The type pandas gives a column of cursor values: a column of numbers
    that holds a float or a null is float64; a column of integers is int64;
    a column with a text in it, or of nulls only, keeps the objects. *)
Definition is_float_column (vs : list value) : bool :=
  forallb (λ v, match v with VText _ => false | _ => true end) vs
  && existsb (λ v, match v with VInt _ | VReal _ => true | _ => false end) vs
  && existsb (λ v, match v with VNull | VReal _ => true | _ => false end) vs.

(** A cursor value in a column of that type: in a float64 column an
    integer becomes a float and a null becomes [nan]. *)
Definition to_cell (float_column : bool) (v : value) : cellv :=
  match v with
  | VNull => if float_column then CNaN else CNone
  | VInt z => if float_column then CFloat (inject_Z z) else CInt z
  | VReal q => CFloat q
  | VText s => CText s
  end.

(** The values the search cursor returns for a field. *)
Definition cursor_column (patches_fc : table G) (f : string) : list value :=
  (λ r, default VNull (attrs r !! f)) <$> rows patches_fc.

Definition extract_data (patches_fc : table G) (patches_fields : list string)
    : W frame :=
  let fc_fields := ListFields patches_fc in
  let fields_to_export := filter (λ f, f ∈ fc_fields) patches_fields in
  let missing_fields := filter (λ f, f ∉ fc_fields) patches_fields in
  _ ← (if bool_decide (0 < length missing_fields)%nat
       then tell (Log (AddWarning
              [Lit "The following data.Patches fields were not found in the feature class: ";
               Vals (VText <$> missing_fields); Lit "."]))
       else mret tt);
  mret (Frame patches_fields
          ((λ r, list_to_map
                   ((λ f, (f, if bool_decide (f ∈ fields_to_export)
                              then to_cell (is_float_column (cursor_column patches_fc f))
                                     (default VNull (attrs r !! f))
                              else CNA))
                      <$> patches_fields)) <$> rows patches_fc)).

(** [.replace(old, pd.NA)] on the listed columns of one row. *)
Definition replace_na (cols : list string) (old : cellv)
    (r : gmap string cellv) : gmap string cellv :=
  foldr (λ c r, if cell_eq (cell r c) old then <[c := CNA]> r else r) r cols.

(** [re.sub(r'[\r\n]', ' ', s)] *)
Fixpoint flatten (s : string) : string :=
  match s with
  | EmptyString => EmptyString
  | String a s' =>
      String (if (Ascii.eqb a "013" || Ascii.eqb a "010")%char
              then " "%char else a) (flatten s')
  end.

Definition flatten_value (v : cellv) : cellv :=
  match v with CText s => CText (flatten s) | _ => v end.

Definition clean_row (r : gmap string cellv) : gmap string cellv :=
  let r := replace_na ["Confidence"; "DistYear"] (CInt 0) r in
  let r := replace_na ["EventType"; "ChangeType"; "AltType"; "ChangeDesc";
                       "DistName"] (CText " ") r in
  flatten_value <$> r.

Definition clean_data (csv_df : frame) : frame :=
  Frame (columns csv_df) (clean_row <$> data csv_df).

(** The rows kept for GEE: an EventType that is neither null, "Mask" nor
    "Model". *)
Definition has_gee_event (r : gmap string cellv) : bool :=
  negb (pd_isna (cell r "EventType"))
  && negb (cell_eq (cell r "EventType") (CText "Mask"))
  && negb (cell_eq (cell r "EventType") (CText "Model")).

(** [v in valid_values] for a value that is not [pd.NA]: only a text can
    equal one of the change types. *)
Definition in_values (valid_values : list string) (v : cellv) : bool :=
  match v with CText s => bool_decide (s ∈ valid_values) | _ => false end.

(** [(None, None)] is the pair of [None]s.  [pd.NA not in valid_values]
    compares [pd.NA] with the first valid value; the outcome, [pd.NA], has
    no truth value, and TypeError is raised. *)
Definition check_mismatch (df_row : gmap string cellv)
    (valid_values : list string) (column_to_check column_to_return : string)
    : result (cellv * cellv) :=
  match cell df_row column_to_check, valid_values with
  | CNA, _ :: _ => Raised TypeError
  | v, _ =>
      if negb (in_values valid_values v)
      then Ok (v, cell df_row column_to_return)
      else Ok (CNone, CNone)
  end.

(** [csv_df.apply(f, axis=1)]: row after row, up to the first that
    raises. *)
Fixpoint apply_rows {A : Type} (f : gmap string cellv → result A)
    (rs : list (gmap string cellv)) : result (list A) :=
  match rs with
  | [] => Ok []
  | r :: rs' =>
      match f r with
      | Raised e => Raised e
      | Ok a =>
          match apply_rows f rs' with
          | Raised e => Raised e
          | Ok l => Ok (a :: l)
          end
      end
  end.

Definition mismatch_message (mismatch : cellv * cellv) : effect :=
  Log (AddMessage [Lit "PatchName: "; Cell mismatch.2; Lit ", change type: ";
                   Cell mismatch.1]).

Definition check_change_types (csv_df : frame) : W (result bool) :=
  if forallb (λ r, pd_isna (cell r "ChangeType")) (data csv_df)
  then ok (mret false)
  else
    let change_list := (change_types ++ [" "])%list in
    match apply_rows (λ r, check_mismatch r change_list "ChangeType" "PatchName")
            (data csv_df) with
    | Raised e => raise e
    | Ok changetype =>
        match apply_rows (λ r, check_mismatch r change_list "AltType" "PatchName")
                (data csv_df) with
        | Raised e => raise e
        | Ok alttype =>
            let mismatch_ct := filter (λ ct, ct.1 ≠ CNone) changetype in
            let mismatch_at := filter (λ at_, at_.1 ≠ CNone) alttype in
            let mismatches := (mismatch_ct ++ mismatch_at)%list in
            if bool_decide (0 < length mismatches)%nat then
              ok (_ ← tell (Log (AddError
                     [Lit "Change types in feature class do not match change types in lookup.ChangeType."]));
                  _ ← tell_all (mismatch_message <$> mismatches);
                  mret true)
            else
              ok (_ ← tell (Log (AddMessage [Lit "No change type mismatches found."]));
                  mret false)
        end
    end.

(** Comparisons of a column with a number; a null compares false. *)
Definition lt_int (v : cellv) (k : Z) : bool :=
  match v with
  | CInt z => (z <? k)%Z
  | CFloat q => negb (Qle_bool (inject_Z k) q)
  | _ => false
  end.

Definition gt_int (v : cellv) (k : Z) : bool :=
  match v with
  | CInt z => (k <? z)%Z
  | CFloat q => negb (Qle_bool q (inject_Z k))
  | _ => false
  end.

Definition patch_message (patch : cellv) : effect :=
  Log (AddMessage [Lit "PatchName: "; Cell patch]).

Definition check_confidence (csv_df : frame) (only_values : bool) : W bool :=
  let events :=
    filter (λ r, negb (cell_eq (cell r "EventType") (CText " "))
                 && negb (pd_isna (cell r "EventType")) = true) (data csv_df) in
  if bool_decide (length events = 0%nat) then mret false
  else
    let con_ck :=
      filter (λ r, lt_int (cell r "Confidence") 1
                   || gt_int (cell r "Confidence") 3 = true) events in
    no_export ←
      (if bool_decide (0 < length con_ck)%nat then
         _ ← tell (Log (AddError
                [Lit "Confidence value does not pass validation rule of Confidence >= 1 and <=3."]));
         _ ← tell (Log (AddMessage
                [Lit "There are "; Val (VInt (Z.of_nat (length con_ck)));
                 Lit " patches with invalid confidence values."]));
         mret true
       else
         _ ← tell (Log (AddMessage
                [Lit "Confidence values for Events pass the data table validation rule."]));
         mret false);
    if negb only_values then
      let conf_1_2 :=
        filter (λ r, lt_int (cell r "Confidence") 3
                     && negb (cell_eq (cell r "EventType") (CText "Mask")) = true)
               events in
      let conf_alttype := filter (λ r, pd_isna (cell r "AltType") = true) conf_1_2 in
      let conf_alttype_patches := (λ r, cell r "PatchName") <$> conf_alttype in
      if bool_decide (0 < length conf_alttype_patches)%nat then
        _ ← tell (Log (AddError
               [Lit "There are Events with a Confidence of 1 or 2 with no AltType:"]));
        _ ← tell_all (patch_message <$> conf_alttype_patches);
        mret (no_export || true)
      else
        _ ← tell (Log (AddMessage
               [Lit "Confidence values for Events with AltTypes passed validation."]));
        mret (no_export || false)
    else mret no_export.

(** [duplicated(subset=['PatchName'], keep=False)]: the rows whose
    PatchName occurs in more than one row. *)
Definition duplicated (rs : list (gmap string cellv))
    (r : gmap string cellv) : bool :=
  bool_decide (1 < length (filter (λ r', cell r' "PatchName" = cell r "PatchName") rs))%nat.

Definition check_duplicate_patch_names (csv_df : frame) : W bool :=
  let duplicates := filter (λ r, duplicated (data csv_df) r = true) (data csv_df) in
  let duplicate_patches := (λ r, cell r "PatchName") <$> duplicates in
  if bool_decide (0 < length duplicate_patches)%nat then
    _ ← tell (Log (AddError [Lit "There are duplicate patch names in the dataset."]));
    _ ← tell_all (patch_message <$> duplicate_patches);
    mret true
  else
    _ ← tell (Log (AddMessage
           [Lit "There are no duplicate patch names in the dataset."]));
    mret false.

Definition check_fields_have_values (csv_df : frame)
    (value_fields : list string) : W bool :=
  let missing_values :=
    filter (λ field,
              existsb (λ r, pd_isna (cell r field)) (data csv_df)
              || existsb (λ r, cell_eq (cell r field) (CText " ")) (data csv_df)
              = true) value_fields in
  if bool_decide (0 < length missing_values)%nat then
    _ ← tell (Log (AddError [Lit "There are fields with missing values."]));
    _ ← tell_all ((λ v, Log (AddMessage [Lit "Field: "; Val (VText v)]))
                    <$> missing_values);
    mret true
  else
    _ ← tell (Log (AddMessage [Lit "No fields with missing values were found."]));
    mret false.

(** The frame the checks see: cleaned for CSV, restricted to events for
    GEE. *)
Definition prepare (csv_exp : bool) (csv_df : frame) : frame :=
  if csv_exp then clean_data csv_df
  else Frame (columns csv_df) (filter (λ r, has_gee_event r = true) (data csv_df)).

Definition primary_validation (patches_fc : table G)
    (patches_fields : list string) (csv_exp : bool)
    : W (result (bool * frame)) :=
  csv_df ←! ok (extract_data patches_fc patches_fields);
  let csv_df := prepare csv_exp csv_df in
  no_export_change_type ←! check_change_types csv_df;
  no_export_conf ←! ok (check_confidence csv_df csv_exp);
  no_export_dup_patch_names ←! ok (check_duplicate_patch_names csv_df);
  let no_export :=
    no_export_conf || no_export_change_type || no_export_dup_patch_names in
  ok (mret (no_export, csv_df)).

End ExpPatches.
End ExpPatches.

Module ExpTools.
Section ExpTools.
Context {G : Type}.
Variable change_types : list string.
Variable shp_folder_of : string → string → string.
(** The output file the driver settles on for a feature class (park
    folder or Patches_CSV, numeric suffix when the file exists). *)
Variable csv_path_of : string → string.
Import Store ExpPatches.

Definition patches_fields : list string :=
  ["Park"; "PatchName"; "yod"; "annualID"; "X_Coord_m"; "Y_Coord_m";
   "Latitude"; "Longitude"; "UTMX"; "UTMY"; "CoordType"; "idxMagMn";
   "durMn"; "durSd"; "area"; "perim"; "paratio"; "Watershed"; "WildName";
   "LandMgmt"; "EastWest"; "ElevMean"; "SlopeMean"; "Aspect"; "Protected";
   "InBuffer"; "InPark"; "InMask"; "VegCode"; "DistYear"; "DistName";
   "OverlapPrv"; "Split"; "EventType"; "ChangeType"; "Confidence";
   "AltType"; "ChangeDesc"; "EventDate"; "LabeledBy"; "PriorRun";
   "PostDist"].

Definition exp_fields : list string :=
  ["AltType"; "ChangeDesc"; "ChangeType"; "Confidence"; "DistYear";
   "DistName"; "EventType"; "InBuffer"; "InMask"; "InPark"; "MAJORAXIS";
   "MINORAXIS"; "ORIENTATION"; "Aspect"; "PatchName"; "Protected";
   "THICKNESS"; "X_Coord_m"; "Y_Coord_m"; "Latitude"; "Longitude";
   "paratio"; "Park"; "annualID"; "area"; "perim"; "shape_1"; "index";
   "uniqID"; "yod"; "durMn"; "durSd"; "idxMagMn"; "idxMagSd"; "tcbMagMn";
   "tcbMagSd"; "tcbPreMn"; "tcbPreSd"; "tcbPst01Mn"; "tcbPst01Sd";
   "tcbPst03Mn"; "tcbPst03Sd"; "tcbPst07Mn"; "tcbPst07Sd"; "tcbPst15Mn";
   "tcbPst15Sd"; "tcbPstMn"; "tcbPstSd"; "tcgMagMn"; "tcgMagSd";
   "tcgPreMn"; "tcgPreSd"; "tcgPst01Mn"; "tcgPst01Sd"; "tcgPst03Mn";
   "tcgPst03Sd"; "tcgPst07Mn"; "tcgPst07Sd"; "tcgPst15Mn"; "tcgPst15Sd";
   "tcgPstMn"; "tcgPstSd"; "tcwMagMn"; "tcwMagSd"; "tcwPreMn"; "tcwPreSd";
   "tcwPst01Mn"; "tcwPst01Sd"; "tcwPst03Mn"; "tcwPst03Sd"; "tcwPst07Mn";
   "tcwPst07Sd"; "tcwPst15Mn"; "tcwPst15Sd"; "tcwPstMn"; "tcwPstSd";
   "Shape_Area"; "Shape_Length"].

Definition no_check_fields : list string :=
  ["AltType"; "ChangeDesc"; "DistYear"; "DistName"].

(** A feature class with its path. *)
Definition named : Type := string * table G.

Definition export_patches_csv (patches_fc : named) (out_fp : string)
    : W (result bool) :=
  '(no_export, csv_df) ←! primary_validation change_types patches_fc.2 patches_fields true;
  if no_export : bool then
    ok (_ ← tell (Log (AddError [Lit "Validation error(s). "; Lit patches_fc.1;
                                 Lit " NOT exported to CSV."]));
        mret no_export)
  else
    ok (_ ← tell (ToCsv out_fp csv_df);
        _ ← tell (Log (AddMessage [Lit "Patches saved to: "; Lit out_fp; Lit "."]));
        mret no_export).

Definition exp_shp_spec_fields (patches_fc : named) (exp_fields : list string)
    (out_folder : string) : W string :=
  let shp_folder := shp_folder_of out_folder patches_fc.1 in
  _ ← tell (ToShapefile patches_fc.1 exp_fields shp_folder);
  mret shp_folder.

(** On the failure branch the function falls off its end: the result is
    [None]. *)
Definition export_patches_shp (patches_fc : named) (out_folder : string)
    : W (result pyval) :=
  '(no_export, csv_df) ←! primary_validation change_types patches_fc.2 exp_fields false;
  let value_fields := filter (λ field, field ∉ no_check_fields) exp_fields in
  no_export_values ←! ok (check_fields_have_values csv_df value_fields);
  let no_export := no_export || no_export_values in
  if no_export then
    ok (_ ← tell (Log (AddError [Lit "Validation error(s). "; Lit patches_fc.1;
                                 Lit " NOT exported to CSV."]));
        mret PyNone)
  else
    ok (out_shp ← exp_shp_spec_fields patches_fc exp_fields out_folder;
        _ ← tell (Log (AddMessage [Lit "Shapefile saved to: "; Lit out_shp; Lit "."]));
        mret (PyBool no_export)).




End ExpTools.
End ExpTools.

(** ** The park geodatabase *)

(** What the Geospatial Data Provider answers for the reference layers of a
    park.  Point layers are asked with the Albers coordinates of a central
    point; polygon and raster layers with the patch geometry.  A park that
    lacks a layer never has it asked. *)
Record park_gdb (G : Type) := ParkGdb {
  central : crs → G → option (Q * Q);
  centroid : crs → G → Q * Q;
  clip_study_area : G → option G;
  shape_area : G → Q;
  shape_length : G → Q;
  land_mgmt_wild : Q * Q → option (value * value);
  watershed : Q * Q → option value;
  park_bndry : Q * Q → bool;
  buff : Q * Q → bool;
  protected : Q * Q → bool;
  east_west : Q * Q → option value;
  mask : G → bool;
  water : G → bool;
  veg_rst : G → option value;
  dem_rst : G → option value;
  slope_rst : G → option value;
  aspect_rst : G → option value;
  veg_type_tbl : table unit;
  zonal_geometry : G → option (Q * Q * Q * Q)
}.
Arguments central {G} _ _ _.
Arguments centroid {G} _ _ _.
Arguments clip_study_area {G} _ _.
Arguments shape_area {G} _ _.
Arguments shape_length {G} _ _.
Arguments land_mgmt_wild {G} _ _.
Arguments watershed {G} _ _.
Arguments park_bndry {G} _ _.
Arguments buff {G} _ _.
Arguments protected {G} _ _.
Arguments east_west {G} _ _.
Arguments mask {G} _ _.
Arguments water {G} _ _.
Arguments veg_rst {G} _ _.
Arguments dem_rst {G} _ _.
Arguments slope_rst {G} _ _.
Arguments aspect_rst {G} _ _.
Arguments veg_type_tbl {G} _.
Arguments zonal_geometry {G} _ _.

(** ** addAttrUtils.py and addAttrFunctions.py: attributes from the layers *)

Module Attrs.
Section Attrs.
Context {G : Type}.
Variable fr : Q → string.
Import Store.

Definition rename_field {H : Type} (fc : table H) (old_field new_field : string)
    (field_type : ftype) : option (table H) :=
  let t := AddField fc new_field field_type in
  t ← CalculateField fr t (λ _, true) new_field TEXT (read old_field);
  Some (DeleteField t [old_field]).

(** [select_calculate]: 1 for the features the layer selects, then 0 for
    the inverted selection. *)
Definition select_calculate {H : Type} (in_fc : table H)
    (select_fc : H → bool) (field : string) : option (table H) :=
  t ← CalculateField fr in_fc (λ r, select_fc (shape r)) field SHORT
        (λ _, Some (VInt 1));
  CalculateField fr t (λ r, negb (select_fc (shape r))) field SHORT
        (λ _, Some (VInt 0)).

(** [AddSpatialJoin] with JOIN_ONE_TO_ONE, KEEP_ALL and permanent fields:
    one field of the field mapping, null where nothing matches. *)
Definition AddSpatialJoin {H : Type} (target : table H) (field : string)
    (ty : ftype) (join : H → option value) : option (table H) :=
  let name := join_name (ListFields target) field in
  CalculateField fr target (λ _, true) name ty
    (λ r, Some (default VNull (join (shape r)))).

(** The geometry of a point feature: null when a coordinate is. *)
Definition pt : Type := option (Q * Q).

Definition at_pt {A : Type} (d : A) (f : Q * Q → A) (p : pt) : A :=
  match p with Some xy => f xy | None => d end.

Definition coord (v : option value) : option Q :=
  match v with
  | Some (VReal q) => Some q
  | Some (VInt z) => Some (inject_Z z)
  | _ => None
  end.

(** [XYTableToPoint] on X_Coord_m and Y_Coord_m. *)
Definition create_central_points (fc : table G) : table pt :=
  Table (fields fc)
    ((λ r, Feature (x ← coord (attrs r !! "X_Coord_m");
                    y ← coord (attrs r !! "Y_Coord_m"); Some (x, y))
                   (attrs r)) <$> rows fc).

Definition add_land_mgmt_wild (lmw_fc : Q * Q → option (value * value))
    (pts : table pt) : option (table pt) :=
  t ← AddSpatialJoin pts "MANAGER" TEXT (at_pt None (λ xy, fst <$> lmw_fc xy));
  t ← AddSpatialJoin t "WildName" TEXT (at_pt None (λ xy, snd <$> lmw_fc xy));
  rename_field t "MANAGER" "LandMgmt" TEXT.

Definition add_watershed (watershed_fc : Q * Q → option value)
    (pts : table pt) : option (table pt) :=
  t ← AddSpatialJoin pts "NAME" TEXT (at_pt None watershed_fc);
  rename_field t "NAME" "Watershed" TEXT.

Definition add_attrs_points (patches_fc : table G) (central_pts_sa : table pt)
    (land_wild_fc : Q * Q → option (value * value))
    (watershed_fc : Q * Q → option value)
    (park_fc buff_fc : Q * Q → bool)
    (protected_fc : option (Q * Q → bool))
    (east_west_fc : option (Q * Q → option value))
    (zone_field : string) : option (table G) :=
  pts ← add_land_mgmt_wild land_wild_fc central_pts_sa;
  pts ← add_watershed watershed_fc pts;
  pts ← select_calculate pts (at_pt false park_fc) "InPark";
  pts ← select_calculate pts (at_pt false buff_fc) "InBuffer";
  patches_fc ← JoinField patches_fc zone_field pts zone_field
                 ["WildName"; "LandMgmt"; "Watershed"; "InPark"; "InBuffer"];
  let existing_fields := ListFields pts in
  '(pts, patches_fc) ←
    (match protected_fc, east_west_fc with
     | Some protected_fc, Some east_west_fc =>
         pts ← select_calculate pts (at_pt false protected_fc) "Protected";
         let '(pts, patches_fc) :=
           if bool_decide ("EastWest" ∈ existing_fields)
           then (DeleteField pts ["EastWest"], DeleteField patches_fc ["EastWest"])
           else (pts, patches_fc) in
         pts ← AddSpatialJoin pts "EastWest" TEXT (at_pt None east_west_fc);
         Some (pts, patches_fc)
     | _, _ =>
         let pts := if bool_decide ("Protected" ∉ existing_fields)
                    then AddField pts "Protected" SHORT else pts in
         let pts := if bool_decide ("EastWest" ∉ existing_fields)
                    then AddField pts "EastWest" TEXT else pts in
         Some (pts, patches_fc)
     end);
  let join_fields :=
    filter (λ field, field ∉ existing_fields) ["Protected"; "EastWest"] in
  match join_fields with
  | [] => Some patches_fc
  | _ => JoinField patches_fc zone_field pts zone_field join_fields
  end.

(** [ZonalStatisticsAsTable]: a row per zone the raster has cells for. *)
Definition zonal_table (fc : table G) (zone_field stat_type : string)
    (ty : ftype) (rst : G → option value) : table unit :=
  Table [(zone_field, LONG); (stat_type, ty)]
    (omap (λ r, z ← attrs r !! zone_field;
                v ← rst (shape r);
                Some (Feature tt (<[stat_type := v]> {[zone_field := z]})))
          (rows fc)).

Definition zonal_stats_rename_field (fc : table G) (rst : G → option value)
    (zone_field stat_type field_name : string) (field_type : ftype)
    : option (table G) :=
  let zonal_stats_tbl := zonal_table fc zone_field stat_type DOUBLE rst in
  t ← JoinField fc zone_field zonal_stats_tbl zone_field [stat_type];
  rename_field t stat_type field_name field_type.

(** [int(x)] *)
Definition py_int (v : value) : option value :=
  match v with
  | VInt z => Some (VInt z)
  | VReal q => Some (VInt (Z.quot (Qnum q) (Zpos (Qden q))))
  | VText s => VInt <$> parse_int s
  | VNull => None
  end.

(** The code block [create_code(id)]. *)
Definition create_code (id : value) : option value :=
  match id with
  | VInt z => Some (VText ((if (z <? 10)%Z then "L0" else "L") +:+ pretty z))
  | _ => None
  end.

Definition add_veg_type (fc : table G) (veg_raster : G → option value)
    (zone_field : string) (veg_type_tbl : option (table unit))
    : option (table G) :=
  t ← zonal_stats_rename_field fc veg_raster zone_field "MAJORITY"
        "Veg_value_text" TEXT;
  t ← CalculateField fr t (λ _, true) "VegValue" LONG
        (λ r, v ← read "Veg_value_text" r;
              if truthy v then py_int v else Some VNull);
  let t := DeleteField t ["Veg_value_text"] in
  match veg_type_tbl with
  | Some tbl =>
      t ← JoinField t "VegValue" tbl "MCID" ["CODE"];
      rename_field t "CODE" "VegCode" TEXT
  | None =>
      let t := AddField t "VegCode" TEXT in
      CalculateField fr t (λ _, true) "VegCode" TEXT
        (λ r, id ← read "VegValue" r; create_code id)
  end.

(** [ZonalGeometryAsTable] *)
Definition zonal_geo_table (fc : table G) (zone_field : string)
    (geo : G → option (Q * Q * Q * Q)) : table unit :=
  Table [("VALUE", LONG); ("THICKNESS", DOUBLE); ("MAJORAXIS", DOUBLE);
         ("MINORAXIS", DOUBLE); ("ORIENTATION", DOUBLE)]
    (omap (λ r, z ← attrs r !! zone_field;
                '(th, ma, mi, ori) ← geo (shape r);
                Some (Feature tt (<["ORIENTATION" := VReal ori]>
                                  (<["MINORAXIS" := VReal mi]>
                                   (<["MAJORAXIS" := VReal ma]>
                                    (<["THICKNESS" := VReal th]>
                                     {["VALUE" := z]}))))))
          (rows fc)).

Definition add_zonal_geometry (fc : table G) (zone_field : string)
    (geo : G → option (Q * Q * Q * Q)) : option (table G) :=
  JoinField fc zone_field (zonal_geo_table fc zone_field geo) "VALUE"
    ["THICKNESS"; "MAJORAXIS"; "MINORAXIS"; "ORIENTATION"].

Definition attr_fields : list string :=
  ["CoordType"; "X_Coord_m"; "Y_Coord_m"; "UTMX"; "UTMY"; "Latitude";
   "Longitude"; "WildName"; "LandMgmt"; "Watershed"; "InPark"; "InBuffer";
   "InMask"; "Protected"; "EastWest"; "VegCode"; "ElevMean"; "SlopeMean";
   "Aspect"; "paratio"].

Definition del_existing_fields (fc : table G) : table G :=
  let fields_ := ListFields fc in
  let fields_to_del := filter (λ f, f ∈ fields_) attr_fields in
  if bool_decide (0 < length fields_to_del)%nat
  then DeleteField fc fields_to_del else fc.

(** A geodatabase keeps Shape_Area and Shape_Length with the geometry. *)
Definition with_shape (gdb : park_gdb G) (g : G) (r : feature G) : feature G :=
  Feature g (<["Shape_Length" := VReal (shape_length gdb g)]>
             (<["Shape_Area" := VReal (shape_area gdb g)]> (attrs r))).

Definition clip_patches (gdb : park_gdb G) (patches_fc : table G) (mmu : Z)
    : option (table G) :=
  let clipped :=
    omap (λ r, g ← clip_study_area gdb (shape r); Some (with_shape gdb g r))
         (rows patches_fc) in
  let mmu_area := (30 * 30 * mmu)%Z in
  let too_small r :=
    negb (Qle_bool (inject_Z mmu_area) (shape_area gdb (shape r))) in
  let kept := filter (λ r, too_small r = false) clipped in
  Shape.update_area_perim fr (Table (fields patches_fc) kept).

End Attrs.
End Attrs.

(** ** addAttr.py and AddAttributesToPatches.py *)

Module AddAttr.
Section AddAttr.
Context {G : Type}.
Variable fr : Q → string.
(** [area / ((0.282 * perim)**2)] in the interpreter's floating point. *)
Variable paratio_of : value → value → option value.
(** INTERSECT with a search distance of -1 meter. *)
Variable overlaps : G → G → bool.
Variable today : string.
Variable gdb : park_gdb G.
Import Store Attrs.

Definition add_attr_patches (patches_fc : string * table G)
    (zone_field : string) (park : string) (clip_patches_sa : bool) (mmu : Z)
    (log : list msg) : option (table G * list msg) :=
  let '(fc_name, t) := patches_fc in
  let t := del_existing_fields t in
  let veg_type_tbl_ := if bool_decide (park ≠ "LEWI") then Some (veg_type_tbl gdb) else None in
  let mask_fc := if bool_decide (park ≠ "LEWI") then Some (mask gdb) else None in
  let protected_fc := if bool_decide (park ≠ "LEWI") then Some (protected gdb) else None in
  let east_west_fc := if bool_decide (park ≠ "LEWI") then Some (east_west gdb) else None in
  t ← (if clip_patches_sa then clip_patches fr gdb t mmu else Some t);
  '(t, log) ← Coords.add_coords fr (central gdb) (centroid gdb) fc_name (t, log);
  let central_pts_sa := create_central_points t in
  t ← add_attrs_points fr t central_pts_sa (land_mgmt_wild gdb) (watershed gdb)
        (park_bndry gdb) (buff gdb) protected_fc east_west_fc zone_field;
  t ← (match mask_fc with
       | Some mask_fc => select_calculate fr t mask_fc "InMask"
       | None => Some t
       end);
  t ← add_veg_type fr t (veg_rst gdb) zone_field veg_type_tbl_;
  t ← zonal_stats_rename_field fr t (dem_rst gdb) zone_field "MEAN" "ElevMean" FLOAT;
  t ← zonal_stats_rename_field fr t (slope_rst gdb) zone_field "MEAN" "SlopeMean" FLOAT;
  t ← zonal_stats_rename_field fr t (aspect_rst gdb) zone_field "MAJORITY" "Aspect" SHORT;
  t ← add_zonal_geometry t zone_field (zonal_geometry gdb);
  Some (t, log).

Definition add_paratio (patches_fc : table G) : option (table G) :=
  let t := AddField patches_fc "paratio" DOUBLE in
  CalculateField fr t (λ _, true) "paratio" TEXT
    (λ r, a ← read "area" r; p ← read "perim" r; paratio_of a p).

(** [Append] with TEST_AND_SKIP: the rows go in when the schemas agree,
    and the input is skipped otherwise. *)
Definition Append (inputs target : table G) : table G :=
  if bool_decide (fields inputs = fields target)
  then Table (fields target) (rows target ++ rows inputs)%list
  else target.

(** The variables the yearly loop carries. *)
Record run := Run {
  changeDB_fc : option (table G);
  base_fc : option (table G);
  messages : list msg
}.

(** One pass of the loop over the shapefiles, for a run that starts with
    the first shapefile. *)
Definition year_pass (zone_field park : string) (clip_patches_sa : bool)
    (mmu : Z) (events_mask : bool) (s : run) (shp : string * table G)
    : option run :=
  '(patches_fc, log) ←
    add_attr_patches shp zone_field park clip_patches_sa mmu (messages s);
  patches_fc ← add_paratio patches_fc;
  patches_fc ←
    (if events_mask
     then Events.label_events fr today (water gdb) park patches_fc
     else Some patches_fc);
  let prev_fc := base_fc s in
  let patches_fc := AddField patches_fc "OverlapPrv" SHORT in
  patches_fc ←
    (match prev_fc with
     | Some prev_fc =>
         Overlap.add_overlap_prev fr overlaps patches_fc prev_fc park events_mask
     | None => Some patches_fc
     end);
  let changeDB :=
    match changeDB_fc s with
    | None => patches_fc
    | Some db => Append patches_fc db
    end in
  Some (Run (Some changeDB) (Some patches_fc) log).

Definition year_loop (zone_field park : string) (clip_patches_sa : bool)
    (mmu : Z) (events_mask : bool) (shps : list (string * table G))
    : option run :=
  foldl (λ acc shp, s ← acc;
           year_pass zone_field park clip_patches_sa mmu events_mask s shp)
        (Some (Run None None [])) shps.

(** AddAttributesToPatches.py without resuming: all years, then Park and
    PatchName on the merged feature class. *)
Definition add_attributes_to_patches (zone_field park : string)
    (clip_patches_sa : bool) (mmu : Z) (events_mask : bool)
    (shps : list (string * table G)) : option (table G * list msg) :=
  s ← year_loop zone_field park clip_patches_sa mmu events_mask shps;
  db ← changeDB_fc s;
  db ← Naming.finalize fr db park mmu;
  Some (db, messages s).

End AddAttr.
End AddAttr.

(** * Properties *)

(** Membership in a list of literals, by evaluation. *)
Ltac in_list := apply (bool_decide_unpack _); vm_compute; exact I.

(** ** The store primitives *)

Section StoreFacts.
Context {G : Type}.
Variable fr : Q → string.
Import Store.
Implicit Types (t : table G) (r : feature G) (f g : string).

(** [r'] is [r] with at most the fields [fs] rewritten. *)
Definition same_but (fs : list string) r r' : Prop :=
  shape r' = shape r ∧ ∀ k, k ∉ fs → attrs r' !! k = attrs r !! k.

Lemma same_but_refl fs r : same_but fs r r.
Proof. by split. Qed.

Lemma same_but_trans fs1 fs2 r1 r2 r3 :
  same_but fs1 r1 r2 → same_but fs2 r2 r3 → same_but (fs1 ++ fs2) r1 r3.
Proof.
  intros [Hs1 H1] [Hs2 H2]. split; [congruence|].
  intros k Hk. apply not_elem_of_app in Hk as [Hk1 Hk2].
  by rewrite H2, H1.
Qed.

Lemma same_but_weaken fs1 fs2 r r' :
  fs1 ⊆ fs2 → same_but fs1 r r' → same_but fs2 r r'.
Proof. intros Hsub [Hs H]. split; [done|]. intros k Hk. apply H. set_solver. Qed.

Lemma same_but_set f v r : same_but [f] r (set_attr f v r).
Proof.
  split; [done|]. intros k Hk. simpl. apply lookup_insert_ne. set_solver.
Qed.

Lemma Forall2_same_but_trans fs1 fs2 (l1 l2 l3 : list (feature G)) :
  Forall2 (same_but fs1) l1 l2 → Forall2 (same_but fs2) l2 l3 →
  Forall2 (same_but (fs1 ++ fs2)) l1 l3.
Proof.
  intros H12. revert l3. induction H12; intros l3 H23; inversion H23; subst.
  - constructor.
  - constructor; [by eapply same_but_trans | by apply IHForall2].
Qed.

Lemma Forall2_same_but_fmap fs (h : feature G → feature G) (l : list (feature G)) :
  (∀ r, same_but fs r (h r)) → Forall2 (same_but fs) l (h <$> l).
Proof. intros Hh. induction l; constructor; auto. Qed.

Lemma assoc_app (l1 l2 : list (string * ftype)) f :
  assoc (l1 ++ l2) f = match assoc l1 f with Some ty => Some ty | None => assoc l2 f end.
Proof.
  induction l1 as [|[g ty] l1 IH]; simpl; [done|].
  destruct (String.eqb g f); [done | apply IH].
Qed.

Lemma assoc_None (l : list (string * ftype)) f : assoc l f = None ↔ f ∉ l.*1.
Proof.
  induction l as [|[g ty] l IH]; simpl.
  - split; [intros _; apply not_elem_of_nil | done].
  - destruct (String.eqb_spec g f) as [->|Hne].
    + split; [done | intros []; left].
    + split.
      * intros H. apply not_elem_of_cons. split; [congruence | by apply IH].
      * intros [_ H]%not_elem_of_cons. by apply IH.
Qed.

Lemma has_field_true t f : has_field t f = true ↔ is_Some (field_type t f).
Proof.
  unfold has_field, field_type. rewrite bool_decide_eq_true.
  rewrite <- not_eq_None_Some, assoc_None. unfold ListFields.
  split; [auto | apply dec_stable].
Qed.

Lemma has_field_false t f : has_field t f = false ↔ field_type t f = None.
Proof.
  unfold has_field, field_type. rewrite bool_decide_eq_false, assoc_None. done.
Qed.

Lemma field_type_AddField_eq t f ty :
  field_type (AddField t f ty) f =
    match field_type t f with Some ty' => Some ty' | None => Some ty end.
Proof.
  unfold AddField. destruct (has_field t f) eqn:Hf.
  - apply has_field_true in Hf as [ty' Hty]. by rewrite Hty.
  - apply has_field_false in Hf. unfold field_type in *. simpl.
    rewrite assoc_app, Hf. simpl. by rewrite String.eqb_refl.
Qed.

Lemma field_type_AddField_ne t f g ty :
  f ≠ g → field_type (AddField t f ty) g = field_type t g.
Proof.
  intros Hne. unfold AddField. destruct (has_field t f); [done|].
  unfold field_type. simpl. rewrite assoc_app. simpl.
  destruct (String.eqb_spec f g); [done|]. by destruct (assoc (fields t) g).
Qed.

Lemma has_field_AddField t f ty : has_field (AddField t f ty) f = true.
Proof.
  apply has_field_true. rewrite field_type_AddField_eq.
  destruct (field_type t f); eauto.
Qed.

Lemma AddField_has t f ty : has_field t f = true → AddField t f ty = t.
Proof. intros H. unfold AddField. by rewrite H. Qed.

Lemma ListFields_AddField t f ty :
  ListFields (AddField t f ty) =
    if has_field t f then ListFields t else (ListFields t ++ [f])%list.
Proof.
  unfold AddField. destruct (has_field t f); [done|].
  unfold ListFields. simpl. by rewrite fmap_app.
Qed.

Lemma rows_AddField t f ty :
  Forall2 (same_but [f]) (rows t) (rows (AddField t f ty)).
Proof.
  unfold AddField. destruct (has_field t f); simpl.
  - apply Forall_Forall2_diag, Forall_forall. intros r _. apply same_but_refl.
  - apply Forall2_same_but_fmap. intros r. apply same_but_set.
Qed.

(** What a successful [CalculateField] did, row by row. *)
Definition calculated (sel : feature G → bool) f (ty' : ftype)
    (expr : feature G → option value) r r' : Prop :=
  if sel r
  then ∃ v v', expr r = Some v ∧ coerce fr ty' v = Some v' ∧ r' = set_attr f v' r
  else r' = r.

Lemma CalculateField_inv t sel f ty expr t' :
  CalculateField fr t sel f ty expr = Some t' →
  ∃ ty', field_type (AddField t f ty) f = Some ty' ∧
         fields t' = fields (AddField t f ty) ∧
         Forall2 (calculated sel f ty' expr) (rows (AddField t f ty)) (rows t').
Proof.
  unfold CalculateField. intros H.
  destruct (field_type (AddField t f ty) f) as [ty'|] eqn:Hty; [|done].
  simpl in H.
  destruct (mapM _ (rows (AddField t f ty))) as [rows'|] eqn:Hm; [|done].
  simpl in H. injection H as <-. exists ty'. split; [done|]. split; [done|].
  simpl. apply mapM_Some in Hm. eapply Forall2_impl; [|exact Hm].
  intros r r' Hr. cbv beta in Hr. unfold calculated. destruct (sel r).
  - destruct (expr r) as [v|]; cbn in Hr; [|done].
    destruct (coerce fr ty' v) as [v'|] eqn:Hc; cbn in Hr; [|done].
    injection Hr as <-. by exists v, v'.
  - by injection Hr.
Qed.

Lemma CalculateField_total t (sel : feature G → bool) f ty
    (expr : feature G → option value) ty' (h : feature G → feature G) :
  field_type (AddField t f ty) f = Some ty' →
  (∀ r : feature G, r ∈ rows (AddField t f ty) →
        (if sel r then v ← expr r; v' ← coerce fr ty' v; Some (set_attr f v' r)
         else Some r) = Some (h r)) →
  CalculateField fr t sel f ty expr
  = Some (Table (fields (AddField t f ty)) (h <$> rows (AddField t f ty))).
Proof.
  intros Hty Hh. unfold CalculateField. rewrite Hty. simpl.
  assert (mapM (λ r, if sel r
                     then v ← expr r; v' ← coerce fr ty' v; Some (set_attr f v' r)
                     else Some r) (rows (AddField t f ty))
          = Some (h <$> rows (AddField t f ty))) as ->; [|done].
  apply mapM_Some. apply Forall2_fmap_r, Forall_Forall2_diag.
  apply Forall_forall. intros r Hr. unfold compose. apply Hh.
  by apply list_elem_of_In.
Qed.

Lemma CalculateField_existing t (sel : feature G → bool) f ty
    (expr : feature G → option value) ty' (h : feature G → feature G) :
  field_type t f = Some ty' →
  (∀ r : feature G, r ∈ rows t →
        (if sel r then v ← expr r; v' ← coerce fr ty' v; Some (set_attr f v' r)
         else Some r) = Some (h r)) →
  CalculateField fr t sel f ty expr = Some (Table (fields t) (h <$> rows t)).
Proof.
  intros Hty Hh.
  assert (AddField t f ty = t) as Hadd.
  { apply AddField_has, has_field_true. eauto. }
  rewrite <- Hadd at 2 3.
  apply CalculateField_total with (ty' := ty'); by rewrite Hadd.
Qed.

Lemma calc_existing t (sel : feature G → bool) f ty ty' v v' :
  field_type t f = Some ty' → coerce fr ty' v = Some v' →
  CalculateField fr t sel f ty (λ _, Some v)
  = Some (Table (fields t) ((λ r, if sel r then set_attr f v' r else r) <$> rows t)).
Proof.
  intros Hty Hc. apply CalculateField_existing with (ty' := ty'); [done|].
  intros r _. destruct (sel r); [|done]. cbn. by rewrite Hc.
Qed.

Lemma rows_AddField_fmap t f ty :
  rows (AddField t f ty)
  = (λ r, if has_field t f then r else set_attr f VNull r) <$> rows t.
Proof.
  unfold AddField. destruct (has_field t f); [by rewrite list_fmap_id | done].
Qed.

Lemma calculated_same_but sel f ty' expr r r' :
  calculated sel f ty' expr r r' → same_but [f] r r'.
Proof.
  unfold calculated. destruct (sel r).
  - intros (v & v' & _ & _ & ->). apply same_but_set.
  - intros ->. apply same_but_refl.
Qed.

Lemma CalculateField_same_but t sel f ty expr t' :
  CalculateField fr t sel f ty expr = Some t' →
  Forall2 (same_but [f]) (rows t) (rows t').
Proof.
  intros (ty' & _ & _ & Hrows)%CalculateField_inv.
  eapply Forall2_impl.
  - intros r r'. apply same_but_weaken with (fs1 := ([f] ++ [f])%list). set_solver.
  - eapply Forall2_same_but_trans; [apply rows_AddField|].
    eapply Forall2_impl; [|exact Hrows]. apply calculated_same_but.
Qed.

End StoreFacts.

(** ** The Event Labeler *)

Section EventsFacts.
Context {G : Type}.
Variable fr : Q → string.
Variable today : string.
Variable within_water : G → bool.
Import Store Events.
Implicit Types (t : table G) (r : feature G).

(** What [add_annual_var] leaves in a selected row. *)
Definition stamp r : feature G :=
  set_attr "PostDist" (VInt 0)
    (set_attr "PriorRun" (VInt 0)
       (set_attr "LabeledBy" (VText "Geoprocessing")
          (set_attr "EventDate" (VText today)
             (set_attr "Confidence" (VInt 2)
                (set_attr "ChangeType" (VText "Annual Variability")
                   (set_attr "EventType" (VText "Mask") r)))))).

(** An event field that is already there has the type [add_event_fields]
    would give it. *)
Definition event_fields_ok t : bool :=
  forallb (λ p : string * ftype,
             match field_type t p.1 with
             | None => true
             | Some ty => bool_decide (ty = p.2)
             end) (zip field_names field_types).

Definition event_typed t : Prop :=
  field_type t "EventType" = Some TEXT ∧ field_type t "ChangeType" = Some TEXT ∧
  field_type t "Confidence" = Some SHORT ∧ field_type t "EventDate" = Some TEXT ∧
  field_type t "LabeledBy" = Some TEXT ∧ field_type t "PriorRun" = Some SHORT ∧
  field_type t "PostDist" = Some SHORT.

Lemma foldl_AddField_type (l : list (string * ftype)) t g :
  field_type (foldl (λ acc p, AddField acc p.1 p.2) t l) g
  = match field_type t g with Some ty => Some ty | None => assoc l g end.
Proof.
  revert t. induction l as [|[f ty] l IH]; intros t; simpl.
  - by destruct (field_type t g).
  - rewrite IH. destruct (String.eqb_spec f g) as [->|Hne].
    + rewrite field_type_AddField_eq. by destruct (field_type t g).
    + by rewrite field_type_AddField_ne.
Qed.

Lemma foldl_AddField_has (l : list (string * ftype)) t f :
  has_field t f = true →
  has_field (foldl (λ acc p, AddField acc p.1 p.2) t l) f = true.
Proof.
  intros [ty Hf]%has_field_true. apply has_field_true.
  rewrite foldl_AddField_type, Hf. eauto.
Qed.

Lemma foldl_AddField_rows (l : list (string * ftype)) t :
  Forall2 (same_but l.*1) (rows t)
          (rows (foldl (λ acc p, AddField acc p.1 p.2) t l)).
Proof.
  revert t. induction l as [|[f ty] l IH]; intros t; simpl.
  - apply Forall_Forall2_diag, Forall_forall. intros r _. apply same_but_refl.
  - apply (Forall2_same_but_trans [f] (l.*1) _ (rows (AddField t f ty)));
      [apply rows_AddField | apply IH].
Qed.

Lemma event_fields_ok_type t f ty :
  event_fields_ok t = true →
  assoc (zip field_names field_types) f = Some ty →
  field_type (foldl (λ acc p, AddField acc p.1 p.2) t
                (zip field_names field_types)) f = Some ty.
Proof.
  intros Hok Hf. rewrite foldl_AddField_type.
  destruct (field_type t f) as [ty0|] eqn:Hty; [|done].
  unfold event_fields_ok in Hok. rewrite forallb_forall in Hok.
  assert (In (f, ty) (zip field_names field_types)) as Hin.
  { clear -Hf. induction (zip field_names field_types) as [|[g ty'] l IH];
      simpl in *; [done|].
    destruct (String.eqb_spec g f) as [->|]; [left; congruence | right; auto]. }
  specialize (Hok _ Hin). simpl in Hok. rewrite Hty in Hok.
  apply bool_decide_eq_true in Hok. congruence.
Qed.

Lemma set_split_spec t t0 :
  (∀ f ty, assoc (zip field_names field_types) f = Some ty →
           field_type t0 f = Some ty) →
  Forall2 (same_but (zip field_names field_types).*1) (rows t) (rows t0) →
  (∀ f, has_field t f = true → has_field t0 f = true) →
  ∃ t1, CalculateField fr t0 (λ _, true) "Split" TEXT (λ _, Some (VInt 0))
        = Some t1 ∧ event_typed t1 ∧
        Forall2 (same_but field_names) (rows t) (rows t1) ∧
        ∀ f, has_field t f = true → has_field t1 f = true.
Proof.
  intros Hty Hrows Hhas.
  rewrite (calc_existing fr t0 _ "Split" TEXT SHORT (VInt 0) (VInt 0));
    [|by apply Hty|done].
  eexists. split; [done|]. split; [|split].
  - unfold event_typed, field_type. cbn [fields].
    repeat split; apply Hty; reflexivity.
  - cbn [rows].
    eapply Forall2_impl;
      [|eapply Forall2_same_but_trans;
         [exact Hrows
         |apply (Forall2_same_but_fmap ["Split"]); intros r; destruct true;
          apply same_but_set]].
    intros r r'. apply same_but_weaken.
    intros k [Hk|Hk]%elem_of_app; [done|].
    apply list_elem_of_singleton in Hk as ->. in_list.
  - intros f Hf. specialize (Hhas f Hf).
    unfold has_field, ListFields in *. cbn [fields]. exact Hhas.
Qed.

Lemma add_event_fields_spec t :
  event_fields_ok t = true →
  ∃ t1, add_event_fields fr t = Some t1 ∧ event_typed t1 ∧
        Forall2 (same_but field_names) (rows t) (rows t1) ∧
        ∀ f, has_field t f = true → has_field t1 f = true.
Proof.
  intros Hok. unfold add_event_fields. apply set_split_spec.
  - intros f ty. by apply event_fields_ok_type.
  - apply foldl_AddField_rows.
  - apply foldl_AddField_has.
Qed.

Lemma upd_chain (sel : feature G → bool) (l : list (string * value)) r :
  (∀ p, p ∈ l → ∀ v r0, sel (set_attr p.1 v r0) = sel r0) →
  foldl (λ r0 p, if sel r0 then set_attr p.1 p.2 r0 else r0) r l
  = if sel r then foldl (λ r0 p, set_attr p.1 p.2 r0) r l else r.
Proof.
  revert r. induction l as [|[f v] l IH]; intros r Hsel; simpl.
  - by destruct (sel r).
  - rewrite IH by (intros p Hp; apply Hsel; by right).
    destruct (sel r) eqn:E; [|by rewrite E].
    by rewrite (Hsel (f, v)), E by left.
Qed.

Lemma add_annual_var_spec (sel : feature G → bool) t :
  event_typed t →
  (∀ r f v, f ∈ annual_var_fields → sel (set_attr f v r) = sel r) →
  add_annual_var fr today sel t
  = Some (Table (fields t) ((λ r, if sel r then stamp r else r) <$> rows t)).
Proof.
  intros (H1 & H2 & H3 & H4 & H5 & H6 & H7) Hsel.
  unfold add_annual_var. cbn [zip annual_var_fields annual_var_values zip_with foldl].
  cbn [mbind option_bind fst snd].
  rewrite (calc_existing fr t sel "EventType" TEXT TEXT _ (VText "Mask")); [|done..].
  cbn [mbind option_bind].
  rewrite (calc_existing fr _ sel "ChangeType" TEXT TEXT _ (VText "Annual Variability"));
    [|done..].
  cbn [mbind option_bind].
  rewrite (calc_existing fr _ sel "Confidence" TEXT SHORT _ (VInt 2)); [|done..].
  cbn [mbind option_bind].
  rewrite (calc_existing fr _ sel "EventDate" TEXT TEXT _ (VText today)); [|done..].
  cbn [mbind option_bind].
  rewrite (calc_existing fr _ sel "LabeledBy" TEXT TEXT _ (VText "Geoprocessing"));
    [|done..].
  cbn [mbind option_bind].
  rewrite (calc_existing fr _ sel "PriorRun" TEXT SHORT _ (VInt 0)); [|done..].
  cbn [mbind option_bind].
  rewrite (calc_existing fr _ sel "PostDist" TEXT SHORT _ (VInt 0)); [|done..].
  cbn [fields rows]. f_equal. f_equal.
  rewrite <- !list_fmap_compose. apply list_fmap_ext. intros _ r _.
  apply (upd_chain sel
           [("EventType", VText "Mask"); ("ChangeType", VText "Annual Variability");
            ("Confidence", VInt 2); ("EventDate", VText today);
            ("LabeledBy", VText "Geoprocessing"); ("PriorRun", VInt 0);
            ("PostDist", VInt 0)] r).
  intros p Hp v r0. apply Hsel.
  repeat (apply elem_of_cons in Hp as [->|Hp]; [in_list|]).
  by apply elem_of_nil in Hp.
Qed.

(** The fields a Mask label consists of. *)
Definition mask_labeled r : Prop :=
  attrs r !! "EventType" = Some (VText "Mask") ∧
  attrs r !! "ChangeType" = Some (VText "Annual Variability") ∧
  attrs r !! "Confidence" = Some (VInt 2) ∧
  attrs r !! "EventDate" = Some (VText today) ∧
  attrs r !! "LabeledBy" = Some (VText "Geoprocessing") ∧
  attrs r !! "PriorRun" = Some (VInt 0) ∧
  attrs r !! "PostDist" = Some (VInt 0).

Lemma stamp_labeled r : mask_labeled (stamp r).
Proof.
  unfold mask_labeled, stamp, set_attr. cbn [attrs].
  repeat split;
    repeat (rewrite lookup_insert_ne by discriminate); apply lookup_insert_eq.
Qed.

Lemma in_mask_set f v r :
  f ∈ annual_var_fields → in_mask (set_attr f v r) = in_mask r.
Proof.
  intros Hf. unfold in_mask, set_attr. cbn [attrs].
  rewrite lookup_insert_ne; [done|]. intros ->. revert Hf.
  apply (bool_decide_eq_false_1 _). vm_compute. done.
Qed.

Lemma event_typed_fields t t' : fields t' = fields t → event_typed t → event_typed t'.
Proof. unfold event_typed, field_type. by intros ->. Qed.

(** C4. A patch of a year's feature class that lies completely within the
    elevation mask (InMask = 1, for a park that has such a mask) or
    completely within the water mask comes out of the Event Labeler with
    EventType "Mask", ChangeType "Annual Variability", Confidence 2,
    EventDate the processing date, LabeledBy "Geoprocessing", PriorRun 0
    and PostDist 0.  The labeler succeeds on every feature class whose
    InMask field exists (when the park has a mask). *)
Theorem mask_patches_labeled (park : string) t :
  event_fields_ok t = true →
  park = "LEWI" ∨ has_field t "InMask" = true →
  ∃ t', label_events fr today within_water park t = Some t' ∧
    ∀ i r, rows t !! i = Some r →
      (park ≠ "LEWI" ∧ in_mask r = true) ∨ within_water (shape r) = true →
      ∃ r', rows t' !! i = Some r' ∧ shape r' = shape r ∧ mask_labeled r'.
Proof.
  intros Hok Hmask.
  destruct (add_event_fields_spec t Hok) as (t1 & E1 & Hty1 & Hrows1 & Hhas1).
  unfold label_events. rewrite E1. cbn [mbind option_bind].
  assert (∃ t2, (if bool_decide (park ≠ "LEWI") then label_elev_mask fr today t1
                 else Some t1) = Some t2 ∧ fields t2 = fields t1 ∧
                rows t2 = (λ r, if bool_decide (park ≠ "LEWI") && in_mask r
                                then stamp r else r) <$> rows t1)
    as (t2 & E2 & Hf2 & Hr2).
  { case_bool_decide as Hpark.
    - destruct Hmask as [->|Hmask]; [done|].
      unfold label_elev_mask. rewrite (Hhas1 _ Hmask).
      rewrite add_annual_var_spec; [|done|intros; by apply in_mask_set].
      by eexists.
    - eexists. split; [done|]. split; [done|]. simpl.
      by rewrite list_fmap_id. }
  rewrite E2. cbn [mbind option_bind]. unfold label_water_mask.
  rewrite add_annual_var_spec; [|by eapply event_typed_fields|done].
  eexists. split; [done|]. cbn [rows]. intros i r Hi Hsel.
  destruct (Forall2_lookup_l _ _ _ _ _ Hrows1 Hi) as (r1 & Hi1 & Hs1 & Ha1).
  rewrite Hr2, !list_lookup_fmap, Hi1. cbn [fmap option_fmap option_map].
  eexists. split; [done|].
  assert (in_mask r1 = in_mask r) as Hm.
  { unfold in_mask. rewrite Ha1; [done|].
    apply (bool_decide_eq_false_1 _). vm_compute. done. }
  rewrite Hm.
  assert (∀ b r0, shape (if b : bool then stamp r0 else r0) = shape r0) as Hshape
    by (by intros []).
  rewrite !Hshape, Hs1. split; [done|].
  destruct (within_water (shape r)); [apply stamp_labeled|].
  destruct Hsel as [[Hpark ->]|?]; [|done].
  rewrite bool_decide_eq_true_2 by done. apply stamp_labeled.
Qed.

End EventsFacts.

(** A year's feature class of a park with a mask: one patch inside the
    elevation mask, one inside the water mask, one in neither. *)
Definition c4_patches : table bool :=
  Table [("annualID", LONG); ("InMask", SHORT)]
    [Feature false (<["InMask" := VInt 1]> {["annualID" := VInt 1]});
     Feature true (<["InMask" := VInt 0]> {["annualID" := VInt 2]});
     Feature false (<["InMask" := VInt 0]> {["annualID" := VInt 3]})].

Lemma mask_patches_labeled_witness :
  ∃ t', Events.label_events (λ _, "") "2024-05-01" (λ g : bool, g) "MORA"
          c4_patches = Some t' ∧
    ∀ i r, rows c4_patches !! i = Some r →
      ("MORA" ≠ "LEWI" ∧ Events.in_mask r = true) ∨ shape r = true →
      ∃ r', rows t' !! i = Some r' ∧ shape r' = shape r ∧
            mask_labeled "2024-05-01" r'.
Proof.
  apply (mask_patches_labeled (λ _, "") "2024-05-01" (λ g : bool, g) "MORA"
           c4_patches).
  - reflexivity.
  - right. reflexivity.
Defined.

(** ** The curated-label join *)

Definition event_schema : list (string * ftype) :=
  [("PatchName", TEXT); ("EventType", TEXT); ("ChangeType", TEXT);
   ("Confidence", SHORT); ("AltType", TEXT); ("ChangeDesc", TEXT);
   ("DistYear", SHORT); ("DistName", TEXT)].

Definition event_row (name et ct : string) (conf : Z) (alt desc : string)
    (dyear : Z) (dname : string) : feature unit :=
  Feature tt (list_to_map
    [("PatchName", VText name); ("EventType", VText et); ("ChangeType", VText ct);
     ("Confidence", VInt conf); ("AltType", VText alt); ("ChangeDesc", VText desc);
     ("DistYear", VInt dyear); ("DistName", VText dname)]).

(** A labeled patch, and a fresher label for it in the curated table. *)
Definition c8_patches : table unit :=
  Table event_schema
    [event_row "MORA_5_7_1990_2020_2001_42" "Dist" "Fire" 2 "Clearing"
       "burn scar" 2001 "Old Fire"].

Definition c8_events_tbl : table unit :=
  Table event_schema
    [event_row "MORA_5_7_1990_2020_2001_42" "Growth" "Avalanche" 3 "Mass Movement"
       "avalanche chute" 1999 "New Slide"].

(** C8, on the code: the join overwrites EventType, ChangeType, Confidence,
    AltType, DistYear and DistName of the matched patch, but ChangeDesc keeps
    its old value: [update_event_fields] names ChangeType twice and ChangeDesc
    never, and the joined ChangeDesc_1 stays behind as a field. *)
Theorem join_labels_keeps_ChangeDesc :
  ∃ t r, Events.join_labels (λ _, "") c8_patches c8_events_tbl = Some t ∧
    rows t = [r] ∧
    attrs r !! "EventType" = Some (VText "Growth") ∧
    attrs r !! "ChangeType" = Some (VText "Avalanche") ∧
    attrs r !! "Confidence" = Some (VInt 3) ∧
    attrs r !! "AltType" = Some (VText "Mass Movement") ∧
    attrs r !! "DistYear" = Some (VInt 1999) ∧
    attrs r !! "DistName" = Some (VText "New Slide") ∧
    attrs r !! "ChangeDesc" = Some (VText "burn scar") ∧
    attrs r !! "ChangeDesc_1" = Some (VText "avalanche chute") ∧
    "ChangeDesc_1" ∈ Store.ListFields t.
Proof.
  eexists _, _. split; [vm_compute; reflexivity|].
  split; [reflexivity|]. repeat split; try (vm_compute; reflexivity).
  in_list.
Qed.

(** ** Area and perimeter *)

Section ShapeFacts.
Context {G : Type}.
Variable fr : Q → string.
Import Store Shape.
Implicit Types (t : table G) (r : feature G).

Definition is_number (v : value) : bool :=
  match v with VInt _ | VReal _ => true | _ => false end.

(** The integer [round] gives for a number. *)
Definition nearest (v : value) : Z :=
  match v with VInt z => z | VReal q => round_half_even q | _ => 0%Z end.

(** What one synchronisation leaves in the stored field. *)
Definition synced (orig new : value) : value :=
  if py_eq orig new then orig else VInt (nearest new).

(** area and perim are numeric fields with a value in every row, and the
    geometry fields hold numbers. *)
Definition area_perim_ok t : bool :=
  match field_type t "area", field_type t "perim" with
  | Some ta, Some tp => is_numeric ta && is_numeric tp
  | _, _ => false
  end
  && forallb (λ r, bool_decide (is_Some (attrs r !! "area"))
                   && bool_decide (is_Some (attrs r !! "perim"))
                   && is_number (default VNull (attrs r !! "Shape_Area"))
                   && is_number (default VNull (attrs r !! "Shape_Length")))
             (rows t).

Lemma round_half_even_nearest (q : Q) :
  (Z.abs (2 * Qnum q - 2 * round_half_even q * Zpos (Qden q)) <= Zpos (Qden q))%Z.
Proof.
  unfold round_half_even. destruct q as [n d]. cbn [Qnum Qden].
  pose proof (Z.div_mod n (Zpos d) ltac:(lia)) as Hdm.
  pose proof (Z.mod_pos_bound n (Zpos d) ltac:(lia)) as Hb.
  destruct (Z.compare_spec (2 * (n mod Zpos d)) (Zpos d));
    [destruct (Z.even (n / Zpos d))|..]; nia.
Qed.

Lemma round_half_even_tie (q : Q) :
  (2 * (Qnum q mod Zpos (Qden q)) = Zpos (Qden q))%Z →
  Z.even (round_half_even q) = true.
Proof.
  unfold round_half_even. intros ->. rewrite Z.compare_refl.
  destruct (Z.even (Qnum q / Zpos (Qden q))) eqn:E; [done|].
  rewrite Z.even_add, E. done.
Qed.

Lemma update_number orig new :
  is_number new = true → update orig new = Some (synced orig new).
Proof.
  unfold update, synced. destruct (py_eq orig new); [done|].
  by destruct new.
Qed.

Lemma synced_number orig new :
  is_number new = true → is_number (synced orig new) = true.
Proof.
  unfold synced. destruct (py_eq orig new) eqn:E; [|done].
  destruct orig, new; done.
Qed.

Lemma synced_idem orig new : synced (synced orig new) new = synced orig new.
Proof.
  unfold synced. destruct (py_eq orig new) eqn:E; [by rewrite E|].
  by destruct (py_eq (VInt (nearest new)) new).
Qed.

Lemma coerce_number ty v :
  is_numeric ty = true → is_number v = true → coerce fr ty v = Some v.
Proof. intros Hty. destruct v; [done| | |done]; simpl; by rewrite Hty. Qed.

(** One field kept in step with its geometry field. *)
Lemma sync_field t f g ty ty' :
  f ≠ g → field_type t f = Some ty' → is_numeric ty' = true →
  Forall (λ r, is_Some (attrs r !! f) ∧
               is_number (default VNull (attrs r !! g)) = true) (rows t) →
  let e := λ r, o ← read f r; n ← read g r; update o n in
  let h := λ r, set_attr f (synced (default VNull (attrs r !! f))
                                   (default VNull (attrs r !! g))) r in
  CalculateField fr t (λ _, true) f ty e = Some (Table (fields t) (h <$> rows t)) ∧
  CalculateField fr (Table (fields t) (h <$> rows t)) (λ _, true) f ty e
  = Some (Table (fields t) (h <$> rows t)).
Proof.
  intros Hfg Hty Hnum Hrows e h.
  assert (∀ r, is_Some (attrs r !! f) →
               is_number (default VNull (attrs r !! g)) = true →
               (v ← e r; v' ← coerce fr ty' v; Some (set_attr f v' r)) = Some (h r))
    as Hstep.
  { intros r [o Ho] Hn. unfold e, h, read. rewrite Ho.
    destruct (attrs r !! g) as [n|] eqn:Hg; [|done]. cbn in *.
    rewrite update_number by done. cbn.
    rewrite coerce_number by (done || by apply synced_number). done. }
  rewrite Forall_forall in Hrows.
  split.
  - apply CalculateField_existing with (ty' := ty'); [done|].
    intros r Hr. apply list_elem_of_In, Hrows in Hr as [? ?]. by apply Hstep.
  - rewrite (CalculateField_existing fr _ _ f ty e ty' id); [|done|].
    + cbn [fields rows]. by rewrite list_fmap_id.
    + cbn [rows]. intros r1 Hr1.
      apply list_elem_of_fmap in Hr1 as (r & -> & Hr).
      apply list_elem_of_In, Hrows in Hr as [Hf Hn].
      rewrite Hstep.
      * unfold h, set_attr, id. cbn [attrs shape]. f_equal. f_equal.
        rewrite lookup_insert_eq, lookup_insert_ne by done. cbn.
        rewrite synced_idem. apply insert_insert_eq.
      * unfold h. cbn. rewrite lookup_insert_eq. eauto.
      * unfold h. cbn. by rewrite lookup_insert_ne.
Qed.

Lemma area_perim_ok_inv t :
  area_perim_ok t = true →
  ∃ ta tp, field_type t "area" = Some ta ∧ field_type t "perim" = Some tp ∧
    is_numeric ta = true ∧ is_numeric tp = true ∧
    Forall (λ r, is_Some (attrs r !! "area") ∧ is_Some (attrs r !! "perim") ∧
                 is_number (default VNull (attrs r !! "Shape_Area")) = true ∧
                 is_number (default VNull (attrs r !! "Shape_Length")) = true)
           (rows t).
Proof.
  unfold area_perim_ok. intros [Hty Hrows]%andb_true_iff.
  destruct (field_type t "area") as [ta|]; [|done].
  destruct (field_type t "perim") as [tp|]; [|done].
  apply andb_true_iff in Hty as [? ?]. exists ta, tp. repeat split; try done.
  rewrite forallb_forall in Hrows. apply Forall_forall. intros r Hr.
  apply Hrows in Hr. rewrite !andb_true_iff, !bool_decide_eq_true in Hr.
  naive_solver.
Qed.

(** C7. One synchronisation leaves in area (perim) the stored value when it
    equals Shape_Area (Shape_Length) and the geometry value rounded to the
    nearest integer otherwise; a second synchronisation right after it
    changes nothing. *)
Theorem update_area_perim_idempotent t :
  area_perim_ok t = true →
  ∃ t1, update_area_perim fr t = Some t1 ∧
    (∀ i r, rows t !! i = Some r →
       ∃ r1, rows t1 !! i = Some r1 ∧
         attrs r1 !! "area"
         = Some (synced (default VNull (attrs r !! "area"))
                        (default VNull (attrs r !! "Shape_Area"))) ∧
         attrs r1 !! "perim"
         = Some (synced (default VNull (attrs r !! "perim"))
                        (default VNull (attrs r !! "Shape_Length")))) ∧
    (∀ q, (Z.abs (2 * Qnum q - 2 * nearest (VReal q) * Zpos (Qden q))
           <= Zpos (Qden q))%Z) ∧
    update_area_perim fr t1 = Some t1.
Proof.
  intros (ta & tp & Hta & Htp & Hna & Hnp & Hrows)%area_perim_ok_inv.
  set (ha := λ r : feature G,
         set_attr "area" (synced (default VNull (attrs r !! "area"))
                                 (default VNull (attrs r !! "Shape_Area"))) r).
  set (hp := λ r : feature G,
         set_attr "perim" (synced (default VNull (attrs r !! "perim"))
                                  (default VNull (attrs r !! "Shape_Length"))) r).
  destruct (sync_field t "area" "Shape_Area" LONG ta) as [Ea _]; [done..| |].
  { eapply Forall_impl; [|exact Hrows]. naive_solver. }
  fold ha in Ea. set (t1 := Table (fields t) (ha <$> rows t)) in *.
  destruct (sync_field t1 "perim" "Shape_Length" LONG tp) as [Ep Ep']; [done..| |].
  { cbn [t1 rows]. apply Forall_fmap. eapply Forall_impl; [|exact Hrows].
    intros r (_ & Hp & _ & Hl). unfold compose, ha. cbn.
    by rewrite !lookup_insert_ne by done. }
  fold hp in Ep, Ep'. set (t2 := Table (fields t1) (hp <$> rows t1)) in *.
  assert (∀ r, attrs (hp (ha r)) !! "area" = attrs (ha r) !! "area") as Hpa.
  { intros r. unfold hp. cbn [set_attr attrs]. by rewrite lookup_insert_ne. }
  exists t2. split; [|split; [|split]].
  - unfold update_area_perim. rewrite Ea. cbn [mbind option_bind]. exact Ep.
  - intros i r Hi. cbn [t2 t1 rows]. rewrite !list_lookup_fmap, Hi. cbn.
    eexists. split; [done|]. unfold hp, ha, set_attr. cbn [attrs shape]. split.
    + by rewrite lookup_insert_ne, lookup_insert_eq.
    + by rewrite lookup_insert_eq, !lookup_insert_ne.
  - intros q. apply round_half_even_nearest.
  - unfold update_area_perim.
    destruct (sync_field t2 "area" "Shape_Area" LONG ta) as [Ea2 _]; [done..| |].
    { cbn [t2 t1 rows]. rewrite <- list_fmap_compose. apply Forall_fmap.
      eapply Forall_impl; [|exact Hrows].
      intros r (Ha & _ & Hs & _). unfold compose. rewrite Hpa. unfold hp, ha. cbn.
      rewrite lookup_insert_eq, !lookup_insert_ne by done. eauto. }
    fold ha in Ea2.
    assert (∀ r, ha (hp (ha r)) = hp (ha r)) as Hfix_r.
    { intros [g m]. unfold ha, hp, set_attr. cbn [attrs shape]. f_equal.
      repeat first [rewrite lookup_insert_eq | rewrite lookup_insert_ne by done].
      cbn. rewrite synced_idem.
      rewrite (insert_insert_ne _ "area" "perim") by done.
      by rewrite insert_insert_eq. }
    assert (ha <$> rows t2 = rows t2) as Hfix.
    { cbn [t2 t1 rows]. rewrite <- !list_fmap_compose. apply list_fmap_ext.
      intros _ r _. apply Hfix_r. }
    rewrite Ea2, Hfix. cbn [mbind option_bind]. exact Ep'.
Qed.

End ShapeFacts.

(** Two patches: one whose area was left behind by a clip (90.5 rounds to
    90, the even neighbour), one already in step. *)
Definition c7_patches : table unit :=
  Table [("area", LONG); ("perim", LONG); ("Shape_Area", DOUBLE);
         ("Shape_Length", DOUBLE)]
    [Feature tt (list_to_map [("area", VInt 100); ("perim", VInt 40);
                              ("Shape_Area", VReal (181 # 2));
                              ("Shape_Length", VReal (77 # 2))]);
     Feature tt (list_to_map [("area", VInt 900); ("perim", VInt 120);
                              ("Shape_Area", VReal 900);
                              ("Shape_Length", VReal 120)])].

Lemma update_area_perim_idempotent_witness :
  ∃ t1, Shape.update_area_perim (λ _, "") c7_patches = Some t1 ∧
    (∀ i r, rows c7_patches !! i = Some r →
       ∃ r1, rows t1 !! i = Some r1 ∧
         attrs r1 !! "area"
         = Some (synced (default VNull (attrs r !! "area"))
                        (default VNull (attrs r !! "Shape_Area"))) ∧
         attrs r1 !! "perim"
         = Some (synced (default VNull (attrs r !! "perim"))
                        (default VNull (attrs r !! "Shape_Length")))) ∧
    (∀ q, (Z.abs (2 * Qnum q - 2 * nearest (VReal q) * Zpos (Qden q))
           <= Zpos (Qden q))%Z) ∧
    Shape.update_area_perim (λ _, "") t1 = Some t1.
Proof. apply (update_area_perim_idempotent (λ _, "") c7_patches). reflexivity. Defined.

Example update_area_perim_rounds :
  (λ t, (λ r, (attrs r !! "area", attrs r !! "perim")) <$> rows t)
    <$> Shape.update_area_perim (λ _, "") c7_patches
  = Some [(Some (VInt 90), Some (VInt 38)); (Some (VInt 900), Some (VInt 120))].
Proof. vm_compute. reflexivity. Qed.

(** ** Park and PatchName *)

Section NamingFacts.
Context {G : Type}.
Variable fr : Q → string.
Import Store Naming.
Implicit Types (t : table G) (r : feature G).

Definition text_or_new t (f : string) : bool :=
  match field_type t f with None | Some TEXT => true | _ => false end.

Definition named_row r : bool :=
  match attrs r !! "index", attrs r !! "yod", attrs r !! "annualID" with
  | Some (VText _), Some (VInt _), Some (VInt _) => true
  | _, _, _ => false
  end.

(** The merged feature class at the end of a run: at least one patch, every
    patch with a text index and integer yod and annualID, and Park and
    PatchName not there yet (or text fields). *)
Definition naming_ok t : bool :=
  text_or_new t "Park" && text_or_new t "PatchName"
  && bool_decide (rows t ≠ []) && forallb named_row (rows t).

(** [park_mmu_index_start_end_yod_annualID] *)
Definition patch_name (park : string) (mmu : Z) (ix : string)
    (start_yr end_yr yod annualID : Z) : string :=
  park +:+ "_" +:+ pretty mmu +:+ "_" +:+ ix +:+ "_" +:+ pretty start_yr +:+ "_"
  +:+ pretty end_yr +:+ "_" +:+ pretty yod +:+ "_" +:+ pretty annualID.

Lemma foldl_min_spec (y : Z) (l : list Z) :
  foldl Z.min y l ∈ y :: l ∧ ∀ x, x ∈ y :: l → (foldl Z.min y l <= x)%Z.
Proof.
  revert y. induction l as [|z l IH]; intros y; simpl.
  - split; [left|]. intros x ->%list_elem_of_singleton. lia.
  - destruct (IH (Z.min y z)) as [Hin Hle]. split.
    + apply elem_of_cons in Hin as [->|Hin]; [|by do 2 right].
      destruct (Z.min_spec y z) as [[_ ->]|[_ ->]]; [left | right; left].
    + intros x Hx. assert (Z.min y z <= x ∨ x ∈ l)%Z as [H|H].
      { apply elem_of_cons in Hx as [->|Hx]; [left; lia|].
        apply elem_of_cons in Hx as [->|Hx]; [left; lia | by right]. }
      * etrans; [apply Hle; left | done].
      * apply Hle. by right.
Qed.

Lemma foldl_max_spec (y : Z) (l : list Z) :
  foldl Z.max y l ∈ y :: l ∧ ∀ x, x ∈ y :: l → (x <= foldl Z.max y l)%Z.
Proof.
  revert y. induction l as [|z l IH]; intros y; simpl.
  - split; [left|]. intros x ->%list_elem_of_singleton. lia.
  - destruct (IH (Z.max y z)) as [Hin Hle]. split.
    + apply elem_of_cons in Hin as [->|Hin]; [|by do 2 right].
      destruct (Z.max_spec y z) as [[_ ->]|[_ ->]]; [right; left | left].
    + intros x Hx. assert (x <= Z.max y z ∨ x ∈ l)%Z as [H|H].
      { apply elem_of_cons in Hx as [->|Hx]; [left; lia|].
        apply elem_of_cons in Hx as [->|Hx]; [left; lia | by right]. }
      * etrans; [done | apply Hle; left].
      * apply Hle. by right.
Qed.

Lemma text_or_new_AddField t f :
  text_or_new t f = true → field_type (AddField t f TEXT) f = Some TEXT.
Proof.
  unfold text_or_new. rewrite field_type_AddField_eq.
  by destruct (field_type t f) as [[]|].
Qed.

Lemma named_row_inv r :
  named_row r = true →
  ∃ ix yod aid, attrs r !! "index" = Some (VText ix) ∧
                attrs r !! "yod" = Some (VInt yod) ∧
                attrs r !! "annualID" = Some (VInt aid).
Proof.
  unfold named_row.
  destruct (attrs r !! "index") as [[]|]; try done.
  destruct (attrs r !! "yod") as [[]|]; try done.
  destruct (attrs r !! "annualID") as [[]|]; try done.
  intros _. by eexists _, _, _.
Qed.

Lemma add_park_patch_name_spec t park mmu start_yr end_yr :
  text_or_new t "Park" = true → text_or_new t "PatchName" = true →
  forallb named_row (rows t) = true →
  ∃ t', add_park_patch_name fr t park mmu start_yr end_yr = Some t' ∧
    ∀ i r, rows t !! i = Some r →
      ∃ r' ix yod aid, rows t' !! i = Some r' ∧
        attrs r !! "index" = Some (VText ix) ∧
        attrs r !! "yod" = Some (VInt yod) ∧
        attrs r !! "annualID" = Some (VInt aid) ∧
        attrs r' !! "Park" = Some (VText park) ∧
        attrs r' !! "PatchName"
        = Some (VText (patch_name park mmu ix start_yr end_yr yod aid)).
Proof.
  intros Hpark Hname Hrows. unfold add_park_patch_name.
  set (t1 := AddField t "Park" TEXT).
  rewrite (calc_existing fr t1 _ "Park" TEXT TEXT _ (VText park));
    [|by apply text_or_new_AddField|done].
  cbn [mbind option_bind].
  set (t2 := Table (fields t1) _).
  assert (field_type (AddField t2 "PatchName" TEXT) "PatchName" = Some TEXT) as Hty.
  { apply text_or_new_AddField. unfold text_or_new, t2, t1, field_type.
    cbn [fields]. fold (field_type (AddField t "Park" TEXT) "PatchName").
    by rewrite field_type_AddField_ne. }
  set (t3 := AddField t2 "PatchName" TEXT) in *.
  set (e := patch_name_expr fr park mmu start_yr end_yr).
  set (h := λ r, set_attr "PatchName" (default VNull (e r)) r).
  assert (∀ i r, rows t !! i = Some r →
            ∃ r3 ix yod aid, rows t3 !! i = Some r3 ∧
              attrs r !! "index" = Some (VText ix) ∧
              attrs r !! "yod" = Some (VInt yod) ∧
              attrs r !! "annualID" = Some (VInt aid) ∧
              attrs r3 !! "Park" = Some (VText park) ∧
              e r3 = Some (VText (patch_name park mmu ix start_yr end_yr yod aid)))
    as Hr3.
  { intros i r Hi.
    assert (named_row r = true) as (ix & yod & aid & Hix & Hyod & Haid)%named_row_inv.
    { rewrite forallb_forall in Hrows. apply Hrows, list_elem_of_In.
      by eapply list_elem_of_lookup_2. }
    unfold t3. rewrite rows_AddField_fmap. unfold t2. cbn [rows].
    unfold t1. rewrite rows_AddField_fmap.
    rewrite !list_lookup_fmap, Hi. cbn [fmap option_fmap option_map].
    eexists _, ix, yod, aid. split; [done|]. do 3 (split; [done|]).
    assert (∀ (b : bool) f r0 k, k ≠ f →
              attrs (if b then r0 else set_attr f VNull r0) !! k = attrs r0 !! k)
      as Hif.
    { intros [] f r0 k Hk; [done|]. cbn. by rewrite lookup_insert_ne. }
    split.
    - rewrite Hif by done. cbn. apply lookup_insert_eq.
    - unfold e, patch_name_expr, read.
      rewrite !Hif by done. cbn [set_attr attrs].
      rewrite !lookup_insert_ne by done. rewrite !Hif by done.
      rewrite Hix, Hyod, Haid. done. }
  rewrite (CalculateField_existing fr t3 _ "PatchName" TEXT e TEXT h).
  - eexists. split; [done|]. cbn [rows]. intros i r Hi.
    destruct (Hr3 i r Hi) as (r3 & ix & yod & aid & Hi3 & ? & ? & ? & Hp & He).
    rewrite list_lookup_fmap, Hi3. cbn [fmap option_fmap option_map].
    eexists _, ix, yod, aid. split; [done|]. do 3 (split; [done|]).
    unfold h. cbn [set_attr attrs]. rewrite He. split.
    + by rewrite lookup_insert_ne.
    + apply lookup_insert_eq.
  - exact Hty.
  - intros r3 Hr. apply list_elem_of_lookup in Hr as [i Hi3].
    assert (is_Some (rows t !! i)) as [r Hi].
    { apply lookup_lt_is_Some. apply lookup_lt_Some in Hi3.
      unfold t3 in Hi3. rewrite rows_AddField_fmap in Hi3. unfold t2 in Hi3.
      cbn [rows] in Hi3. unfold t1 in Hi3. rewrite rows_AddField_fmap in Hi3.
      by rewrite !length_fmap in Hi3. }
    destruct (Hr3 i r Hi) as (r3' & ix & yod & aid & Hi3' & _ & _ & _ & _ & He).
    assert (r3' = r3) as -> by congruence.
    unfold h. rewrite He. done.
Qed.

Lemma year_of_yod r y : year_of r = Some y ↔ attrs r !! "yod" = Some (VInt y).
Proof.
  unfold year_of, read. destruct (attrs r !! "yod") as [[]|]; naive_solver.
Qed.

(** C2. When the run is finalized, every patch of the merged feature class
    gets PatchName = park_mmu_index_startYear_endYear_yod_annualID, where
    startYear and endYear are the least and the greatest yod of the whole
    merged feature class, read once after all years are merged. *)
Theorem patch_name_finalized t (park : string) (mmu : Z) :
  naming_ok t = true →
  ∃ t' start_yr end_yr, finalize fr t park mmu = Some t' ∧
    (∃ r, r ∈ rows t ∧ attrs r !! "yod" = Some (VInt start_yr)) ∧
    (∃ r, r ∈ rows t ∧ attrs r !! "yod" = Some (VInt end_yr)) ∧
    (∀ r y, r ∈ rows t → attrs r !! "yod" = Some (VInt y) →
            (start_yr <= y <= end_yr)%Z) ∧
    ∀ i r, rows t !! i = Some r →
      ∃ r' ix yod aid, rows t' !! i = Some r' ∧
        attrs r !! "index" = Some (VText ix) ∧
        attrs r !! "yod" = Some (VInt yod) ∧
        attrs r !! "annualID" = Some (VInt aid) ∧
        attrs r' !! "Park" = Some (VText park) ∧
        attrs r' !! "PatchName"
        = Some (VText (patch_name park mmu ix start_yr end_yr yod aid)).
Proof.
  unfold naming_ok. rewrite !andb_true_iff, bool_decide_eq_true.
  intros [[[Hpark Hname] Hne] Hrows].
  set (g := λ r, default 0%Z (year_of r)).
  assert (∀ r, r ∈ rows t → year_of r = Some (g r)) as Hg.
  { intros r Hr. rewrite forallb_forall in Hrows.
    apply list_elem_of_In, Hrows, named_row_inv in Hr as (? & y & ? & _ & Hy & _).
    unfold g. apply year_of_yod in Hy. by rewrite Hy. }
  assert (mapM year_of (rows t) = Some (g <$> rows t)) as Hyrs.
  { apply mapM_Some, Forall2_fmap_r, Forall_Forall2_diag, Forall_forall.
    intros r Hr. apply Hg. by apply list_elem_of_In. }
  unfold finalize. rewrite Hyrs. cbn [mbind option_bind].
  destruct (rows t) as [|r0 rs] eqn:Erows; [done|]. cbn [fmap list_fmap py_min py_max].
  cbn [mbind option_bind].
  destruct (foldl_min_spec (g r0) (g <$> rs)) as [Hmin_in Hmin].
  destruct (foldl_max_spec (g r0) (g <$> rs)) as [Hmax_in Hmax].
  set (start_yr := foldl Z.min (g r0) (g <$> rs)) in *.
  set (end_yr := foldl Z.max (g r0) (g <$> rs)) in *.
  destruct (add_park_patch_name_spec t park mmu start_yr end_yr)
    as (t' & Ht' & Hpatches); [done..|by rewrite Erows|].
  exists t', start_yr, end_yr. split; [done|].
  change (g r0 :: (g <$> rs)) with (g <$> r0 :: rs) in *.
  split; [|split; [|split]].
  - apply list_elem_of_fmap in Hmin_in as (r & E & Hr). exists r.
    split; [done|]. apply year_of_yod. rewrite E. by apply Hg.
  - apply list_elem_of_fmap in Hmax_in as (r & E & Hr). exists r.
    split; [done|]. apply year_of_yod. rewrite E. by apply Hg.
  - intros r y Hr Hy. apply year_of_yod in Hy.
    assert (g r = y) as <- by (rewrite (Hg r Hr) in Hy; congruence).
    split; [apply Hmin | apply Hmax]; by apply list_elem_of_fmap_2.
  - intros i r Hi. apply Hpatches. by rewrite Erows.
Qed.

End NamingFacts.

(** A merged feature class spanning 1990-2020; the second patch has
    within-year index 7, yod 2001 and annualID 42. *)
Definition c2_changeDB : table unit :=
  Table [("index", TEXT); ("yod", LONG); ("annualID", LONG)]
    [Feature tt (list_to_map [("index", VText "3"); ("yod", VInt 1990);
                              ("annualID", VInt 11)]);
     Feature tt (list_to_map [("index", VText "7"); ("yod", VInt 2001);
                              ("annualID", VInt 42)]);
     Feature tt (list_to_map [("index", VText "1"); ("yod", VInt 2020);
                              ("annualID", VInt 5)])].

Lemma patch_name_finalized_witness :
  ∃ t' start_yr end_yr,
    Naming.finalize (λ _, "") c2_changeDB "PARK" 5 = Some t' ∧
    (∃ r, r ∈ rows c2_changeDB ∧ attrs r !! "yod" = Some (VInt start_yr)) ∧
    (∃ r, r ∈ rows c2_changeDB ∧ attrs r !! "yod" = Some (VInt end_yr)) ∧
    (∀ r y, r ∈ rows c2_changeDB → attrs r !! "yod" = Some (VInt y) →
            (start_yr <= y <= end_yr)%Z) ∧
    ∀ i r, rows c2_changeDB !! i = Some r →
      ∃ r' ix yod aid, rows t' !! i = Some r' ∧
        attrs r !! "index" = Some (VText ix) ∧
        attrs r !! "yod" = Some (VInt yod) ∧
        attrs r !! "annualID" = Some (VInt aid) ∧
        attrs r' !! "Park" = Some (VText "PARK") ∧
        attrs r' !! "PatchName"
        = Some (VText (patch_name "PARK" 5 ix start_yr end_yr yod aid)).
Proof.
  apply (patch_name_finalized (λ _, "") c2_changeDB "PARK" 5). reflexivity.
Defined.

Example patch_name_scenario :
  (λ t, (λ r, attrs r !! "PatchName") <$> rows t)
    <$> Naming.finalize (λ _, "") c2_changeDB "PARK" 5
  = Some [Some (VText "PARK_5_3_1990_2020_1990_11");
          Some (VText "PARK_5_7_1990_2020_2001_42");
          Some (VText "PARK_5_1_1990_2020_2020_5")].
Proof. vm_compute. reflexivity. Qed.

(** ** Export validation *)

Section WriterFacts.

Lemma W_bind_eq {A B : Type} (m : W A) (k : A → W B) :
  m ≫= k = ((m.1 ++ (k m.2).1)%list, (k m.2).2).
Proof.
  destruct m as [l a]. unfold mbind, W_bind. cbn [fst snd].
  by destruct (k a).
Qed.

Lemma W_ret_eq {A : Type} (a : A) : (mret a : W A) = ([], a).
Proof. done. Qed.

Lemma W_try_ok {A B : Type} (m : W A) (k : A → W (result B)) :
  W_try (ok m) k = ((m.1 ++ (k m.2).1)%list, (k m.2).2).
Proof. done. Qed.

Lemma W_try_eq {A B : Type} (m : W (result A)) (k : A → W (result B)) :
  W_try m k = match m.2 with
              | Raised e => (m.1, Raised e)
              | Ok a => ((m.1 ++ (k a).1)%list, (k a).2)
              end.
Proof. done. Qed.

(** An effect that writes an artifact. *)
Definition is_write (e : effect) : bool :=
  match e with Log _ => false | _ => true end.

Definition no_write (l : list effect) : Prop := ∀ e, e ∈ l → is_write e = false.

Lemma no_write_nil : no_write [].
Proof. intros e H. by apply elem_of_nil in H. Qed.

Lemma no_write_app l1 l2 : no_write l1 → no_write l2 → no_write (l1 ++ l2).
Proof. intros H1 H2 e [?|?]%elem_of_app; auto. Qed.

Lemma no_write_cons m l : no_write l → no_write (Log m :: l).
Proof. intros H e [->|?]%elem_of_cons; auto. Qed.

Lemma no_write_fmap {A : Type} (f : A → effect) (l : list A) :
  (∀ a, is_write (f a) = false) → no_write (f <$> l).
Proof. intros H e (a & -> & _)%list_elem_of_fmap. apply H. Qed.

(** Two rows of a list that satisfy [P] make the filter longer than one. *)
Lemma filter_two {A : Type} (P : A → Prop) `{∀ x, Decision (P x)}
    (l : list A) (i j : nat) (a b : A) :
  i ≠ j → l !! i = Some a → l !! j = Some b → P a → P b →
  (1 < length (filter P l))%nat.
Proof.
  revert i j. induction l as [|x l IH]; intros i j Hij Hi Hj Ha Hb; [done|].
  rewrite filter_cons. destruct i as [|i], j as [|j]; simpl in *; try done.
  - injection Hi as ->. rewrite decide_True by done. simpl.
    apply list_elem_of_lookup_2 in Hj.
    assert (b ∈ filter P l) as Hin by (by apply list_elem_of_filter).
    destruct (filter P l); [by apply elem_of_nil in Hin | simpl; lia].
  - injection Hj as ->. rewrite decide_True by done. simpl.
    apply list_elem_of_lookup_2 in Hi.
    assert (a ∈ filter P l) as Hin by (by apply list_elem_of_filter).
    destruct (filter P l); [by apply elem_of_nil in Hin | simpl; lia].
  - assert (1 < length (filter P l))%nat by (eapply (IH i j); eauto).
    destruct (decide (P x)); simpl; lia.
Qed.

(** Two rows that satisfy [P] are both in the filter, at different
    positions. *)
Lemma filter_two_lookup {A : Type} (P : A → Prop) `{∀ x, Decision (P x)}
    (l : list A) (i j : nat) (a b : A) :
  i ≠ j → l !! i = Some a → l !! j = Some b → P a → P b →
  ∃ i' j', i' ≠ j' ∧ filter P l !! i' = Some a ∧ filter P l !! j' = Some b.
Proof.
  revert i j. induction l as [|x l IH]; intros i j Hij Hi Hj Ha Hb; [done|].
  rewrite filter_cons. destruct i as [|i], j as [|j]; simpl in *; try done.
  - injection Hi as ->. rewrite decide_True by done.
    assert (b ∈ filter P l) as [j' Hj']%list_elem_of_lookup_1.
    { apply list_elem_of_filter. split; [done|]. by eapply list_elem_of_lookup_2. }
    by exists 0%nat, (S j').
  - injection Hj as ->. rewrite decide_True by done.
    assert (a ∈ filter P l) as [i' Hi']%list_elem_of_lookup_1.
    { apply list_elem_of_filter. split; [done|]. by eapply list_elem_of_lookup_2. }
    by exists (S i'), 0%nat.
  - destruct (IH i j) as (i' & j' & ? & ? & ?); [lia|done..|].
    destruct (decide (P x));
      [exists (S i'), (S j') | exists i', j']; split_and!; try done; lia.
Qed.

(** The element at a position inside a list. *)
Lemma lookup_default {A : Type} (l : list A) (i : nat) (d : A) :
  (i < length l)%nat → l !! i = Some (default d (l !! i)).
Proof. intros [x Hx]%lookup_lt_is_Some_2. by rewrite Hx. Qed.

End WriterFacts.

Section ExportFacts.
Context {G : Type}.
Variable change_types : list string.
Variable shp_folder_of : string → string → string.
Import Store ExpPatches ExpTools.
Implicit Types (df : frame) (r : gmap string cellv).

Definition change_error : effect :=
  Log (AddError
    [Lit "Change types in feature class do not match change types in lookup.ChangeType."]).

Definition duplicate_error : effect :=
  Log (AddError [Lit "There are duplicate patch names in the dataset."]).

Definition confidence_error : effect :=
  Log (AddError
    [Lit "Confidence value does not pass validation rule of Confidence >= 1 and <=3."]).

Definition alttype_error : effect :=
  Log (AddError [Lit "There are Events with a Confidence of 1 or 2 with no AltType:"]).

Definition missing_error : effect :=
  Log (AddError [Lit "There are fields with missing values."]).

(** What [check_mismatch] returns for a row whose checked value is not
    [pd.NA]. *)
Definition mismatch_pair (valid_values : list string) (col ret : string) r
    : cellv * cellv :=
  if negb (in_values valid_values (cell r col)) then (cell r col, cell r ret)
  else (CNone, CNone).

(** Some row holds [pd.NA] in the column. *)
Definition has_NA (col : string) (rs : list (gmap string cellv)) : bool :=
  existsb (λ r, bool_decide (cell r col = CNA)) rs.

Lemma has_NA_elem col rs :
  has_NA col rs = true ↔ ∃ r, r ∈ rs ∧ cell r col = CNA.
Proof.
  unfold has_NA. rewrite existsb_exists. split.
  - intros (r & Hin & Hr). exists r. split; [by apply list_elem_of_In|].
    by apply bool_decide_eq_true in Hr.
  - intros (r & Hin & Hr). exists r. split; [by apply list_elem_of_In|].
    by apply bool_decide_eq_true.
Qed.

Lemma apply_rows_check_mismatch valid_values col ret rs :
  valid_values ≠ [] →
  apply_rows (λ r, check_mismatch r valid_values col ret) rs
  = if has_NA col rs then Raised TypeError
    else Ok (mismatch_pair valid_values col ret <$> rs).
Proof.
  intros Hne. induction rs as [|r rs IH]; [done|].
  cbn [apply_rows has_NA existsb fmap list_fmap]. rewrite IH.
  fold (has_NA col rs). unfold check_mismatch, mismatch_pair.
  destruct valid_values as [|v0 vl]; [done|].
  destruct (cell r col) eqn:E; cbn [bool_decide decide_rel orb];
    try (rewrite bool_decide_eq_false_2 by done; cbn [orb]);
    try (rewrite bool_decide_eq_true_2 by done; cbn [orb]); try done;
    destruct (negb _); by destruct (has_NA col rs).
Qed.

(** The mismatches [check_change_types] collects. *)
Definition mismatches_of df : list (cellv * cellv) :=
  let change_list := (change_types ++ [" "])%list in
  (filter (λ ct, ct.1 ≠ CNone)
     (mismatch_pair change_list "ChangeType" "PatchName" <$> data df)
   ++ filter (λ at_, at_.1 ≠ CNone)
     (mismatch_pair change_list "AltType" "PatchName" <$> data df))%list.

(** The change-type check meets a [pd.NA]: some ChangeType is not null, and
    some ChangeType or AltType is [pd.NA]. *)
Definition meets_NA df : bool :=
  negb (forallb (λ r, pd_isna (cell r "ChangeType")) (data df))
  && (has_NA "ChangeType" (data df) || has_NA "AltType" (data df)).

Lemma check_change_types_eq df :
  check_change_types change_types df
  = if forallb (λ r, pd_isna (cell r "ChangeType")) (data df) then ([], Ok false)
    else if has_NA "ChangeType" (data df) || has_NA "AltType" (data df)
         then ([], Raised TypeError)
    else if bool_decide (0 < length (mismatches_of df))%nat
         then (change_error :: (mismatch_message <$> mismatches_of df), Ok true)
         else ([Log (AddMessage [Lit "No change type mismatches found."])], Ok false).
Proof.
  unfold check_change_types. destruct (forallb _ _); [done|].
  rewrite !apply_rows_check_mismatch by (by destruct change_types).
  destruct (has_NA "ChangeType" _); [done|]. destruct (has_NA "AltType" _); [done|].
  cbn [orb]. fold (mismatches_of df). destruct (bool_decide _); [|done].
  unfold ok. rewrite !W_bind_eq. cbn. by rewrite app_nil_r.
Qed.

(** When it meets a [pd.NA] the check raises TypeError, having said
    nothing; otherwise it returns a verdict. *)
Lemma check_change_types_raises df :
  meets_NA df = true → check_change_types change_types df = ([], Raised TypeError).
Proof.
  unfold meets_NA. rewrite check_change_types_eq.
  destruct (forallb _ _); [done|]. cbn [negb andb]. by intros ->.
Qed.

Lemma check_change_types_returns df :
  meets_NA df = false → ∃ b, (check_change_types change_types df).2 = Ok b.
Proof.
  unfold meets_NA. rewrite check_change_types_eq.
  destruct (forallb _ _); [by exists false|]. cbn [negb andb]. intros ->.
  destruct (bool_decide _); by eexists.
Qed.

Lemma check_change_types_Ok df b :
  (check_change_types change_types df).2 = Ok b → meets_NA df = false.
Proof.
  destruct (meets_NA df) eqn:E; [|done].
  by rewrite (check_change_types_raises df E).
Qed.

Lemma check_change_types_Raised df e :
  (check_change_types change_types df).2 = Raised e →
  e = TypeError ∧ meets_NA df = true ∧ (check_change_types change_types df).1 = [].
Proof.
  destruct (meets_NA df) eqn:E.
  - rewrite (check_change_types_raises df E). cbn. by intros [= <-].
  - destruct (check_change_types_returns df E) as [b ->]. done.
Qed.

Lemma check_change_types_no_write df :
  no_write (check_change_types change_types df).1.
Proof.
  rewrite check_change_types_eq. destruct (forallb _ _); [apply no_write_nil|].
  destruct (_ || _); [apply no_write_nil|].
  destruct (bool_decide _); cbn [fst].
  - apply no_write_cons, no_write_fmap. done.
  - apply no_write_cons, no_write_nil.
Qed.

(** A ChangeType outside the vocabulary is reported, with its PatchName,
    when the check returns. *)
Lemma check_change_types_mismatch df r c :
  meets_NA df = false →
  r ∈ data df → cell r "ChangeType" = CText c →
  c ∉ (change_types ++ [" "])%list →
  (check_change_types change_types df).2 = Ok true ∧
  change_error ∈ (check_change_types change_types df).1 ∧
  mismatch_message (CText c, cell r "PatchName")
    ∈ (check_change_types change_types df).1.
Proof.
  intros HNA Hr Hc Hout. unfold meets_NA in HNA. rewrite check_change_types_eq.
  assert (forallb (λ r, pd_isna (cell r "ChangeType")) (data df) = false) as Hall.
  { apply not_true_is_false. rewrite forallb_forall. intros H.
    apply list_elem_of_In, H in Hr. by rewrite Hc in Hr. }
  rewrite Hall in HNA |- *. cbn [negb andb] in HNA. rewrite HNA.
  assert ((CText c, cell r "PatchName") ∈ mismatches_of df) as Hin.
  { unfold mismatches_of. apply elem_of_app. left.
    apply list_elem_of_filter. split; [done|].
    apply list_elem_of_fmap. exists r. split; [|done].
    unfold mismatch_pair, in_values. rewrite Hc.
    by rewrite bool_decide_eq_false_2. }
  rewrite bool_decide_eq_true_2.
  - cbn [fst snd]. split; [done|]. split; [left|right].
    by apply list_elem_of_fmap_2.
  - destruct (mismatches_of df); [by apply elem_of_nil in Hin | simpl; lia].
Qed.

(** A ChangeType that is a text makes the check look at every row. *)
Lemma meets_NA_text df r c :
  r ∈ data df → cell r "ChangeType" = CText c →
  meets_NA df = has_NA "ChangeType" (data df) || has_NA "AltType" (data df).
Proof.
  intros Hr Hc. unfold meets_NA.
  assert (forallb (λ r, pd_isna (cell r "ChangeType")) (data df) = false) as ->; [|done].
  apply not_true_is_false. rewrite forallb_forall. intros H.
  apply list_elem_of_In, H in Hr. by rewrite Hc in Hr.
Qed.

Definition duplicates_of df : list (gmap string cellv) :=
  filter (λ r, duplicated (data df) r = true) (data df).

Lemma check_duplicate_patch_names_eq df :
  check_duplicate_patch_names df
  = if bool_decide (0 < length ((λ r, cell r "PatchName") <$> duplicates_of df))%nat
    then (duplicate_error
            :: (patch_message <$> ((λ r, cell r "PatchName") <$> duplicates_of df)),
          true)
    else ([Log (AddMessage
             [Lit "There are no duplicate patch names in the dataset."])], false).
Proof.
  unfold check_duplicate_patch_names. fold (duplicates_of df).
  destruct (bool_decide _); [|done].
  rewrite !W_bind_eq. cbn. by rewrite app_nil_r.
Qed.

Lemma check_duplicate_patch_names_no_write df :
  no_write (check_duplicate_patch_names df).1.
Proof.
  rewrite check_duplicate_patch_names_eq. destruct (bool_decide _); cbn [fst].
  - apply no_write_cons, no_write_fmap. done.
  - apply no_write_cons, no_write_nil.
Qed.

(** Two rows sharing a PatchName are both reported. *)
Lemma check_duplicate_patch_names_found df i j ri rj :
  i ≠ j → data df !! i = Some ri → data df !! j = Some rj →
  cell ri "PatchName" = cell rj "PatchName" →
  (check_duplicate_patch_names df).2 = true ∧
  duplicate_error ∈ (check_duplicate_patch_names df).1 ∧
  patch_message (cell ri "PatchName") ∈ (check_duplicate_patch_names df).1 ∧
  (1 < length (filter (λ e, e = patch_message (cell ri "PatchName"))
                      (check_duplicate_patch_names df).1))%nat.
Proof.
  intros Hij Hi Hj Hname. rewrite check_duplicate_patch_names_eq.
  assert (∀ r, cell r "PatchName" = cell ri "PatchName" → r ∈ data df →
               r ∈ duplicates_of df) as Hdup.
  { intros r Hr Hin. apply list_elem_of_filter. split; [|done].
    unfold duplicated. apply bool_decide_eq_true.
    apply (filter_two _ _ i j ri rj); try done; congruence. }
  assert (ri ∈ duplicates_of df) as Hdi
    by (apply Hdup; [done | by eapply list_elem_of_lookup_2]).
  assert (rj ∈ duplicates_of df) as Hdj
    by (apply Hdup; [done | by eapply list_elem_of_lookup_2]).
  assert (∃ i' j', i' ≠ j' ∧ duplicates_of df !! i' = Some ri ∧
                   duplicates_of df !! j' = Some rj) as (i' & j' & Hij' & Hi' & Hj').
  { unfold duplicates_of in *.
    assert (∀ r, r ∈ data df → cell r "PatchName" = cell ri "PatchName" →
                 duplicated (data df) r = true) as Hd.
    { intros r Hin Hr. apply bool_decide_eq_true.
      apply (filter_two _ _ i j ri rj); try done; congruence. }
    clear Hdup Hdi Hdj. revert i j Hij Hi Hj Hd.
    generalize (duplicated (data df)). intros d.
    induction (data df) as [|x l IH]; intros i j Hij Hi Hj Hd; [done|].
    rewrite filter_cons.
    destruct i as [|i], j as [|j]; simpl in *; try done.
    - injection Hi as ->. rewrite decide_True by (apply Hd; [left|done]).
      assert (rj ∈ filter (λ r, d r = true) l) as [j' Hj']%list_elem_of_lookup_1.
      { apply list_elem_of_filter. split.
        - apply Hd; [right; by eapply list_elem_of_lookup_2 | done].
        - by eapply list_elem_of_lookup_2. }
      by exists 0%nat, (S j').
    - injection Hj as ->. rewrite decide_True by (apply Hd; [left|done]).
      assert (ri ∈ filter (λ r, d r = true) l) as [i' Hi']%list_elem_of_lookup_1.
      { apply list_elem_of_filter. split.
        - apply Hd; [right; by eapply list_elem_of_lookup_2 | done].
        - by eapply list_elem_of_lookup_2. }
      by exists (S i'), 0%nat.
    - destruct (IH i j) as (i' & j' & ? & ? & ?); [lia|done|done| |].
      { intros r Hr. apply Hd. by right. }
      destruct (decide (d x = true));
        [exists (S i'), (S j') | exists i', j']; repeat split; try done; lia. }
  rewrite bool_decide_eq_true_2.
  - cbn [fst snd]. split; [done|]. split; [left|]. split.
    + right. apply (list_elem_of_fmap_2 patch_message).
      by apply (list_elem_of_fmap_2 (λ r, cell r "PatchName") _ ri).
    + rewrite filter_cons.
      assert (1 < length (filter (λ e, e = patch_message (cell ri "PatchName"))
                 (patch_message <$> ((λ r, cell r "PatchName") <$> duplicates_of df))))%nat.
      { apply (filter_two _ _ i' j' (patch_message (cell ri "PatchName"))
                 (patch_message (cell ri "PatchName"))); try done.
        - by rewrite !list_lookup_fmap, Hi'.
        - by rewrite !list_lookup_fmap, Hj', Hname. }
      destruct (decide _); simpl; lia.
  - rewrite length_fmap.
    destruct (duplicates_of df); [by apply elem_of_nil in Hdi | simpl; lia].
Qed.

(** The rows [check_confidence] looks at, and its two selections. *)
Definition events_of df : list (gmap string cellv) :=
  filter (λ r, negb (cell_eq (cell r "EventType") (CText " "))
               && negb (pd_isna (cell r "EventType")) = true) (data df).

Definition con_ck_of df : list (gmap string cellv) :=
  filter (λ r, lt_int (cell r "Confidence") 1
               || gt_int (cell r "Confidence") 3 = true) (events_of df).

Definition conf_alttype_patches_of df : list cellv :=
  (λ r, cell r "PatchName")
    <$> filter (λ r, pd_isna (cell r "AltType") = true)
          (filter (λ r, lt_int (cell r "Confidence") 3
                        && negb (cell_eq (cell r "EventType") (CText "Mask")) = true)
                  (events_of df)).

Definition range_log df : list effect :=
  if bool_decide (0 < length (con_ck_of df))%nat
  then [confidence_error;
        Log (AddMessage [Lit "There are ";
                         Val (VInt (Z.of_nat (length (con_ck_of df))));
                         Lit " patches with invalid confidence values."])]
  else [Log (AddMessage
          [Lit "Confidence values for Events pass the data table validation rule."])].

Lemma check_confidence_eq df only_values :
  check_confidence df only_values
  = if bool_decide (length (events_of df) = 0%nat) then ([], false)
    else
      let range := bool_decide (0 < length (con_ck_of df))%nat in
      if negb only_values then
        if bool_decide (0 < length (conf_alttype_patches_of df))%nat
        then ((range_log df ++ alttype_error
                 :: (patch_message <$> conf_alttype_patches_of df))%list, true)
        else ((range_log df ++
                 [Log (AddMessage
                    [Lit "Confidence values for Events with AltTypes passed validation."])])%list,
              range)
      else (range_log df, range).
Proof.
  unfold check_confidence. fold (events_of df).
  destruct (bool_decide (length _ = _)); [done|].
  fold (con_ck_of df). fold (conf_alttype_patches_of df). unfold range_log.
  rewrite !W_bind_eq.
  destruct (bool_decide (0 < length (con_ck_of df))%nat), only_values;
    cbn [negb]; try destruct (bool_decide _);
    rewrite ?W_bind_eq; cbn; rewrite ?app_nil_r; done.
Qed.

Lemma check_confidence_no_write df only_values :
  no_write (check_confidence df only_values).1.
Proof.
  rewrite check_confidence_eq.
  assert (no_write (range_log df)) as Hr.
  { unfold range_log. destruct (bool_decide _);
      repeat apply no_write_cons; apply no_write_nil. }
  destruct (bool_decide (length _ = _)); [apply no_write_nil|].
  cbn zeta. destruct (negb only_values); [|done].
  destruct (bool_decide _); cbn [fst]; apply no_write_app; try done.
  - apply no_write_cons, no_write_fmap. done.
  - apply no_write_cons, no_write_nil.
Qed.

Definition is_event r : bool :=
  negb (cell_eq (cell r "EventType") (CText " ")) && negb (pd_isna (cell r "EventType")).

Lemma events_of_nonempty df r :
  r ∈ data df → is_event r = true →
  r ∈ events_of df ∧ bool_decide (length (events_of df) = 0%nat) = false.
Proof.
  intros Hr He.
  assert (r ∈ events_of df) as Hin by (by apply list_elem_of_filter).
  split; [done|]. apply bool_decide_eq_false.
  destruct (events_of df); [by apply elem_of_nil in Hin | done].
Qed.

(** An event whose Confidence is a number outside [1,3] fails the check. *)
Lemma check_confidence_range df only_values r :
  r ∈ data df → is_event r = true →
  lt_int (cell r "Confidence") 1 || gt_int (cell r "Confidence") 3 = true →
  (check_confidence df only_values).2 = true ∧
  confidence_error ∈ (check_confidence df only_values).1.
Proof.
  intros Hr He Hc. rewrite check_confidence_eq.
  destruct (events_of_nonempty df r Hr He) as [Hin ->]. cbn zeta.
  assert (r ∈ con_ck_of df) as Hck by (by apply list_elem_of_filter).
  assert (bool_decide (0 < length (con_ck_of df))%nat = true) as Hb.
  { apply bool_decide_eq_true.
    destruct (con_ck_of df); [by apply elem_of_nil in Hck | simpl; lia]. }
  assert (confidence_error ∈ range_log df) as Hlog.
  { unfold range_log. rewrite Hb. left. }
  rewrite Hb. destruct (negb only_values); [|by cbn [fst snd]].
  destruct (bool_decide (0 < length (conf_alttype_patches_of df))%nat);
    cbn [fst snd]; (split; [done|]); apply elem_of_app; by left.
Qed.

(** For GEE, an event other than Mask with Confidence below 3 and no
    AltType fails the check and is listed. *)
Lemma check_confidence_alttype df r :
  r ∈ data df → is_event r = true →
  lt_int (cell r "Confidence") 3 = true →
  cell_eq (cell r "EventType") (CText "Mask") = false →
  pd_isna (cell r "AltType") = true →
  (check_confidence df false).2 = true ∧
  alttype_error ∈ (check_confidence df false).1 ∧
  patch_message (cell r "PatchName") ∈ (check_confidence df false).1.
Proof.
  intros Hr He Hc Hm Ha. rewrite check_confidence_eq.
  destruct (events_of_nonempty df r Hr He) as [Hin ->]. cbn zeta. cbn [negb].
  assert (cell r "PatchName" ∈ conf_alttype_patches_of df) as Hp.
  { apply (list_elem_of_fmap_2 (λ r, cell r "PatchName") _ r).
    apply list_elem_of_filter. split; [done|].
    apply list_elem_of_filter. split; [|done]. by rewrite Hc, Hm. }
  rewrite bool_decide_eq_true_2.
  - cbn [fst snd]. split; [done|].
    split; apply elem_of_app; right; [left | right].
    by apply (list_elem_of_fmap_2 patch_message).
  - destruct (conf_alttype_patches_of df);
      [by apply elem_of_nil in Hp | simpl; lia].
Qed.

Definition missing_values_of df (value_fields : list string) : list string :=
  filter (λ field, existsb (λ r, pd_isna (cell r field)) (data df)
                   || existsb (λ r, cell_eq (cell r field) (CText " ")) (data df)
                   = true) value_fields.

Definition field_message (v : string) : effect :=
  Log (AddMessage [Lit "Field: "; Val (VText v)]).

Lemma check_fields_have_values_eq df value_fields :
  check_fields_have_values df value_fields
  = if bool_decide (0 < length (missing_values_of df value_fields))%nat
    then (missing_error :: (field_message <$> missing_values_of df value_fields),
          true)
    else ([Log (AddMessage [Lit "No fields with missing values were found."])],
          false).
Proof.
  unfold check_fields_have_values. fold (missing_values_of df value_fields).
  destruct (bool_decide _); [|done].
  rewrite !W_bind_eq. cbn. by rewrite app_nil_r.
Qed.

Lemma check_fields_have_values_no_write df value_fields :
  no_write (check_fields_have_values df value_fields).1.
Proof.
  rewrite check_fields_have_values_eq. destruct (bool_decide _); cbn [fst].
  - apply no_write_cons, no_write_fmap. done.
  - apply no_write_cons, no_write_nil.
Qed.

(** A checked field that is null or blank in some row fails the check. *)
Lemma check_fields_have_values_missing df value_fields field r :
  field ∈ value_fields → r ∈ data df →
  pd_isna (cell r field) || cell_eq (cell r field) (CText " ") = true →
  (check_fields_have_values df value_fields).2 = true ∧
  missing_error ∈ (check_fields_have_values df value_fields).1 ∧
  field_message field ∈ (check_fields_have_values df value_fields).1.
Proof.
  intros Hf Hr Hv. rewrite check_fields_have_values_eq.
  assert (field ∈ missing_values_of df value_fields) as Hin.
  { apply list_elem_of_filter. split; [|done].
    apply orb_true_iff in Hv as [Hv|Hv]; apply orb_true_iff; [left|right];
      apply existsb_exists; exists r; split; try done; by apply list_elem_of_In. }
  rewrite bool_decide_eq_true_2.
  - cbn [fst snd]. split; [done|]. split; [left|right].
    by apply (list_elem_of_fmap_2 field_message).
  - destruct (missing_values_of df value_fields);
      [by apply elem_of_nil in Hin | simpl; lia].
Qed.

(** The frame [extract_data] reads, and the frame the checks of an export
    see. *)
Definition extracted (fc : table G) (fields_ : list string) : frame :=
  (extract_data fc fields_).2.

Definition validated (csv_exp : bool) (fc : table G) (fields_ : list string)
    : frame :=
  prepare csv_exp (extract_data fc fields_).2.

Lemma extract_data_no_write (fc : table G) fields_ :
  no_write (extract_data fc fields_).1.
Proof.
  unfold extract_data. rewrite W_bind_eq. cbn [fst snd]. rewrite app_nil_r.
  destruct (bool_decide _); [|apply no_write_nil].
  apply no_write_cons, no_write_nil.
Qed.

(** [extract_data] says nothing but its warning. *)
Lemma extract_data_warns (fc : table G) fields_ e :
  e ∈ (extract_data fc fields_).1 → ∃ p, e = Log (AddWarning p).
Proof.
  unfold extract_data. rewrite W_bind_eq. cbn [fst snd]. rewrite app_nil_r.
  destruct (bool_decide _); cbn [fst tell].
  - intros ->%list_elem_of_singleton. by eexists.
  - by intros ?%elem_of_nil.
Qed.

Lemma primary_validation_eq (fc : table G) fields_ csv_exp :
  primary_validation change_types fc fields_ csv_exp
  = let df := validated csv_exp fc fields_ in
    match (check_change_types change_types df).2 with
    | Raised e =>
        (((extract_data fc fields_).1
          ++ (check_change_types change_types df).1)%list, Raised e)
    | Ok ct =>
        (((extract_data fc fields_).1 ++ (check_change_types change_types df).1
          ++ (check_confidence df csv_exp).1
          ++ (check_duplicate_patch_names df).1)%list,
         Ok ((check_confidence df csv_exp).2 || ct
             || (check_duplicate_patch_names df).2, df))
    end.
Proof.
  unfold primary_validation, validated. rewrite W_try_ok. cbn zeta.
  set (df := prepare csv_exp _). rewrite (W_try_eq (check_change_types _ _)).
  destruct (check_change_types change_types df) as [l [e|ct]]; cbn [fst snd].
  - done.
  - rewrite !W_try_ok. unfold ok, mret, W_ret. cbn [fst snd].
    by rewrite app_nil_r.
Qed.

Definition csv_refused (fc : string * table G) : effect :=
  Log (AddError [Lit "Validation error(s). "; Lit fc.1; Lit " NOT exported to CSV."]).

(** What a check reported is part of what the export reported. *)
Definition reported (fc : table G) (fields_ : list string) (csv_exp : bool)
    (e : effect) : Prop :=
  let df := validated csv_exp fc fields_ in
  e ∈ (check_change_types change_types df).1
  ∨ e ∈ (check_confidence df csv_exp).1
  ∨ e ∈ (check_duplicate_patch_names df).1.

Lemma export_patches_csv_spec (fc : string * table G) out_fp ct :
  let df := validated true fc.2 patches_fields in
  let res := export_patches_csv change_types fc out_fp in
  (check_change_types change_types df).2 = Ok ct →
  res.2 = Ok ((check_confidence df true).2 || ct
              || (check_duplicate_patch_names df).2) ∧
  (∀ e, reported fc.2 patches_fields true e → e ∈ res.1) ∧
  (res.2 = Ok true → no_write res.1) ∧
  (res.2 = Ok false → ToCsv out_fp df ∈ res.1).
Proof.
  clear shp_folder_of. intros df res Hct. unfold res, export_patches_csv.
  rewrite W_try_eq, primary_validation_eq. fold df. cbv zeta. rewrite Hct.
  cbn [fst snd].
  set (b := _ || _ || _). set (pre := ((extract_data _ _).1 ++ _)%list).
  assert (no_write pre) as Hpre.
  { unfold pre. repeat apply no_write_app;
      auto using extract_data_no_write, check_change_types_no_write,
        check_confidence_no_write, check_duplicate_patch_names_no_write. }
  assert (∀ e, reported fc.2 patches_fields true e → e ∈ pre) as Hrep.
  { intros e He. unfold reported in He. fold df in He. unfold pre.
    rewrite !elem_of_app. tauto. }
  destruct b; unfold ok; rewrite !W_bind_eq; unfold mret, W_ret;
    cbn [fst snd tell].
  - split; [done|]. split; [|split; [|done]].
    + intros e He. apply elem_of_app. left. by apply Hrep.
    + intros _. apply no_write_app; [done|]. apply no_write_cons, no_write_nil.
  - split; [done|]. split; [|split; [done|]].
    + intros e He. apply elem_of_app. left. by apply Hrep.
    + intros _. apply elem_of_app. right. left.
Qed.

(** When the change-type check raises, so does the export: the messages are
    those of [extract_data], and the other checks have not run. *)
Lemma export_patches_csv_raises (fc : string * table G) out_fp :
  meets_NA (validated true fc.2 patches_fields) = true →
  export_patches_csv change_types fc out_fp
  = ((extract_data fc.2 patches_fields).1, Raised TypeError).
Proof.
  intros HNA. unfold export_patches_csv.
  rewrite W_try_eq, primary_validation_eq. cbv zeta.
  rewrite (check_change_types_raises _ HNA). cbn [fst snd].
  by rewrite app_nil_r.
Qed.

Definition value_fields_ : list string :=
  filter (λ field, field ∉ no_check_fields) exp_fields.

Lemma export_patches_shp_spec (fc : string * table G) out_folder ct :
  let df := validated false fc.2 exp_fields in
  let res := export_patches_shp change_types shp_folder_of fc out_folder in
  let refused :=
    (check_confidence df false).2 || ct
    || (check_duplicate_patch_names df).2
    || (check_fields_have_values df value_fields_).2 in
  (check_change_types change_types df).2 = Ok ct →
  res.2 = Ok (if refused then PyNone else PyBool false) ∧
  (∀ e, reported fc.2 exp_fields false e
        ∨ e ∈ (check_fields_have_values df value_fields_).1 → e ∈ res.1) ∧
  (refused = true → no_write res.1 ∧ csv_refused fc ∈ res.1) ∧
  (refused = false →
   ToShapefile fc.1 exp_fields (shp_folder_of out_folder fc.1) ∈ res.1).
Proof.
  intros df res refused Hct. unfold res, export_patches_shp.
  rewrite W_try_eq, primary_validation_eq. fold df. cbv zeta. rewrite Hct.
  cbn [fst snd]. rewrite W_try_ok. fold value_fields_. cbn [fst snd].
  set (pre := ((extract_data _ _).1 ++ _)%list).
  assert (no_write pre ∧ no_write (check_fields_have_values df value_fields_).1)
    as [Hpre Hcv].
  { split; [|apply check_fields_have_values_no_write].
    unfold pre. repeat apply no_write_app;
      auto using extract_data_no_write, check_change_types_no_write,
        check_confidence_no_write, check_duplicate_patch_names_no_write. }
  assert (∀ e, reported fc.2 exp_fields false e → e ∈ pre) as Hrep.
  { intros e He. unfold reported in He. fold df in He. unfold pre.
    rewrite !elem_of_app. tauto. }
  fold refused. destruct refused.
  - unfold ok. rewrite !W_bind_eq. unfold mret, W_ret. cbn [fst snd tell].
    split; [done|]. split; [|split; [|done]].
    + intros e [He|He]; rewrite !elem_of_app; auto.
    + intros _. split.
      * apply no_write_app; [done|]. apply no_write_app; [done|].
        apply no_write_cons, no_write_nil.
      * rewrite !elem_of_app. right. right. left. left.
  - unfold exp_shp_spec_fields, ok. rewrite !W_bind_eq.
    unfold mret, W_ret. cbn [fst snd tell].
    split; [done|]. split; [|split; [done|]].
    + intros e [He|He]; rewrite !elem_of_app; auto.
    + intros _. rewrite !elem_of_app. right. right. left. left. left.
Qed.

Lemma export_patches_shp_raises (fc : string * table G) out_folder :
  meets_NA (validated false fc.2 exp_fields) = true →
  export_patches_shp change_types shp_folder_of fc out_folder
  = ((extract_data fc.2 exp_fields).1, Raised TypeError).
Proof.
  intros HNA. unfold export_patches_shp.
  rewrite W_try_eq, primary_validation_eq. cbv zeta.
  rewrite (check_change_types_raises _ HNA). cbn [fst snd].
  by rewrite app_nil_r.
Qed.

(** A frame with a ChangeType outside the vocabulary (row [r], value [c])
    and two rows ([i] and [j]) that share a PatchName. *)
Definition both_violations df r c (i j : nat) ri rj : Prop :=
  r ∈ data df ∧ cell r "ChangeType" = CText c ∧
  (c ∉ (change_types ++ [" "])%list) ∧
  i ≠ j ∧ data df !! i = Some ri ∧ data df !! j = Some rj ∧
  cell ri "PatchName" = cell rj "PatchName".

(** Both violations are in the messages, and nothing was written. *)
Definition both_reported (log : list effect) r c ri rj : Prop :=
  change_error ∈ log ∧ mismatch_message (CText c, cell r "PatchName") ∈ log ∧
  duplicate_error ∈ log ∧ patch_message (cell ri "PatchName") ∈ log ∧
  patch_message (cell rj "PatchName") ∈ log ∧ no_write log.

(** No error of a check is in the messages, and nothing was written. *)
Definition nothing_reported (log : list effect) : Prop :=
  (∀ p, Log (AddError p) ∉ log) ∧ (∀ p, Log (AddMessage p) ∉ log) ∧ no_write log.

Lemma extract_data_nothing_reported (fc : table G) fields_ :
  nothing_reported (extract_data fc fields_).1.
Proof.
  split_and!; [| |apply extract_data_no_write];
    by intros p [q ?]%extract_data_warns.
Qed.

(** What both violations give, on a frame the checks see. *)
Lemma both_violations_checks df r c i j ri rj :
  both_violations df r c i j ri rj → meets_NA df = false →
  (check_change_types change_types df).2 = Ok true ∧
  ∀ log, (∀ e, e ∈ (check_change_types change_types df).1
               ∨ e ∈ (check_duplicate_patch_names df).1 → e ∈ log) →
         no_write log → both_reported log r c ri rj.
Proof.
  intros (Hr & Hc & Hout & Hij & Hi & Hj & Hname) HNA.
  destruct (check_change_types_mismatch df r c HNA Hr Hc Hout) as (Hc2 & Hce & Hcm).
  destruct (check_duplicate_patch_names_found df i j ri rj Hij Hi Hj Hname)
    as (Hd2 & Hde & Hdm & _).
  destruct (check_duplicate_patch_names_found df j i rj ri) as (_ & _ & Hdm' & _);
    [done..|].
  split; [done|]. intros log Hlog Hnw. unfold both_reported.
  split_and!; auto.
Qed.

(** The rows kept for GEE stay in their order. *)
Lemma both_violations_kept (fc : table G) fields_ r c i j ri rj :
  both_violations (extracted fc fields_) r c i j ri rj →
  has_gee_event r = true → has_gee_event ri = true → has_gee_event rj = true →
  ∃ i' j', both_violations (validated false fc fields_) r c i' j' ri rj.
Proof.
  intros (Hr & Hc & Hout & Hij & Hi & Hj & Hname) Her Hei Hej.
  unfold extracted in *.
  destruct (filter_two_lookup (λ r, has_gee_event r = true)
              (data (extract_data fc fields_).2) i j ri rj)
    as (i' & j' & Hij' & Hi' & Hj'); [done..|].
  exists i', j'. unfold both_violations, validated, prepare. cbn [data].
  split_and!; try done. by apply list_elem_of_filter.
Qed.

(** C1, as the code has it.  For every export, CSV or shapefile, whose
    change-type check returns, the confidence and duplicate-PatchName checks
    (and, for the shapefile, the missing-values check) run as well on the
    frame being validated; what each reports is reported by the export, the
    verdict is the disjunction of theirs, and an export that is refused
    writes no artifact.  The change-type check returns unless it meets a
    [pd.NA] (in the ChangeType or AltType of some row, while some ChangeType
    is not null): then it raises TypeError, and so does the export, with
    none of the checks having reported anything.  In particular, when the
    frame has a ChangeType outside the vocabulary and two rows sharing a
    PatchName (for GEE: rows of the feature class that are kept for GEE),
    both violations are reported and the export is refused if the frame has
    no [pd.NA] in ChangeType or AltType; if it has one, neither is reported:
    the export stops with TypeError.  Nothing is written either way. *)
Theorem export_validation_exhaustive (fc : string * table G)
    (out_fp out_folder : string) :
  let csv := export_patches_csv change_types fc out_fp in
  let shp := export_patches_shp change_types shp_folder_of fc out_folder in
  let dfc := validated true fc.2 patches_fields in
  let dfs := validated false fc.2 exp_fields in
  (∀ ct, (check_change_types change_types dfc).2 = Ok ct →
     csv.2 = Ok ((check_confidence dfc true).2 || ct
                 || (check_duplicate_patch_names dfc).2) ∧
     (∀ e, reported fc.2 patches_fields true e → e ∈ csv.1) ∧
     (csv.2 = Ok true → no_write csv.1) ∧
     (csv.2 = Ok false → ToCsv out_fp dfc ∈ csv.1)) ∧
  (∀ ct, (check_change_types change_types dfs).2 = Ok ct →
     let shp_refused :=
       (check_confidence dfs false).2 || ct
       || (check_duplicate_patch_names dfs).2
       || (check_fields_have_values dfs value_fields_).2 in
     shp.2 = Ok (if shp_refused then PyNone else PyBool false) ∧
     (∀ e, reported fc.2 exp_fields false e
           ∨ e ∈ (check_fields_have_values dfs value_fields_).1 → e ∈ shp.1) ∧
     (shp_refused = true → no_write shp.1) ∧
     (shp_refused = false →
      ToShapefile fc.1 exp_fields (shp_folder_of out_folder fc.1) ∈ shp.1)) ∧
  (∀ df, (meets_NA df = false ↔
          ∃ ct, (check_change_types change_types df).2 = Ok ct) ∧
         (meets_NA df = true ↔
          check_change_types change_types df = ([], Raised TypeError))) ∧
  (meets_NA dfc = true →
   csv = ((extract_data fc.2 patches_fields).1, Raised TypeError) ∧
   nothing_reported csv.1) ∧
  (meets_NA dfs = true →
   shp = ((extract_data fc.2 exp_fields).1, Raised TypeError) ∧
   nothing_reported shp.1) ∧
  (∀ r c i j ri rj, both_violations dfc r c i j ri rj →
     (meets_NA dfc = false → csv.2 = Ok true ∧ both_reported csv.1 r c ri rj) ∧
     (meets_NA dfc = true → csv.2 = Raised TypeError ∧ nothing_reported csv.1)) ∧
  (∀ r c i j ri rj,
     both_violations (extracted fc.2 exp_fields) r c i j ri rj →
     has_gee_event r = true → has_gee_event ri = true →
     has_gee_event rj = true →
     (meets_NA dfs = false → shp.2 = Ok PyNone ∧ both_reported shp.1 r c ri rj) ∧
     (meets_NA dfs = true → shp.2 = Raised TypeError ∧ nothing_reported shp.1)).
Proof.
  intros csv shp dfc dfs.
  assert (meets_NA dfc = true →
          csv = ((extract_data fc.2 patches_fields).1, Raised TypeError) ∧
          nothing_reported csv.1) as Hcr.
  { intros HNA. unfold csv. rewrite (export_patches_csv_raises fc out_fp HNA).
    split; [done|]. apply extract_data_nothing_reported. }
  assert (meets_NA dfs = true →
          shp = ((extract_data fc.2 exp_fields).1, Raised TypeError) ∧
          nothing_reported shp.1) as Hsr.
  { intros HNA. unfold shp. rewrite (export_patches_shp_raises fc out_folder HNA).
    split; [done|]. apply extract_data_nothing_reported. }
  split_and!.
  - intros ct Hct. exact (export_patches_csv_spec fc out_fp ct Hct).
  - intros ct Hct shp_refused.
    destruct (export_patches_shp_spec fc out_folder ct Hct) as (Hv & Hrep & Hnw & Hw).
    split_and!; try done. intros Ht. by apply Hnw.
  - intros df. split; split.
    + apply check_change_types_returns.
    + intros [ct Hct]. by eapply check_change_types_Ok.
    + apply check_change_types_raises.
    + intros Heq. destruct (meets_NA df) eqn:E; [done|].
      apply check_change_types_returns in E as [b Hb]. by rewrite Heq in Hb.
  - exact Hcr.
  - exact Hsr.
  - intros r c i j ri rj Hboth. split.
    + intros HNA.
      destruct (both_violations_checks dfc r c i j ri rj Hboth HNA) as [Hct Hlog].
      destruct (export_patches_csv_spec fc out_fp true Hct) as (Hv & Hrep & Hnw & _).
      fold csv dfc in Hv, Hrep, Hnw.
      assert (csv.2 = Ok true) as Ht.
      { rewrite Hv. by rewrite orb_true_r. }
      split; [done|]. apply Hlog; [|by apply Hnw].
      intros e He. apply Hrep. unfold reported. fold dfc. tauto.
    + intros HNA. destruct (Hcr HNA) as [-> Hn]. done.
  - intros r c i j ri rj Hboth Her Hei Hej.
    destruct (both_violations_kept fc.2 exp_fields r c i j ri rj Hboth Her Hei Hej)
      as (i' & j' & Hboth').
    fold dfs in Hboth'. split.
    + intros HNA.
      destruct (both_violations_checks dfs r c i' j' ri rj Hboth' HNA) as [Hct Hlog].
      destruct (export_patches_shp_spec fc out_folder true Hct) as (Hv & Hrep & Hnw & _).
      fold shp dfs in Hv, Hrep, Hnw.
      rewrite orb_true_r in Hv, Hnw. cbn [orb] in Hv, Hnw.
      split; [done|]. apply Hlog; [|by apply Hnw].
      intros e He. apply Hrep. left. unfold reported. fold dfs. tauto.
    + intros HNA. destruct (Hsr HNA) as [-> Hn]. done.
Qed.

(** ** Confidence rules *)

(** The rows the GEE checks see carry an EventType that is neither null,
    "Mask" nor "Model". *)
Lemma validated_gee_event (fc : table G) fields_ r :
  r ∈ data (validated false fc fields_) →
  pd_isna (cell r "EventType") = false ∧
  cell_eq (cell r "EventType") (CText "Mask") = false ∧
  cell_eq (cell r "EventType") (CText "Model") = false.
Proof.
  unfold validated, prepare. cbn [data]. intros [He _]%list_elem_of_filter.
  unfold has_gee_event in He.
  apply andb_true_iff in He as [[H1 H2]%andb_true_iff H3].
  apply negb_true_iff in H1, H2, H3. done.
Qed.

Lemma value_fields_Confidence : "Confidence" ∈ value_fields_.
Proof. in_list. Qed.

(** Confidence is a number outside [1,3]. *)
Definition out_of_range r : bool :=
  lt_int (cell r "Confidence") 1 || gt_int (cell r "Confidence") 3.

(** What the refused shapefile export of [fc] leaves: [None], the messages,
    no artifact. *)
Lemma export_patches_shp_refused (fc : string * table G) out_folder :
  let df := validated false fc.2 exp_fields in
  let res := export_patches_shp change_types shp_folder_of fc out_folder in
  meets_NA df = false →
  (check_confidence df false).2 = true
  ∨ (check_fields_have_values df value_fields_).2 = true →
  res.2 = Ok PyNone ∧ no_write res.1 ∧
  ∀ e, e ∈ (check_confidence df false).1
       ∨ e ∈ (check_fields_have_values df value_fields_).1 → e ∈ res.1.
Proof.
  intros df res HNA Hor.
  destruct (check_change_types_returns df HNA) as [ct Hct].
  destruct (export_patches_shp_spec fc out_folder ct Hct) as (Hv & Hrep & Hnw & _).
  fold df res in Hv, Hrep, Hnw.
  assert ((check_confidence df false).2 || ct
          || (check_duplicate_patch_names df).2
          || (check_fields_have_values df value_fields_).2 = true) as Ht.
  { destruct Hor as [->| ->]; [done|]. by rewrite orb_true_r. }
  rewrite Ht in Hv. split; [done|]. split; [by apply Hnw|].
  intros e [He|He]; apply Hrep; [left|by right].
  unfold reported. fold df. auto.
Qed.

(** C9, as the code has it.  Provided the change-type check, which runs
    first, returns (it raises TypeError when it meets a [pd.NA] in
    ChangeType or AltType while some ChangeType is not null: a blank on the
    CSV path, a field the feature class lacks): for the shapefile export, a
    row that is kept for GEE (EventType neither null, "Mask" nor "Model")
    and is not blank, with Confidence below 3 and no AltType, is listed
    under the AltType error and the export is refused; so is a kept row
    whose Confidence is null, by the missing-values check.  For both
    exports, an event row of the frame being validated whose Confidence is a
    number outside [1,3] raises the Confidence error and the export is
    refused.  A refused export writes nothing.  When the change-type check
    raises, the export raises with it and the Confidence rules are not
    checked. *)
Theorem confidence_rules_enforced (fc : string * table G)
    (out_fp out_folder : string) :
  let csv := export_patches_csv change_types fc out_fp in
  let shp := export_patches_shp change_types shp_folder_of fc out_folder in
  let dfc := validated true fc.2 patches_fields in
  let dfs := validated false fc.2 exp_fields in
  (meets_NA dfs = false →
   (∀ r, r ∈ data dfs → is_event r = true →
         lt_int (cell r "Confidence") 3 = true →
         pd_isna (cell r "AltType") = true →
         shp.2 = Ok PyNone ∧ no_write shp.1 ∧ alttype_error ∈ shp.1 ∧
         patch_message (cell r "PatchName") ∈ shp.1) ∧
   (∀ r, r ∈ data dfs → pd_isna (cell r "Confidence") = true →
         shp.2 = Ok PyNone ∧ no_write shp.1 ∧ missing_error ∈ shp.1 ∧
         field_message "Confidence" ∈ shp.1) ∧
   (∀ r, r ∈ data dfs → is_event r = true → out_of_range r = true →
         shp.2 = Ok PyNone ∧ no_write shp.1 ∧ confidence_error ∈ shp.1)) ∧
  (meets_NA dfc = false →
   ∀ r, r ∈ data dfc → is_event r = true → out_of_range r = true →
        csv.2 = Ok true ∧ no_write csv.1 ∧ confidence_error ∈ csv.1) ∧
  (meets_NA dfs = true →
   shp.2 = Raised TypeError ∧ nothing_reported shp.1) ∧
  (meets_NA dfc = true →
   csv.2 = Raised TypeError ∧ nothing_reported csv.1).
Proof.
  intros csv shp dfc dfs. split_and!.
  - intros HNA.
    pose proof (export_patches_shp_refused fc out_folder HNA) as Hshp.
    fold shp dfs in Hshp. split_and!.
    + intros r Hr He Hlt Ha.
      destruct (validated_gee_event _ _ _ Hr) as (_ & Hmask & _).
      destruct (check_confidence_alttype dfs r) as (Hc & Hae & Hp); try done.
      destruct Hshp as (? & ? & Hin); [by left|].
      split_and!; [done|done|apply Hin; by left|apply Hin; by left].
    + intros r Hr Hn.
      destruct (check_fields_have_values_missing dfs value_fields_
                  "Confidence" r) as (Hc & Ha & Hp);
        [apply value_fields_Confidence | done | by rewrite Hn | ].
      destruct Hshp as (? & ? & Hin); [by right|].
      split_and!; [done|done|apply Hin; by right|apply Hin; by right].
    + intros r Hr He Ho.
      destruct (check_confidence_range dfs false r) as (Hc & Ha); try done.
      destruct Hshp as (? & ? & Hin); [by left|].
      split_and!; [done|done|apply Hin; by left].
  - intros HNA r Hr He Ho.
    destruct (check_change_types_returns dfc HNA) as [ct Hct].
    destruct (export_patches_csv_spec fc out_fp ct Hct) as (Hv & Hrep & Hnw & _).
    fold csv dfc in Hv, Hrep, Hnw.
    destruct (check_confidence_range dfc true r) as (Hc & Ha); try done.
    assert (csv.2 = Ok true) as Ht by (by rewrite Hv, Hc).
    split_and!; [done|by apply Hnw|].
    apply Hrep. unfold reported. fold dfc. auto.
  - intros HNA. unfold shp. rewrite (export_patches_shp_raises fc out_folder HNA).
    split; [done|]. apply extract_data_nothing_reported.
  - intros HNA. unfold csv. rewrite (export_patches_csv_raises fc out_fp HNA).
    split; [done|]. apply extract_data_nothing_reported.
Qed.

(** ** The export driver *)

Variable csv_path_of : string → string.










End ExportFacts.

(** ** Sample exports *)

(** The folder [exp_shp_spec_fields] creates when none of that name exists. *)
Definition gee_folder (out_folder patches_fc : string) : string :=
  out_folder +:+ "/" +:+ patches_fc +:+ "_GEE".

(** Two patches sharing a PatchName, the first with a ChangeType that is
    not in the vocabulary. *)
Definition c1_patches : string * table unit :=
  ("MORA_1990_2020",
   Table event_schema
     [event_row "MORA_5_7_1990_2020_2001_42" "Dist" "Bogus" 3 "Fire"
        "burn scar" 2001 "Old Fire";
      event_row "MORA_5_7_1990_2020_2001_42" "Dist" "Fire" 3 "Fire"
        "burn scar" 2001 "Old Fire"]).

(** The same two patches, the second with the blank a shapefile holds for a
    missing AltType. *)
Definition c1_blank : string * table unit :=
  ("MORA_1990_2020",
   Table event_schema
     [event_row "MORA_5_7_1990_2020_2001_42" "Dist" "Bogus" 3 "Fire"
        "burn scar" 2001 "Old Fire";
      event_row "MORA_5_7_1990_2020_2001_42" "Dist" "Fire" 3 " "
        "burn scar" 2001 "Old Fire"]).

Lemma export_validation_exhaustive_witness :
  ((ExpTools.export_patches_csv ["Fire"] c1_patches "MORA.csv").2 = Ok true ∧
   change_error ∈ (ExpTools.export_patches_csv ["Fire"] c1_patches "MORA.csv").1 ∧
   duplicate_error ∈ (ExpTools.export_patches_csv ["Fire"] c1_patches "MORA.csv").1 ∧
   no_write (ExpTools.export_patches_csv ["Fire"] c1_patches "MORA.csv").1) ∧
  ((ExpTools.export_patches_csv ["Fire"] c1_blank "MORA.csv").2 = Raised TypeError ∧
   (change_error ∉ (ExpTools.export_patches_csv ["Fire"] c1_blank "MORA.csv").1) ∧
   (duplicate_error ∉ (ExpTools.export_patches_csv ["Fire"] c1_blank "MORA.csv").1) ∧
   no_write (ExpTools.export_patches_csv ["Fire"] c1_blank "MORA.csv").1).
Proof.
  split.
  - destruct (export_validation_exhaustive ["Fire"] gee_folder c1_patches
                "MORA.csv" "gee") as (_ & _ & _ & _ & _ & Hcsv & _).
    cbv zeta in Hcsv.
    set (df := validated true c1_patches.2 ExpTools.patches_fields) in Hcsv.
    destruct (Hcsv (default ∅ (data df !! 0%nat)) "Bogus" 0%nat 1%nat
                (default ∅ (data df !! 0%nat)) (default ∅ (data df !! 1%nat)))
      as (Hok & _).
    + unfold both_violations. split_and!.
      * apply (list_elem_of_lookup_2 _ 0%nat), lookup_default. vm_compute. lia.
      * vm_compute. reflexivity.
      * in_list.
      * lia.
      * apply lookup_default. vm_compute. lia.
      * apply lookup_default. vm_compute. lia.
      * vm_compute. reflexivity.
    + destruct Hok as (Ht & Hce & _ & Hde & _ & _ & Hnw);
        [vm_compute; reflexivity|].
      split_and!; assumption.
  - destruct (export_validation_exhaustive ["Fire"] gee_folder c1_blank
                "MORA.csv" "gee") as (_ & _ & _ & _ & _ & Hcsv & _).
    cbv zeta in Hcsv.
    set (df := validated true c1_blank.2 ExpTools.patches_fields) in Hcsv.
    destruct (Hcsv (default ∅ (data df !! 0%nat)) "Bogus" 0%nat 1%nat
                (default ∅ (data df !! 0%nat)) (default ∅ (data df !! 1%nat)))
      as (_ & Hraised).
    + unfold both_violations. split_and!.
      * apply (list_elem_of_lookup_2 _ 0%nat), lookup_default. vm_compute. lia.
      * vm_compute. reflexivity.
      * in_list.
      * lia.
      * apply lookup_default. vm_compute. lia.
      * apply lookup_default. vm_compute. lia.
      * vm_compute. reflexivity.
    + destruct Hraised as (Ht & He & _ & Hnw); [vm_compute; reflexivity|].
      split_and!; [assumption | apply He | apply He | assumption].
Defined.

(** A record with Confidence 1, EventType "Dist" and no AltType. *)
Definition c9_record : string * table unit :=
  ("MORA_1990_2020",
   Table event_schema
     [Feature tt (list_to_map
        [("PatchName", VText "MORA_5_7_1990_2020_2001_42");
         ("EventType", VText "Dist"); ("ChangeType", VText "Fire");
         ("Confidence", VInt 1); ("AltType", VNull)])]).

(** A disturbance with Confidence 5 and the blank a shapefile holds for a
    missing AltType. *)
Definition c9_blank : string * table unit :=
  ("MORA_1990_2020",
   Table event_schema
     [event_row "MORA_5_7_1990_2020_2001_42" "Dist" "Fire" 5 " "
        "burn scar" 2001 "Old Fire"]).

Lemma confidence_rules_enforced_witness :
  ((ExpTools.export_patches_shp ["Fire"] gee_folder c9_record "gee").2 = Ok PyNone ∧
   no_write (ExpTools.export_patches_shp ["Fire"] gee_folder c9_record "gee").1 ∧
   alttype_error ∈ (ExpTools.export_patches_shp ["Fire"] gee_folder c9_record "gee").1 ∧
   ExpPatches.patch_message (CText "MORA_5_7_1990_2020_2001_42")
     ∈ (ExpTools.export_patches_shp ["Fire"] gee_folder c9_record "gee").1) ∧
  ((ExpTools.export_patches_csv ["Fire"] c9_blank "MORA.csv").2 = Raised TypeError ∧
   (confidence_error ∉ (ExpTools.export_patches_csv ["Fire"] c9_blank "MORA.csv").1)).
Proof.
  split.
  - destruct (confidence_rules_enforced ["Fire"] gee_folder c9_record
                "MORA.csv" "gee") as (Hshp & _).
    cbv zeta in Hshp.
    set (df := validated false c9_record.2 ExpTools.exp_fields) in Hshp.
    destruct Hshp as (Halt & _); [vm_compute; reflexivity|].
    destruct (Halt (default ∅ (data df !! 0%nat))) as (Ht & Hnw & Ha & Hp).
    + apply (list_elem_of_lookup_2 _ 0%nat), lookup_default. vm_compute. lia.
    + vm_compute. reflexivity.
    + vm_compute. reflexivity.
    + vm_compute. reflexivity.
    + split_and!; assumption.
  - destruct (confidence_rules_enforced ["Fire"] gee_folder c9_blank
                "MORA.csv" "gee") as (_ & _ & _ & Hcsv).
    destruct Hcsv as (Ht & He & _); [vm_compute; reflexivity|].
    split; [assumption | apply He].
Defined.

(** A patch with every exported field filled in. *)
Definition gee_row (name et : string) (conf : Z) (alt : value) : feature unit :=
  Feature tt
    (<["PatchName" := VText name]> (<["EventType" := VText et]>
     (<["ChangeType" := VText "Fire"]> (<["Confidence" := VInt conf]>
     (<["AltType" := alt]>
        (list_to_map ((λ f, (f, VInt 1)) <$> ExpTools.exp_fields))))))).

(** A labeled disturbance and a patch the Event Labeler stamped as Mask:
    Confidence 2, no AltType. *)
Definition c9_mask : string * table unit :=
  ("MORA_1990_2020",
   Table ((λ f, (f, TEXT)) <$> ExpTools.exp_fields)
     [gee_row "MORA_5_7_1990_2020_2001_42" "Dist" 3 (VText "Fire");
      gee_row "MORA_5_8_1990_2020_2001_43" "Mask" 2 VNull]).

(** A labeled disturbance whose Confidence is null. *)
Definition c9_null : string * table unit :=
  ("MORA_1990_2020",
   Table event_schema
     [Feature tt (list_to_map
        [("PatchName", VText "MORA_5_7_1990_2020_2001_42");
         ("EventType", VText "Dist"); ("ChangeType", VText "Fire");
         ("Confidence", VNull); ("AltType", VNull)])]).

(** C9 as worded fails on the code.  A patch with EventType "Mask",
    Confidence 2 and no AltType is not flagged and the shapefile export goes
    ahead; a patch with EventType "Dist" and a null Confidence passes the
    CSV export, and the range check says so. *)
Lemma confidence_rules_counterexample :
  (ExpTools.export_patches_shp ["Fire"] gee_folder c9_mask "gee").2
  = Ok (PyBool false) ∧
  ToShapefile "MORA_1990_2020" ExpTools.exp_fields "gee/MORA_1990_2020_GEE"
    ∈ (ExpTools.export_patches_shp ["Fire"] gee_folder c9_mask "gee").1 ∧
  bool_decide
    (alttype_error ∈ (ExpTools.export_patches_shp ["Fire"] gee_folder c9_mask "gee").1)
  = false ∧
  (ExpTools.export_patches_csv ["Fire"] c9_null "MORA.csv").2 = Ok false ∧
  existsb is_write (ExpTools.export_patches_csv ["Fire"] c9_null "MORA.csv").1 = true ∧
  Log (AddMessage
         [Lit "Confidence values for Events pass the data table validation rule."])
    ∈ (ExpTools.export_patches_csv ["Fire"] c9_null "MORA.csv").1.
Proof.
  split_and!; try (vm_compute; reflexivity); in_list.
Qed.


(** ** Overlap with the previous year *)

Section OverlapFacts.
Context {G : Type}.
Variable fr : Q → string.
Variable overlaps : G → G → bool.
Import Store Overlap.

(** The patches [add_overlap_prev] selects: those of the base layer that
    intersect a patch of the previous layer. *)
Definition overlapping (q : feature G → bool) (prev_fc : table G)
    (r : feature G) : bool :=
  q r && existsb (λ p, q p && overlaps (shape r) (shape p)) (rows prev_fc).

Definition OverlapPrv (r : feature G) : option value := attrs r !! "OverlapPrv".

(** C3, on the code.  The field OverlapPrv that the yearly loop adds holds
    null, not 0, in every patch: that is what a first-year patch keeps.  For
    a later year [add_overlap_prev] writes 1 to the patches it selects and
    leaves the others null; no step writes 0. *)
Theorem OverlapPrv_null_unless_flagged (t prev_fc : table G) (park : string)
    (events_mask : bool) (q : feature G → bool) :
  has_field t "OverlapPrv" = false →
  layer_query park events_mask (AddField t "OverlapPrv" SHORT) prev_fc = Some q →
  Forall (λ r, OverlapPrv r = Some VNull) (rows (AddField t "OverlapPrv" SHORT)) ∧
  ∃ t', add_overlap_prev fr overlaps (AddField t "OverlapPrv" SHORT) prev_fc
          park events_mask = Some t' ∧
        Forall2 (λ r r', same_but ["OverlapPrv"] r r' ∧
                   OverlapPrv r' = Some (if overlapping q prev_fc r
                                         then VInt 1 else VNull))
                (rows (AddField t "OverlapPrv" SHORT)) (rows t').
Proof.
  intros Hno Hq. set (base_fc := AddField t "OverlapPrv" SHORT) in *.
  assert (Forall (λ r, OverlapPrv r = Some VNull) (rows base_fc)) as Hnull.
  { unfold base_fc, AddField. rewrite Hno. cbn [rows].
    apply Forall_fmap, Forall_forall. intros r _. apply lookup_insert_eq. }
  split; [done|].
  unfold add_overlap_prev. rewrite Hq. cbn [mbind option_bind].
  rewrite (calc_existing fr base_fc _ "OverlapPrv" TEXT SHORT (VInt 1) (VInt 1)).
  - eexists. split; [done|]. cbn [rows].
    apply Forall2_fmap_r, Forall_Forall2_diag.
    eapply Forall_impl; [|exact Hnull]. cbv beta.
    intros r Hr. unfold overlapping, compose. cbv beta.
    destruct (q r && existsb _ (rows prev_fc)).
    + split; [apply same_but_set | apply lookup_insert_eq].
    + split; [apply same_but_refl | done].
  - unfold base_fc. rewrite field_type_AddField_eq.
    apply has_field_false in Hno. by rewrite Hno.
  - done.
Qed.

End OverlapFacts.

(** Shape 11 lies over shape 1 of the year before. *)
Definition lies_over (g p : Z) : bool := (g =? p + 10)%Z.

Definition year_patches (yod : Z) (ids : list Z) : table Z :=
  Table [("annualID", LONG); ("index", TEXT); ("yod", LONG); ("area", LONG);
         ("perim", LONG)]
    ((λ g, Feature g (list_to_map
        [("annualID", VInt g); ("index", VText "7"); ("yod", VInt yod);
         ("area", VInt (g * 1000)); ("perim", VInt (g * 100))])) <$> ids).

Lemma OverlapPrv_null_unless_flagged_witness :
  Forall (λ r, OverlapPrv r = Some VNull)
    (rows (Store.AddField (year_patches 2002 [11; 13]%Z) "OverlapPrv" SHORT)) ∧
  ∃ t', Overlap.add_overlap_prev (λ _, "") lies_over
          (Store.AddField (year_patches 2002 [11; 13]%Z) "OverlapPrv" SHORT)
          (year_patches 2001 [1; 2]%Z) "LEWI" false = Some t' ∧
        Forall2 (λ r r', same_but ["OverlapPrv"] r r' ∧
                   OverlapPrv r' = Some (if overlapping lies_over (λ _, true)
                                              (year_patches 2001 [1; 2]%Z) r
                                         then VInt 1 else VNull))
                (rows (Store.AddField (year_patches 2002 [11; 13]%Z)
                         "OverlapPrv" SHORT)) (rows t').
Proof.
  apply (OverlapPrv_null_unless_flagged (λ _, "") lies_over
           (year_patches 2002 [11; 13]%Z) (year_patches 2001 [1; 2]%Z)
           "LEWI" false (λ _, true)).
  - reflexivity.
  - reflexivity.
Defined.

(** ** Coordinates *)

Definition c5_patches : table Z :=
  Table [("annualID", LONG)]
    ((λ g, Feature g {["annualID" := VInt g]}) <$> [1; 2; 3]%Z).

(** The central point cannot be calculated for the shapes in [bad]. *)
Definition fails_at (bad : list Z) (c : crs) (g : Z) : option (Q * Q) :=
  if bool_decide (g ∈ bad) then None else Some (inject_Z g, inject_Z (g + 100)).

Definition centre_of (c : crs) (g : Z) : Q * Q :=
  (inject_Z (g * 10), inject_Z (g * 10 + 100)).

(** CoordType and X_Coord_m of the patches, and the messages, after
    [add_coords]. *)
Definition coord_report (bad : list Z)
    : option (list (option value) * list (option value) * list msg) :=
  (λ s : table Z * list msg,
     ((λ r, attrs r !! "CoordType") <$> rows s.1,
      (λ r, attrs r !! "X_Coord_m") <$> rows s.1, s.2))
  <$> Coords.add_coords (λ _, "") (fails_at bad) centre_of "change_2001"
        (c5_patches, []).

(** C5, on the code.  With patches 1, 2 and 3 and a central point that
    cannot be calculated for patch 2, patch 2 alone falls back to its
    centroid and the others keep their central points, but no warning is
    issued: [add_albers] warns only when the patch it was called for carries
    the largest annualID, as when patch 3 is the one that fails. *)
Theorem centroid_fallback_warns_only_at_max :
  coord_report [2%Z]
  = Some ([Some (VText "Central point"); Some (VText "Centroid");
           Some (VText "Central point")],
          [Some (VReal 1); Some (VReal 20); Some (VReal 3)], []) ∧
  coord_report [3%Z]
  = Some ([Some (VText "Central point"); Some (VText "Central point");
           Some (VText "Centroid")],
          [Some (VReal 1); Some (VReal 2); Some (VReal 30)],
          [Coords.centroid_warning "change_2001" [3%Z]]).
Proof. split; vm_compute; reflexivity. Qed.

(** ** The schema through the attribute pipeline *)

Section SchemaFacts.
Context {G : Type}.
Variable fr : Q → string.
(** The names a stretch of the pipeline may add. *)
Variable names : list string.
Import Store.
Implicit Types (t : table G) (f g : string).

(** Every field of [t'] is a field of [t] or one of [names]. *)
Definition adds_only (t t' : table G) : Prop :=
  ∀ f, f ∈ ListFields t' → f ∈ ListFields t ∨ f ∈ names.

Lemma adds_only_refl t : adds_only t t.
Proof. intros f Hf. by left. Qed.

Lemma adds_only_trans t1 t2 t3 :
  adds_only t1 t2 → adds_only t2 t3 → adds_only t1 t3.
Proof.
  intros H12 H23 f Hf. destruct (H23 f Hf) as [H2|?]; [|by right].
  by apply H12.
Qed.

Lemma adds_only_fields t t' : fields t' = fields t → adds_only t t'.
Proof. intros Hf f. unfold ListFields. rewrite Hf. by left. Qed.

Lemma adds_AddField t f ty : f ∈ names → adds_only t (AddField t f ty).
Proof.
  intros Hn g. rewrite ListFields_AddField. destruct (has_field t f); [by left|].
  intros [?|Hg%list_elem_of_singleton]%elem_of_app; [by left | right; by subst].
Qed.

Lemma adds_CalculateField t sel f ty expr t' :
  f ∈ names → CalculateField fr t sel f ty expr = Some t' → adds_only t t'.
Proof.
  intros Hn (ty' & _ & Hf & _)%CalculateField_inv.
  eapply adds_only_trans; [by apply adds_AddField | by apply adds_only_fields].
Qed.

Lemma ListFields_DeleteField t fs f :
  f ∈ ListFields (DeleteField t fs) ↔ f ∈ ListFields t ∧ f ∉ fs.
Proof.
  unfold ListFields, DeleteField. cbn [fields]. rewrite !list_elem_of_fmap.
  split.
  - intros ([g ty] & -> & [Hg Hin]%list_elem_of_filter). split; [|done].
    by exists (g, ty).
  - intros [([g ty] & -> & Hin) Hg]. exists (g, ty). split; [done|].
    by apply list_elem_of_filter.
Qed.

Lemma adds_DeleteField t fs : adds_only t (DeleteField t fs).
Proof. intros f [Hf _]%ListFields_DeleteField. by left. Qed.

(** A joined field is named after the field of the join table, with [_1]
    appended when that name is taken. *)
Lemma join_one_inv {H : Type} in_field (jt : table H) join_field t f t' :
  join_one in_field jt join_field t f = Some t' →
  ∃ ty, fields t' = (fields t ++ [(join_name (ListFields t) f, ty)])%list ∧
    Forall2 (λ r r', ∃ k, read in_field r = Some k ∧
               r' = set_attr (join_name (ListFields t) f)
                      (match join_match jt join_field k with
                       | Some j => default VNull (attrs j !! f)
                       | None => VNull
                       end) r)
      (rows t) (rows t').
Proof.
  unfold join_one. intros Hj.
  destruct (assoc (fields jt) f) as [ty|]; [|done]. cbn in Hj.
  destruct (mapM _ (rows t)) as [rows'|] eqn:Hm; [|done]. cbn in Hj.
  injection Hj as <-. exists ty. split; [done|]. cbn [rows].
  apply mapM_Some in Hm. eapply Forall2_impl; [|exact Hm].
  intros r r' Hr. cbv beta in Hr.
  destruct (read in_field r) as [k|]; [|done]. cbn in Hr.
  injection Hr as <-. by exists k.
Qed.

Lemma join_name_cases (l : list string) f :
  join_name l f = f ∨ join_name l f = f +:+ "_1".
Proof. unfold join_name. destruct (bool_decide _); auto. Qed.

Lemma adds_join_one {H : Type} in_field (jt : table H) join_field t f t' :
  f ∈ names → f +:+ "_1" ∈ names →
  join_one in_field jt join_field t f = Some t' → adds_only t t'.
Proof.
  intros Hn Hn1 (ty & Hf & _)%join_one_inv g. unfold ListFields. rewrite Hf.
  rewrite fmap_app. intros [?|Hg%list_elem_of_singleton]%elem_of_app; [by left|].
  right. cbn [fst] in Hg. subst g.
  by destruct (join_name_cases (ListFields t) f) as [->| ->].
Qed.

Lemma JoinField_nil {H : Type} t in_field (jt : table H) join_field :
  JoinField t in_field jt join_field [] = Some t.
Proof. done. Qed.

Lemma JoinField_cons {H : Type} t in_field (jt : table H) join_field f fs :
  JoinField t in_field jt join_field (f :: fs)
  = t1 ← join_one in_field jt join_field t f;
    JoinField t1 in_field jt join_field fs.
Proof.
  unfold JoinField. cbn [foldl]. cbn [mbind option_bind].
  destruct (join_one in_field jt join_field t f) as [t1|]; [done|].
  cbn. induction fs as [|g fs IH]; [done|]. cbn [foldl]. exact IH.
Qed.

Lemma adds_JoinField {H : Type} t in_field (jt : table H) join_field fs t' :
  (∀ f, f ∈ fs → f ∈ names ∧ f +:+ "_1" ∈ names) →
  JoinField t in_field jt join_field fs = Some t' → adds_only t t'.
Proof.
  revert t. induction fs as [|f fs IH]; intros t Hn Hj.
  - rewrite JoinField_nil in Hj. injection Hj as <-. apply adds_only_refl.
  - rewrite JoinField_cons in Hj.
    apply bind_Some in Hj as (t1 & H1 & Hj).
    destruct (Hn f) as [? ?]; [left|].
    apply (adds_only_trans t t1 t').
    + by apply (adds_join_one in_field jt join_field t f t1).
    + apply IH; [|done]. intros g Hg. apply Hn. by right.
Qed.

End SchemaFacts.

Section AttrSchemaFacts.
Context {G : Type}.
Variable fr : Q → string.
Variable names : list string.
Import Store Attrs.
Implicit Types (t : table G) (f g : string).

Lemma adds_rename_field t old_field new_field ty t' :
  new_field ∈ names →
  rename_field fr t old_field new_field ty = Some t' → adds_only names t t'.
Proof.
  intros Hn Hr. unfold rename_field in Hr.
  apply bind_Some in Hr as (t1 & H1 & Hr). injection Hr as <-.
  apply (adds_only_trans names t t1); [|apply adds_DeleteField].
  apply (adds_only_trans names t (AddField t new_field ty));
    [by apply adds_AddField | by eapply adds_CalculateField].
Qed.

Lemma adds_select_calculate t (select_fc : G → bool) field t' :
  field ∈ names →
  select_calculate fr t select_fc field = Some t' → adds_only names t t'.
Proof.
  intros Hn Hs. unfold select_calculate in Hs.
  apply bind_Some in Hs as (t1 & H1 & Hs).
  apply (adds_only_trans names t t1); by eapply adds_CalculateField.
Qed.

Lemma adds_AddSpatialJoin t field ty (join : G → option value) t' :
  field ∈ names → field +:+ "_1" ∈ names →
  AddSpatialJoin fr t field ty join = Some t' → adds_only names t t'.
Proof.
  intros Hn Hn1 Hs. unfold AddSpatialJoin in Hs.
  eapply adds_CalculateField; [|exact Hs].
  by destruct (join_name_cases (ListFields t) field) as [->| ->].
Qed.

Lemma adds_zonal_stats_rename_field t (rst : G → option value)
    zone_field stat_type field_name ty t' :
  stat_type ∈ names → stat_type +:+ "_1" ∈ names → field_name ∈ names →
  zonal_stats_rename_field fr t rst zone_field stat_type field_name ty = Some t' →
  adds_only names t t'.
Proof.
  intros Hs Hs1 Hn Hz. unfold zonal_stats_rename_field in Hz.
  apply bind_Some in Hz as (t1 & H1 & Hz).
  apply (adds_only_trans names t t1); [|by eapply adds_rename_field].
  eapply adds_JoinField; [|exact H1].
  intros f ->%list_elem_of_singleton. done.
Qed.

Lemma adds_add_zonal_geometry t zone_field geo t' :
  (∀ f, f ∈ ["THICKNESS"; "MAJORAXIS"; "MINORAXIS"; "ORIENTATION"] →
        f ∈ names ∧ f +:+ "_1" ∈ names) →
  add_zonal_geometry t zone_field geo = Some t' → adds_only names t t'.
Proof. intros Hn Hz. by eapply adds_JoinField. Qed.

Lemma adds_update_area_perim t t' :
  "area" ∈ names → "perim" ∈ names →
  Shape.update_area_perim fr t = Some t' → adds_only names t t'.
Proof.
  intros Ha Hp Hu. unfold Shape.update_area_perim in Hu.
  apply bind_Some in Hu as (t1 & H1 & Hu).
  apply (adds_only_trans names t t1);
    [eapply adds_CalculateField; [|exact H1] | eapply adds_CalculateField; [|exact Hu]];
    done.
Qed.

Lemma adds_clip_patches gdb t mmu t' :
  "area" ∈ names → "perim" ∈ names →
  clip_patches fr gdb t mmu = Some t' → adds_only names t t'.
Proof.
  intros Ha Hp Hc. unfold clip_patches in Hc.
  eapply adds_only_trans; [|by eapply adds_update_area_perim].
  by apply adds_only_fields.
Qed.

(** [add_veg_type] with or without a lookup table. *)
Lemma adds_add_veg_type t (veg_raster : G → option value) zone_field tbl t' :
  (∀ f, f ∈ ["MAJORITY"; "MAJORITY_1"; "Veg_value_text"; "VegValue"; "CODE";
             "CODE_1"; "VegCode"] → f ∈ names) →
  add_veg_type fr t veg_raster zone_field tbl = Some t' → adds_only names t t'.
Proof.
  intros Hn Hv. unfold add_veg_type in Hv.
  apply bind_Some in Hv as (t1 & H1 & Hv).
  apply bind_Some in Hv as (t2 & H2 & Hv).
  apply adds_zonal_stats_rename_field in H1; try (apply Hn; in_list).
  apply adds_CalculateField with (names := names) in H2; [|apply Hn; in_list].
  pose proof (adds_DeleteField names t2 ["Veg_value_text"]) as H3.
  assert (adds_only names (DeleteField t2 ["Veg_value_text"]) t') as H4.
  { destruct tbl as [tbl|].
    - apply bind_Some in Hv as (t3 & H3' & Hv).
      eapply adds_only_trans; [|eapply adds_rename_field; [|exact Hv]].
      + eapply adds_JoinField; [|exact H3'].
        intros f ->%list_elem_of_singleton. split; apply Hn; in_list.
      + apply Hn; in_list.
    - eapply adds_only_trans; [|eapply adds_CalculateField; [|exact Hv]].
      + apply adds_AddField. apply Hn; in_list.
      + apply Hn; in_list. }
  eauto using adds_only_trans.
Qed.

End AttrSchemaFacts.

Section CoordsSchemaFacts.
Context {G : Type}.
Variable fr : Q → string.
Variable central : crs → G → option (Q * Q).
Variable centroid : crs → G → Q * Q.
Variable names : list string.
Import Store Coords.
Implicit Types (t : table G) (f g : string).

Lemma fields_CalculateGeometryAttributes t sel m c fx fy :
  fields (CalculateGeometryAttributes central centroid t sel m c fx fy).1
  = fields (AddField (AddField t fx DOUBLE) fy DOUBLE).
Proof.
  unfold CalculateGeometryAttributes. by destruct (calc_rows _ _ _ _ _ _ _ _).
Qed.

Lemma adds_CalculateGeometryAttributes t sel m c fx fy :
  fx ∈ names → fy ∈ names →
  adds_only names t (CalculateGeometryAttributes central centroid t sel m c fx fy).1.
Proof.
  intros Hx Hy.
  apply (adds_only_trans names t (AddField (AddField t fx DOUBLE) fy DOUBLE)).
  - apply (adds_only_trans names t (AddField t fx DOUBLE)); by apply adds_AddField.
  - apply adds_only_fields, fields_CalculateGeometryAttributes.
Qed.

Lemma adds_add_utm_dd t sel m t' :
  (∀ f, f ∈ ["UTMX"; "UTMY"; "Longitude"; "Latitude"] → f ∈ names) →
  add_utm_dd central centroid t sel m = Some t' → adds_only names t t'.
Proof.
  intros Hn Hu. unfold add_utm_dd in Hu.
  pose proof (adds_CalculateGeometryAttributes t sel m UTM "UTMX" "UTMY") as H1.
  destruct (CalculateGeometryAttributes _ _ t sel m UTM _ _) as [t1 [|]]; [|done].
  pose proof (adds_CalculateGeometryAttributes t1 sel m DD "Longitude" "Latitude")
    as H2.
  destruct (CalculateGeometryAttributes _ _ t1 sel m DD _ _) as [t2 [|]]; [|done].
  injection Hu as <-. cbn [fst] in *.
  apply (adds_only_trans names t t1); [apply H1 | apply H2]; apply Hn; in_list.
Qed.

(** [add_albers] adds the two Albers coordinate fields at most, however
    often it calls itself. *)
Lemma adds_add_albers fuel fc_name t log a_id annual_ids res :
  "X_Coord_m" ∈ names → "Y_Coord_m" ∈ names →
  add_albers central centroid fuel fc_name (t, log) a_id annual_ids = Some res →
  adds_only names t res.2.1.
Proof.
  intros Hx Hy. revert t log a_id annual_ids res.
  induction fuel as [|fuel IH]; intros t log a_id annual_ids res H; [done|].
  cbn [add_albers] in H.
  apply bind_Some in H as (a_ids & _ & H).
  apply bind_Some in H as (max_aid & _ & H).
  match type of H with
  | context [?l (length (rows _)) 0%nat _ _] => set (cursor := l) in H
  end.
  assert (∀ n i ids (s : st) r, adds_only names t s.1 →
            cursor n i ids s = Some r → adds_only names t r.2.1) as Hloop.
  { clear H. induction n as [|n IHn]; intros i ids s r Hs Hl.
    - cbn in Hl. by injection Hl as <-.
    - cbn in Hl. destruct (rows s.1 !! i) as [row|]; [|by injection Hl as <-].
      apply bind_Some in Hl as (annual_id & _ & Hl).
      apply bind_Some in Hl as (x_coord & _ & Hl).
      destruct (isna x_coord); [|by eapply IHn].
      apply bind_Some in Hl as ([ids' s'] & Hrec & Hl).
      refine (IHn _ _ _ _ _ Hl).
      assert (adds_only names
                (CalculateGeometryAttributes central centroid s.1
                   (id_is annual_id) CENTROID Albers "X_Coord_m" "Y_Coord_m").1
                s'.1) as Hcall.
      { destruct ids as [[|]|]; destruct s'; by apply IH in Hrec. }
      pose proof (adds_CalculateGeometryAttributes s.1 (id_is annual_id)
                    CENTROID Albers "X_Coord_m" "Y_Coord_m" Hx Hy) as Hcga.
      apply (adds_only_trans names t s.1 s'.1 Hs).
      by apply (adds_only_trans names s.1 _ s'.1 Hcga). }
  assert (∀ sel ids,
            (let '(t1, ok) :=
               CalculateGeometryAttributes central centroid t sel INSIDE Albers
                 "X_Coord_m" "Y_Coord_m" in
             if ok then Some (ids, (t1, log))
             else cursor (length (rows t1)) 0%nat ids (t1, log)) = Some res →
            adds_only names t res.2.1) as Htry.
  { intros sel ids Ht.
    pose proof (adds_CalculateGeometryAttributes t sel INSIDE Albers
                  "X_Coord_m" "Y_Coord_m" Hx Hy) as Hcga.
    destruct (CalculateGeometryAttributes _ _ t sel _ _ _ _) as [t1 [|]].
    - by injection Ht as <-.
    - exact (Hloop _ _ _ (t1, log) res Hcga Ht). }
  destruct a_id as [a|]; [|by eapply Htry].
  destruct (negb (a =? 0)%Z); [|by eapply Htry].
  destruct (a =? max_aid)%Z; [|by eapply Htry].
  injection H as <-. apply adds_only_refl.
Qed.

Lemma adds_add_coords fc_name t log t' log' :
  (∀ f, f ∈ ["CoordType"; "X_Coord_m"; "Y_Coord_m"; "UTMX"; "UTMY";
             "Longitude"; "Latitude"; "Datum"] → f ∈ names) →
  add_coords fr central centroid fc_name (t, log) = Some (t', log') →
  adds_only names t t'.
Proof.
  intros Hn Hc. unfold add_coords in Hc.
  apply bind_Some in Hc as (t1 & H1 & Hc).
  apply bind_Some in Hc as ([ids [t2 log2]] & H2 & Hc).
  apply bind_Some in Hc as (t3 & H3 & Hc).
  apply bind_Some in Hc as (t4 & H4 & Hc). injection Hc as <- <-.
  apply adds_CalculateField with (names := names) in H1; [|apply Hn; in_list].
  apply adds_add_albers in H2; try (apply Hn; in_list). cbn [fst snd] in H2.
  apply adds_CalculateField with (names := names) in H4; [|apply Hn; in_list].
  assert (adds_only names t2 t3) as H3'.
  { assert (∀ f, f ∈ ["UTMX"; "UTMY"; "Longitude"; "Latitude"] → f ∈ names)
      as Hu.
    { intros f Hf. apply Hn. set_solver. }
    destruct ids as [[|id ids]|]; [done| |by eapply adds_add_utm_dd].
    apply bind_Some in H3 as (t5 & H5 & H3).
    apply bind_Some in H3 as (t6 & H6 & H3).
    apply adds_CalculateField with (names := names) in H5; [|apply Hn; in_list].
    apply adds_add_utm_dd in H6; [|done]. apply adds_add_utm_dd in H3; [|done].
    eauto using adds_only_trans. }
  pose proof (adds_AddField names t "CoordType" TEXT) as H0.
  pose proof (adds_AddField names t3 "Datum" TEXT) as H5.
  eapply adds_only_trans; [apply H0; apply Hn; in_list|].
  eapply adds_only_trans; [exact H1|].
  eapply adds_only_trans; [exact H2|].
  eapply adds_only_trans; [exact H3'|].
  eapply adds_only_trans; [apply H5; apply Hn; in_list|]. exact H4.
Qed.

End CoordsSchemaFacts.

(** The fields the attribute steps other than the mask step can add to the
    patches: their own names, and the [_1] names a join falls back to. *)
Definition attr_names : list string :=
  ["CoordType"; "X_Coord_m"; "Y_Coord_m"; "UTMX"; "UTMY"; "Longitude";
   "Latitude"; "Datum"; "area"; "perim"; "WildName"; "WildName_1"; "LandMgmt";
   "LandMgmt_1"; "Watershed"; "Watershed_1"; "InPark"; "InPark_1"; "InBuffer";
   "InBuffer_1"; "Protected"; "Protected_1"; "EastWest"; "EastWest_1";
   "MAJORITY"; "MAJORITY_1"; "Veg_value_text"; "VegValue"; "CODE"; "CODE_1";
   "VegCode"; "MEAN"; "MEAN_1"; "ElevMean"; "SlopeMean"; "Aspect";
   "THICKNESS"; "THICKNESS_1"; "MAJORAXIS"; "MAJORAXIS_1"; "MINORAXIS";
   "MINORAXIS_1"; "ORIENTATION"; "ORIENTATION_1"].

(** The fields the steps on the central points can add before Protected
    and EastWest. *)
Definition point_names : list string :=
  ["MANAGER"; "MANAGER_1"; "WildName"; "WildName_1"; "LandMgmt"; "NAME";
   "NAME_1"; "Watershed"; "InPark"; "InBuffer"].

(** Membership in a list of literals for each of a few literals. *)
Ltac in_lists :=
  let f := fresh "f" in let Hf := fresh "Hf" in
  intros f Hf; repeat (apply elem_of_cons in Hf as [->|Hf]);
  [try split; in_list.. | by apply elem_of_nil in Hf].

Section UniformSchemaFacts.
Context {G : Type}.
Variable fr : Q → string.
Import Store Attrs.
Implicit Types (t : table G) (f g : string).

Lemma adds_add_attrs_points t (pts : table pt) land_wild_fc watershed_fc
    park_fc buff_fc protected_fc east_west_fc zone_field t' :
  add_attrs_points fr t pts land_wild_fc watershed_fc park_fc buff_fc
    protected_fc east_west_fc zone_field = Some t' →
  adds_only attr_names t t'.
Proof.
  intros Ha. unfold add_attrs_points in Ha.
  apply bind_Some in Ha as (pts1 & _ & Ha).
  apply bind_Some in Ha as (pts2 & _ & Ha).
  apply bind_Some in Ha as (pts3 & _ & Ha).
  apply bind_Some in Ha as (pts4 & _ & Ha).
  apply bind_Some in Ha as (t1 & H1 & Ha).
  apply bind_Some in Ha as ([pts5 t2] & H2 & Ha).
  apply adds_JoinField with (names := attr_names) in H1; [|in_lists].
  assert (adds_only attr_names t1 t2) as H12.
  { destruct protected_fc as [protected_fc|], east_west_fc as [east_west_fc|];
      try (injection H2 as _ <-; apply adds_only_refl).
    apply bind_Some in H2 as (pts6 & _ & H2).
    destruct (bool_decide ("EastWest" ∈ ListFields pts4));
      apply bind_Some in H2 as (pts7 & _ & H2); injection H2 as _ <-;
      [apply adds_DeleteField | apply adds_only_refl]. }
  assert (adds_only attr_names t2 t') as H2'.
  { destruct (filter _ ["Protected"; "EastWest"]) as [|f fs] eqn:Hfs.
    - injection Ha as <-. apply adds_only_refl.
    - eapply adds_JoinField; [|exact Ha]. rewrite <- Hfs.
      intros g [_ Hg]%list_elem_of_filter. revert g Hg. in_lists. }
  eauto using adds_only_trans.
Qed.

(** After [del_existing_fields] none of the attribute fields is left. *)
Lemma del_existing_fields_spec t f :
  f ∈ ListFields (del_existing_fields t) ↔ f ∈ ListFields t ∧ f ∉ attr_fields.
Proof.
  unfold del_existing_fields. case_bool_decide as Hlen.
  - rewrite ListFields_DeleteField. split; intros [Hf Hn]; (split; [done|]).
    + intros Ha. apply Hn. by apply list_elem_of_filter.
    + intros [_ Ha]%list_elem_of_filter. done.
  - split; [|by intros [? _]]. intros Hf. split; [done|]. intros Ha.
    apply Hlen.
    assert (f ∈ filter (λ f, f ∈ ListFields t) attr_fields) as Hin
      by (by apply list_elem_of_filter).
    destruct (filter _ attr_fields); [by apply elem_of_nil in Hin | simpl; lia].
Qed.

(** Without the mask step, [add_attr_patches] leaves the fields that are
    no attribute fields and adds names of [attr_names] only. *)
Lemma adds_add_attr_patches (gdb : park_gdb G) fc_name t zone_field
    clip_patches_sa mmu log t' log' :
  AddAttr.add_attr_patches fr gdb (fc_name, t) zone_field "LEWI"
    clip_patches_sa mmu log = Some (t', log') →
  adds_only attr_names (del_existing_fields t) t'.
Proof.
  intros Ha. unfold AddAttr.add_attr_patches in Ha.
  rewrite !bool_decide_eq_false_2 in Ha by (by intros []).
  apply bind_Some in Ha as (t1 & H1 & Ha).
  apply bind_Some in Ha as ([t2 log2] & H2 & Ha).
  apply bind_Some in Ha as (t3 & H3 & Ha).
  apply bind_Some in Ha as (t4 & H4 & Ha). injection H4 as <-.
  apply bind_Some in Ha as (t5 & H5 & Ha).
  apply bind_Some in Ha as (t6 & H6 & Ha).
  apply bind_Some in Ha as (t7 & H7 & Ha).
  apply bind_Some in Ha as (t8 & H8 & Ha).
  apply bind_Some in Ha as (t9 & H9 & Ha). injection Ha as <- <-.
  assert (adds_only attr_names (del_existing_fields t) t1) as H1'.
  { destruct clip_patches_sa.
    - eapply adds_clip_patches; [| |exact H1]; in_list.
    - injection H1 as <-. apply adds_only_refl. }
  apply adds_add_coords with (names := attr_names) in H2; [|in_lists].
  apply adds_add_attrs_points in H3.
  apply adds_add_veg_type with (names := attr_names) in H5; [|in_lists].
  apply adds_zonal_stats_rename_field with (names := attr_names) in H6;
    [|in_list..].
  apply adds_zonal_stats_rename_field with (names := attr_names) in H7;
    [|in_list..].
  apply adds_zonal_stats_rename_field with (names := attr_names) in H8;
    [|in_list..].
  apply adds_add_zonal_geometry with (names := attr_names) in H9; [|in_lists].
  eauto 10 using adds_only_trans.
Qed.

Lemma join_match_elem {H : Type} (jt : table H) join_field k j :
  join_match jt join_field k = Some j → j ∈ rows jt.
Proof.
  unfold join_match. destruct (isna k); [done|].
  intros Hh. apply head_Some_elem_of in Hh.
  by apply list_elem_of_filter in Hh as [_ ?].
Qed.

(** Joining a field that is null in every row of the join table, under a
    name that is free: the field is added, null in every row. *)
Lemma join_one_null {H : Type} in_field (jt : table H) join_field t f t' :
  f ∉ ListFields t →
  Forall (λ j, attrs j !! f = Some VNull) (rows jt) →
  join_one in_field jt join_field t f = Some t' →
  ListFields t' = (ListFields t ++ [f])%list ∧
  Forall2 (λ r r', r' = set_attr f VNull r) (rows t) (rows t').
Proof.
  intros Hf Hnull (ty & Hfields & Hrows)%join_one_inv.
  assert (join_name (ListFields t) f = f) as Hname.
  { unfold join_name. by rewrite bool_decide_eq_false_2. }
  rewrite Hname in *. split.
  - unfold ListFields. by rewrite Hfields, fmap_app.
  - eapply Forall2_impl; [|exact Hrows]. intros r r' (k & _ & ->).
    destruct (join_match jt join_field k) as [j|] eqn:Hj; [|done].
    apply join_match_elem in Hj.
    rewrite Forall_forall in Hnull. rewrite (Hnull j); [done|].
    by apply list_elem_of_In.
Qed.

Lemma adds_points (pts : table pt) land_wild_fc watershed_fc park_fc buff_fc
    pts1 pts2 pts3 pts4 :
  add_land_mgmt_wild fr land_wild_fc pts = Some pts1 →
  add_watershed fr watershed_fc pts1 = Some pts2 →
  select_calculate fr pts2 (at_pt false park_fc) "InPark" = Some pts3 →
  select_calculate fr pts3 (at_pt false buff_fc) "InBuffer" = Some pts4 →
  adds_only point_names pts pts4.
Proof.
  intros H1 H2 H3 Hp.
  unfold add_land_mgmt_wild in H1.
  apply bind_Some in H1 as (p1 & Hp1 & H1).
  apply bind_Some in H1 as (p2 & Hp2 & H1).
  unfold add_watershed in H2.
  apply bind_Some in H2 as (p3 & Hp3 & H2).
  apply adds_AddSpatialJoin with (names := point_names) in Hp1; [|in_list..].
  apply adds_AddSpatialJoin with (names := point_names) in Hp2; [|in_list..].
  apply adds_rename_field with (names := point_names) in H1; [|in_list].
  apply adds_AddSpatialJoin with (names := point_names) in Hp3; [|in_list..].
  apply adds_rename_field with (names := point_names) in H2; [|in_list].
  apply adds_select_calculate with (names := point_names) in H3; [|in_list].
  apply adds_select_calculate with (names := point_names) in Hp; [|in_list].
  eauto 10 using adds_only_trans.
Qed.

(** A patch whose Protected and EastWest are there and null. *)
Definition left_null (r : feature G) : Prop :=
  attrs r !! "Protected" = Some VNull ∧ attrs r !! "EastWest" = Some VNull.

(** When the protected-areas or the east-west layer is omitted,
    [add_attrs_points] adds Protected and EastWest and leaves them null. *)
Lemma add_attrs_points_omitted t (pts : table pt) land_wild_fc watershed_fc
    park_fc buff_fc protected_fc east_west_fc zone_field t' :
  protected_fc = None ∨ east_west_fc = None →
  (∀ f, f ∈ ["Protected"; "EastWest"] →
        (f ∉ ListFields t) ∧ (f ∉ ListFields pts)) →
  add_attrs_points fr t pts land_wild_fc watershed_fc park_fc buff_fc
    protected_fc east_west_fc zone_field = Some t' →
  "Protected" ∈ ListFields t' ∧ "EastWest" ∈ ListFields t' ∧
  Forall left_null (rows t').
Proof.
  intros Hnone Hfree Ha.
  destruct (Hfree "Protected") as [HPt HPp]; [in_list|].
  destruct (Hfree "EastWest") as [HEt HEp]; [in_list|].
  unfold add_attrs_points in Ha.
  apply bind_Some in Ha as (pts1 & Hp1 & Ha).
  apply bind_Some in Ha as (pts2 & Hp2 & Ha).
  apply bind_Some in Ha as (pts3 & Hp3 & Ha).
  apply bind_Some in Ha as (pts4 & H4 & Ha).
  apply bind_Some in Ha as (t1 & H1 & Ha).
  apply bind_Some in Ha as ([pts5 t2] & H2 & Ha).
  assert (pts5 = AddField (AddField pts4 "Protected" SHORT) "EastWest" TEXT
          ∧ t2 = t1 ∧ ("Protected" ∉ ListFields pts4)
          ∧ ("EastWest" ∉ ListFields pts4)) as (-> & -> & HP4 & HE4).
  { apply (adds_points _ _ _ _ _ _ _ _ _ Hp1 Hp2 Hp3) in H4.
    assert ("Protected" ∉ ListFields pts4) as HP4.
    { intros [?|Hin]%H4; [done|]. revert Hin. by apply (bool_decide_unpack _). }
    assert ("EastWest" ∉ ListFields pts4) as HE4.
    { intros [?|Hin]%H4; [done|]. revert Hin. by apply (bool_decide_unpack _). }
    destruct Hnone as [-> | ->]; [|destruct protected_fc];
      rewrite !bool_decide_eq_true_2 in H2 by done;
      by injection H2 as <- <-. }
  rewrite !filter_cons_True, filter_nil in Ha by done.
  rewrite JoinField_cons in Ha. apply bind_Some in Ha as (ta & HjP & Ha).
  rewrite JoinField_cons in Ha. apply bind_Some in Ha as (tb & HjE & Ha).
  rewrite JoinField_nil in Ha. injection Ha as <-.
  assert (Forall (λ j : feature pt,
                    attrs j !! "Protected" = Some VNull
                    ∧ attrs j !! "EastWest" = Some VNull)
            (rows (AddField (AddField pts4 "Protected" SHORT) "EastWest" TEXT)))
    as Hnull.
  { assert (has_field pts4 "Protected" = false) as HhP
      by (by apply bool_decide_eq_false_2).
    assert (has_field (AddField pts4 "Protected" SHORT) "EastWest" = false) as Hh.
    { apply bool_decide_eq_false. rewrite ListFields_AddField, HhP.
      intros [?|Hin%list_elem_of_singleton]%elem_of_app; done. }
    unfold AddField at 1. rewrite Hh. cbn [rows].
    unfold AddField. rewrite HhP. cbn [rows]. rewrite <- list_fmap_compose.
    apply Forall_fmap, Forall_forall. intros j _. unfold compose. cbn [attrs set_attr].
    split; [rewrite lookup_insert_ne by done|]; apply lookup_insert_eq. }
  assert ("Protected" ∉ ListFields t1) as HP1.
  { apply adds_JoinField
      with (names := ["WildName"; "WildName_1"; "LandMgmt"; "LandMgmt_1";
                      "Watershed"; "Watershed_1"; "InPark"; "InPark_1";
                      "InBuffer"; "InBuffer_1"]) in H1; [|in_lists].
    intros [?|Hin]%H1; [done|]. revert Hin. by apply (bool_decide_unpack _). }
  assert ("EastWest" ∉ ListFields t1) as HE1.
  { apply adds_JoinField
      with (names := ["WildName"; "WildName_1"; "LandMgmt"; "LandMgmt_1";
                      "Watershed"; "Watershed_1"; "InPark"; "InPark_1";
                      "InBuffer"; "InBuffer_1"]) in H1; [|in_lists].
    intros [?|Hin]%H1; [done|]. revert Hin. by apply (bool_decide_unpack _). }
  apply join_one_null in HjP as [HfP HrP]; [|done|];
    [|eapply Forall_impl; [|exact Hnull]; by intros j [? ?]].
  apply join_one_null in HjE as [HfE HrE];
    [| |eapply Forall_impl; [|exact Hnull]; by intros j [? ?]].
  - rewrite HfE, HfP. split; [set_solver|]. split; [set_solver|].
    apply Forall_forall. intros r'' Hin. apply list_elem_of_In in Hin.
    apply list_elem_of_lookup in Hin as [i Hi].
    destruct (Forall2_lookup_r _ _ _ _ _ HrE Hi) as (r' & Hi' & ->).
    destruct (Forall2_lookup_r _ _ _ _ _ HrP Hi') as (r & _ & ->).
    split; cbn [attrs set_attr];
      [rewrite lookup_insert_ne by done|]; apply lookup_insert_eq.
  - rewrite HfP. intros [?|Hin%list_elem_of_singleton]%elem_of_app; done.
Qed.

(** Without a lookup table, [add_veg_type] derives VegCode from the raster
    value: "L" and the value, with a 0 before a single digit.  It is never
    null. *)
Lemma add_veg_type_no_table t (veg_raster : G → option value) zone_field t' :
  add_veg_type fr t veg_raster zone_field None = Some t' →
  "VegCode" ∈ ListFields t' ∧
  Forall (λ r, ∃ z, attrs r !! "VegValue" = Some (VInt z) ∧
            attrs r !! "VegCode"
            = Some (VText ((if (z <? 10)%Z then "L0" else "L") +:+ pretty z)))
         (rows t').
Proof.
  intros Hv. unfold add_veg_type in Hv.
  apply bind_Some in Hv as (t1 & _ & Hv).
  apply bind_Some in Hv as (t2 & _ & Hv).
  apply CalculateField_inv in Hv as (ty' & Hty & Hf & Hrows).
  split.
  - unfold ListFields at 1. rewrite Hf. fold (ListFields (AddField
      (AddField (DeleteField t2 ["Veg_value_text"]) "VegCode" TEXT) "VegCode" TEXT)).
    pose proof (has_field_AddField
      (AddField (DeleteField t2 ["Veg_value_text"]) "VegCode" TEXT) "VegCode" TEXT)
      as Hh.
    by apply bool_decide_eq_true in Hh.
  - apply Forall_forall. intros r' Hin. apply list_elem_of_In in Hin.
    apply list_elem_of_lookup in Hin as [i Hi].
    destruct (Forall2_lookup_r _ _ _ _ _ Hrows Hi) as (r & _ & Hc).
    unfold calculated in Hc. destruct Hc as (v & v' & He & Hco & ->).
    apply bind_Some in He as (id & Hid & He). unfold read in Hid.
    destruct id as [| z | |]; try done. cbn in He. injection He as <-.
    exists z.
    assert ("VegCode" ≠ "VegValue") as Hne by done.
    cbn [attrs set_attr]. rewrite lookup_insert_ne by done. split; [done|].
    rewrite lookup_insert_eq. f_equal.
    unfold coerce in Hco. destruct (is_numeric ty'); [|by injection Hco as <-].
    apply fmap_Some in Hco as (n & Hn & _). exfalso. revert Hn.
    destruct (z <? 10)%Z; done.
Qed.

End UniformSchemaFacts.

Section OmittedLayers.
Context {G : Type}.
Variable fr : Q → string.
Import Store Attrs.

(** C6, as the code has it.  When the protected-areas or the east-west
    layer is omitted, [add_attrs_points] still adds Protected and EastWest
    and leaves them null in every patch.  Without a vegetation lookup table
    [add_veg_type] still adds VegCode, but fills it: "L" and the raster
    value, with a 0 before a single digit.  For the park without a mask the
    mask step is skipped, and the enriched patches have no InMask field. *)
Theorem omitted_layers_schema :
  (∀ (t : table G) (pts : table pt) land_wild_fc watershed_fc park_fc buff_fc
     protected_fc east_west_fc zone_field t',
     protected_fc = None ∨ east_west_fc = None →
     (∀ f, f ∈ ["Protected"; "EastWest"] →
           (f ∉ ListFields t) ∧ (f ∉ ListFields pts)) →
     add_attrs_points fr t pts land_wild_fc watershed_fc park_fc buff_fc
       protected_fc east_west_fc zone_field = Some t' →
     "Protected" ∈ ListFields t' ∧ "EastWest" ∈ ListFields t' ∧
     Forall left_null (rows t')) ∧
  (∀ (t : table G) veg_raster zone_field t',
     add_veg_type fr t veg_raster zone_field None = Some t' →
     "VegCode" ∈ ListFields t' ∧
     Forall (λ r, ∃ z, attrs r !! "VegValue" = Some (VInt z) ∧
               attrs r !! "VegCode"
               = Some (VText ((if (z <? 10)%Z then "L0" else "L") +:+ pretty z)))
            (rows t')) ∧
  (∀ (gdb : park_gdb G) fc_name (t : table G) zone_field clip_patches_sa mmu
     log t' log',
     AddAttr.add_attr_patches fr gdb (fc_name, t) zone_field "LEWI"
       clip_patches_sa mmu log = Some (t', log') →
     "InMask" ∉ ListFields t').
Proof.
  split; [|split].
  - intros. by eapply add_attrs_points_omitted.
  - intros. by eapply add_veg_type_no_table.
  - intros gdb fc_name t zone_field clip_patches_sa mmu log t' log' Ha Hin.
    apply adds_add_attr_patches in Ha. apply Ha in Hin as [Hin|Hin].
    + apply del_existing_fields_spec in Hin as [_ Hin]. apply Hin. in_list.
    + revert Hin. by apply (bool_decide_unpack _).
Qed.

End OmittedLayers.

(** ** A sample park *)

(** A park geodatabase over shapes named by a number. *)
Definition sample_gdb : park_gdb Z := {|
  central := λ _ g, Some (inject_Z g, inject_Z (g + 100));
  centroid := λ _ g, (inject_Z (g * 10), inject_Z (g * 10 + 100));
  clip_study_area := λ g, Some g;
  shape_area := λ g, inject_Z (g * 1000);
  shape_length := λ g, inject_Z (g * 100);
  land_mgmt_wild := λ _, Some (VText "NPS", VText "Mount Rainier Wilderness");
  watershed := λ _, Some (VText "Nisqually");
  park_bndry := λ _, true;
  buff := λ _, false;
  protected := λ _, true;
  east_west := λ _, Some (VText "West");
  mask := λ _, false;
  water := λ _, false;
  veg_rst := λ _, Some (VText "9");
  dem_rst := λ _, Some (VReal 1500);
  slope_rst := λ _, Some (VReal 12);
  aspect_rst := λ _, Some (VInt 3);
  veg_type_tbl :=
    Table [("MCID", LONG); ("CODE", TEXT)]
      [Feature tt (<["CODE" := VText "C09"]> {["MCID" := VInt 9]})];
  zonal_geometry := λ _, Some (1, 2, 3, 4)%Q
|}.

(** The attributes of a year of patches, for a park. *)
Definition enriched (park : string) : option (table Z * list msg) :=
  AddAttr.add_attr_patches (λ _, "") sample_gdb
    ("change_2001", year_patches 2001 [1; 2]%Z) "annualID" park false 5 [].

Lemma is_Some_default {A : Type} (x : option A) (d : A) :
  bool_decide (is_Some x) = true → x = Some (default d x).
Proof. intros [a ->]%bool_decide_eq_true. done. Qed.

Lemma omitted_layers_schema_witness :
  "InMask" ∉ Store.ListFields (default (year_patches 2001 [], []) (enriched "LEWI")).1.
Proof.
  destruct (@omitted_layers_schema Z (λ _, "")) as (_ & _ & Hmask).
  apply (Hmask sample_gdb "change_2001" (year_patches 2001 [1; 2]%Z) "annualID"
           false 5%Z [] _
           (default (year_patches 2001 [], []) (enriched "LEWI")).2).
  rewrite <- surjective_pairing. apply is_Some_default.
  vm_compute. reflexivity.
Defined.

(** C6 as worded fails on the code.  After the enrichment the patches of
    LEWI, the park without the layers, have no InMask field, which the
    patches of another park have; their VegCode is not null but "L09"; their
    Protected and EastWest are null. *)
Lemma uniform_schema_counterexample :
  bool_decide ("InMask" ∈ Store.ListFields
     (default (year_patches 2001 [], []) (enriched "LEWI")).1) = false ∧
  bool_decide ("InMask" ∈ Store.ListFields
     (default (year_patches 2001 [], []) (enriched "MORA")).1) = true ∧
  (λ r, (attrs r !! "VegCode", attrs r !! "InMask", attrs r !! "Protected",
         attrs r !! "EastWest"))
    <$> rows (default (year_patches 2001 [], []) (enriched "LEWI")).1
  = [(Some (VText "L09"), None, Some VNull, Some VNull);
     (Some (VText "L09"), None, Some VNull, Some VNull)].
Proof. split_and!; vm_compute; reflexivity. Qed.

(** Two years of patches through AddAttributesToPatches.py: the patches of
    the first year and the patch of the second year that lies over none of
    them end with a null OverlapPrv. *)
Definition two_years (park : string) : option (table Z * list msg) :=
  AddAttr.add_attributes_to_patches (λ _, "") (λ _ _, Some (VReal 1)) lies_over
    "2024-05-01" sample_gdb "annualID" park false 5 false
    [("change_2001", year_patches 2001 [1; 2]%Z);
     ("change_2002", year_patches 2002 [11; 13]%Z)].

Example two_years_OverlapPrv :
  (λ s : table Z * list msg, OverlapPrv <$> rows s.1) <$> two_years "MORA"
  = Some [Some VNull; Some VNull; Some (VInt 1); Some VNull].
Proof. vm_compute. reflexivity. Qed.

(** * Further properties *)

(** ** What each validation check decides *)

Section CheckVerdicts.
Context {G : Type}.
Variable change_types : list string.
Import ExpPatches ExpTools.
Implicit Types (df : frame) (r : gmap string cellv).

Lemma forallb_false_elem {A : Type} (f : A → bool) (l : list A) :
  forallb f l = false ↔ ∃ x, x ∈ l ∧ f x = false.
Proof.
  induction l as [|a l IH]; cbn [forallb].
  - split; [done|]. by intros (x & Hx%elem_of_nil & _).
  - rewrite andb_false_iff, IH. split.
    + intros [Ha|(x & Hx & Hf)]; [exists a; split; [left|done]|].
      exists x. split; [by right|done].
    + intros (x & [->|Hx]%elem_of_cons & Hf); [by left|]. right. by exists x.
Qed.

Lemma length_pos_elem {A : Type} (l : list A) :
  (0 < length l)%nat ↔ ∃ x, x ∈ l.
Proof.
  destruct l as [|a l]; cbn.
  - split; [lia|]. by intros (x & Hx%elem_of_nil).
  - split; [|lia]. intros _. exists a. left.
Qed.

(** A value the check lists as a mismatch: anything but [None], the blank
    and the change types of the lookup table. *)
Definition outside (v : cellv) : bool :=
  negb (bool_decide (v = CNone))
  && negb (in_values (change_types ++ [" "])%list v).

Lemma mismatch_pair_outside r col :
  (mismatch_pair (change_types ++ [" "])%list col "PatchName" r).1 ≠ CNone
  ↔ outside (cell r col) = true.
Proof.
  unfold mismatch_pair, outside.
  destruct (in_values _ (cell r col)); cbn [negb fst].
  - rewrite andb_false_r. split; [by intros []|done].
  - rewrite andb_true_r. case_bool_decide; cbn [negb]; split; done.
Qed.

Lemma three_outcomes (b1 b2 b3 : bool) (S1 S2 S3 : Prop) :
  (b1 = false ↔ S1) → (b2 = true ↔ S2) → (b3 = true ↔ S3) →
  let res : result bool :=
    if b1 then Ok false else if b2 then Raised TypeError
    else if b3 then Ok true else Ok false in
  (res = Ok false ↔ ¬ S1 ∨ (¬ S2 ∧ ¬ S3)) ∧
  (res = Raised TypeError ↔ S1 ∧ S2) ∧
  (res = Ok true ↔ S1 ∧ ¬ S2 ∧ S3).
Proof. intros H1 H2 H3. destruct b1, b2, b3; cbn; intuition congruence. Qed.

(** X1. [check_change_types] has three outcomes.  When every ChangeType is
    null it passes, whatever the AltTypes hold.  Otherwise, when some row
    holds [pd.NA] as its ChangeType or AltType, it raises TypeError, having
    said nothing.  Otherwise it refuses the export exactly when some row has
    a ChangeType or an AltType that is neither [None], nor blank, nor in the
    lookup table. *)
Theorem check_change_types_verdict df :
  let res := check_change_types change_types df in
  let some_change_type :=
    ∃ r, r ∈ data df ∧ pd_isna (cell r "ChangeType") = false in
  let some_NA :=
    ∃ r, r ∈ data df ∧ (cell r "ChangeType" = CNA ∨ cell r "AltType" = CNA) in
  let some_outside :=
    ∃ r, r ∈ data df ∧
         (outside (cell r "ChangeType") = true
          ∨ outside (cell r "AltType") = true) in
  (res.2 = Ok false ↔ ¬ some_change_type ∨ (¬ some_NA ∧ ¬ some_outside)) ∧
  (res.2 = Raised TypeError ↔ some_change_type ∧ some_NA) ∧
  (res.2 = Ok true ↔ some_change_type ∧ ¬ some_NA ∧ some_outside) ∧
  (∀ e, res.2 = Raised e → e = TypeError ∧ res.1 = []).
Proof.
  cbv zeta.
  assert (∀ e, (check_change_types change_types df).2 = Raised e →
               e = TypeError ∧ (check_change_types change_types df).1 = [])
    as Hraised.
  { intros e He. by destruct (check_change_types_Raised change_types df e He)
      as (? & _ & ?). }
  assert ((check_change_types change_types df).2
          = if forallb (λ r, pd_isna (cell r "ChangeType")) (data df)
            then Ok false
            else if has_NA "ChangeType" (data df) || has_NA "AltType" (data df)
            then Raised TypeError
            else if bool_decide (0 < length (mismatches_of change_types df))%nat
            then Ok true else Ok false) as Hres.
  { rewrite check_change_types_eq. destruct (forallb _ _); [done|].
    destruct (_ || _); [done|]. by destruct (bool_decide _). }
  assert (has_NA "ChangeType" (data df) || has_NA "AltType" (data df) = true
          ↔ ∃ r, r ∈ data df ∧
              (cell r "ChangeType" = CNA ∨ cell r "AltType" = CNA)) as HNA.
  { rewrite orb_true_iff, !has_NA_elem. naive_solver. }
  assert (bool_decide (0 < length (mismatches_of change_types df))%nat = true
          ↔ ∃ r, r ∈ data df ∧
              (outside (cell r "ChangeType") = true
               ∨ outside (cell r "AltType") = true)) as Hmis.
  { rewrite bool_decide_eq_true, length_pos_elem. unfold mismatches_of. split.
    - intros (m & [Hm|Hm]%elem_of_app);
        apply list_elem_of_filter in Hm as [Hna (r & -> & Hr)%list_elem_of_fmap];
        exists r; (split; [done|]); [left|right];
        by apply mismatch_pair_outside.
    - intros (r & Hr & [Ho|Ho]); eexists; apply elem_of_app; [left|right];
        (apply list_elem_of_filter; split;
         [|apply list_elem_of_fmap; exists r; split; [reflexivity|done]]);
        by apply mismatch_pair_outside. }
  destruct (three_outcomes _ _ _ _ _ _
              (forallb_false_elem (λ r, pd_isna (cell r "ChangeType")) (data df))
              HNA Hmis) as (Ha & Hb & Hc).
  rewrite Hres. split_and!; [exact Ha | exact Hb | exact Hc |].
  rewrite <- Hres. exact Hraised.
Qed.

Lemma filter_two_inv {A : Type} (P : A → Prop) `{∀ x, Decision (P x)}
    (l : list A) :
  (1 < length (filter P l))%nat →
  ∃ i j a b, i ≠ j ∧ l !! i = Some a ∧ l !! j = Some b ∧ P a ∧ P b.
Proof.
  induction l as [|x l IH]; [cbn; lia|].
  rewrite filter_cons. destruct (decide (P x)) as [Hx|Hx].
  - cbn [length]. intros Hlen.
    assert (∃ b, b ∈ filter P l) as (b & [Hb Hin]%list_elem_of_filter).
    { apply length_pos_elem. lia. }
    apply list_elem_of_lookup in Hin as [j Hj].
    by exists 0%nat, (S j), x, b.
  - intros (i & j & a & b & Hij & Hi & Hj & Ha & Hb)%IH.
    exists (S i), (S j), a, b. split; [lia|done].
Qed.

(** X2. [check_duplicate_patch_names] refuses the export exactly when two
    different rows carry the same PatchName, two null PatchNames included. *)
Theorem check_duplicate_patch_names_verdict df :
  (check_duplicate_patch_names df).2 = true ↔
  ∃ i j ri rj, i ≠ j ∧ data df !! i = Some ri ∧ data df !! j = Some rj ∧
               cell ri "PatchName" = cell rj "PatchName".
Proof.
  split.
  - rewrite check_duplicate_patch_names_eq. case_bool_decide as Hlen; [|done].
    intros _. rewrite length_fmap in Hlen.
    apply length_pos_elem in Hlen as (r & [Hd Hr]%list_elem_of_filter).
    unfold duplicated in Hd. apply bool_decide_eq_true in Hd.
    apply filter_two_inv in Hd as (i & j & a & b & Hij & Hi & Hj & Ha & Hb).
    exists i, j, a, b. split_and!; [done..|]. congruence.
  - intros (i & j & ri & rj & Hij & Hi & Hj & Hname).
    by destruct (check_duplicate_patch_names_found df i j ri rj) as [? _].
Qed.

(** X3. [check_fields_have_values] refuses the export exactly when one of
    the checked fields is null or blank in some row; a frame without rows
    passes. *)
Theorem check_fields_have_values_verdict df (value_fields : list string) :
  (check_fields_have_values df value_fields).2 = true ↔
  ∃ field r, field ∈ value_fields ∧ r ∈ data df ∧
    (pd_isna (cell r field) = true ∨ cell r field = CText " ").
Proof.
  split.
  - rewrite check_fields_have_values_eq. case_bool_decide as Hlen; [|done].
    intros _.
    apply length_pos_elem in Hlen as (field & [Hm Hf]%list_elem_of_filter).
    exists field.
    apply orb_true_iff in Hm as [(r & Hr & Hv)%existsb_exists
                                |(r & Hr & Hv)%existsb_exists];
      exists r; (split; [done|]); (split; [by apply list_elem_of_In|]);
      [by left|right].
    destruct (cell r field) as [| | | | |s]; try done.
    cbn in Hv. by apply String.eqb_eq in Hv as ->.
  - intros (field & r & Hf & Hr & Hv).
    destruct (check_fields_have_values_missing df value_fields field r)
      as [? _]; [done..| |done].
    destruct Hv as [-> | ->]; [done|]. by rewrite orb_true_r.
Qed.

(** X4. [check_confidence] refuses the export exactly when some row with an
    EventType (neither null nor blank) has a Confidence that is a number
    outside [1,3], or, when exporting for GEE, has a Confidence below 3, an
    EventType other than "Mask" and no AltType.  A null Confidence is never
    out of range. *)
Theorem check_confidence_verdict df (only_values : bool) :
  (check_confidence df only_values).2 = true ↔
  ∃ r, r ∈ data df ∧ is_event r = true ∧
    (out_of_range r = true
     ∨ (only_values = false ∧ lt_int (cell r "Confidence") 3 = true
        ∧ cell_eq (cell r "EventType") (CText "Mask") = false
        ∧ pd_isna (cell r "AltType") = true)).
Proof.
  split.
  - rewrite check_confidence_eq. case_bool_decide as Hev; [done|].
    cbn zeta.
    assert ((0 < length (con_ck_of df))%nat →
            ∃ r, r ∈ data df ∧ is_event r = true ∧ out_of_range r = true) as Hck.
    { intros (r & [Hc [He Hr]%list_elem_of_filter]%list_elem_of_filter)%length_pos_elem.
      by exists r. }
    destruct only_values; cbn [negb].
    + cbn [snd]. intros Hb%bool_decide_eq_true.
      destruct (Hck Hb) as (r & ? & ? & ?). exists r. auto.
    + case_bool_decide as Halt; cbn [snd].
      * intros _. unfold conf_alttype_patches_of in Halt.
        rewrite length_fmap in Halt.
        apply length_pos_elem in Halt as (r & [Ha Hr]%list_elem_of_filter).
        apply list_elem_of_filter in Hr as [Hc Hr].
        apply list_elem_of_filter in Hr as [He Hr].
        apply andb_true_iff in Hc as [Hlt Hm%negb_true_iff].
        exists r. split; [done|]. split; [done|]. right. done.
      * intros Hb%bool_decide_eq_true.
        destruct (Hck Hb) as (r & ? & ? & ?). exists r. auto.
  - intros (r & Hr & He & [Ho|(-> & Hlt & Hm & Ha)]).
    + by destruct (check_confidence_range df only_values r) as [? _].
    + by destruct (check_confidence_alttype df r) as [? _].
Qed.

End CheckVerdicts.

(** ** The export driver, when a CSV export is refused *)

Section DriverFacts.
Context {G : Type}.
Variable change_types : list string.
Variable shp_folder_of : string → string → string.
Variable csv_path_of : string → string.
Import ExpPatches ExpTools.







End DriverFacts.



(** ** Reading and cleaning the attribute table *)

Section FrameFacts.
Context {G : Type}.
Import Store ExpPatches.

Lemma lookup_list_to_map_fmap (g : string → cellv) (l : list string) (f : string) :
  (list_to_map ((λ f, (f, g f)) <$> l) : gmap string cellv) !! f
  = if bool_decide (f ∈ l) then Some (g f) else None.
Proof.
  induction l as [|a l IH]; [done|]. cbn [fmap list_fmap list_to_map foldr].
  destruct (decide (a = f)) as [->|Hne].
  - rewrite lookup_insert_eq. rewrite bool_decide_eq_true_2; [done|left].
  - rewrite lookup_insert_ne by done. rewrite IH.
    destruct (decide (f ∈ l)) as [Hin|Hin].
    + rewrite !bool_decide_eq_true_2; [done|by right|done].
    + rewrite !bool_decide_eq_false_2; [done| |done].
      intros [->|?]%elem_of_cons; done.
Qed.

(** A cursor value is a null in the frame exactly when it is a null in the
    feature class, whatever the type of the column. *)
Lemma to_cell_isna (float_column : bool) (v : value) :
  pd_isna (to_cell float_column v) = isna v.
Proof. by destruct float_column, v. Qed.

(** A column is float64 exactly when it has no text, has a number, and has a
    null or a float. *)
Lemma is_float_column_spec (vs : list value) :
  is_float_column vs = true ↔
  (∀ s, VText s ∉ vs) ∧ (∃ v, v ∈ vs ∧ (∃ z, v = VInt z) ∨ v ∈ vs ∧ ∃ q, v = VReal q)
  ∧ (VNull ∈ vs ∨ ∃ q, VReal q ∈ vs).
Proof.
  unfold is_float_column. rewrite !andb_true_iff, forallb_forall, !existsb_exists.
  split.
  - intros [[Ht (v & Hv & Hn)] (w & Hw & Hf)]. split_and!.
    + intros s Hs%list_elem_of_In. by apply Ht in Hs.
    + exists v. apply list_elem_of_In in Hv. destruct v; try done; eauto.
    + apply list_elem_of_In in Hw. destruct w; try done; eauto.
  - intros (Ht & (v & Hv) & Hf). split_and!.
    + intros [| | |s] Hin%list_elem_of_In; try done. by apply Ht in Hin.
    + exists v. destruct Hv as [[Hin [z ->]]|[Hin [q ->]]];
        by split; [apply list_elem_of_In|].
    + destruct Hf as [Hin|[q Hin]]; eexists; by split; [apply list_elem_of_In|].
Qed.

(** X6. [extract_data] returns a frame with exactly the requested columns,
    in the requested order, and one row per feature in table order.  A
    requested field that the feature class lacks holds [pd.NA] in every row.
    A requested field that the feature class has holds the feature's value
    as pandas types its column: in a column of numbers that holds a null or
    a float (float64), an integer becomes a float and a null becomes [nan];
    in any other column an integer, a text and a null ([None]) are kept.
    Nothing else is in a row, and a cell is null exactly when the field is
    missing or the feature has no value for it.  The warning about missing
    fields is issued exactly when a requested field is missing, and nothing
    else is logged. *)
Theorem extract_data_frame (patches_fc : table G) (patches_fields : list string) :
  let res := extract_data patches_fc patches_fields in
  let float64 f :=
    is_float_column ((λ r, default VNull (attrs r !! f)) <$> rows patches_fc) in
  columns res.2 = patches_fields ∧
  length (data res.2) = length (rows patches_fc) ∧
  (∀ i r f, rows patches_fc !! i = Some r →
     ∃ row, data res.2 !! i = Some row ∧
       row !! f
       = (if bool_decide (f ∈ patches_fields)
          then Some (if bool_decide (f ∈ ListFields patches_fc)
                     then match default VNull (attrs r !! f) with
                          | VNull => if float64 f then CNaN else CNone
                          | VInt z =>
                              if float64 f then CFloat (inject_Z z) else CInt z
                          | VReal q => CFloat q
                          | VText s => CText s
                          end
                     else CNA)
          else None) ∧
       (f ∈ patches_fields →
        pd_isna (cell row f)
        = negb (bool_decide (f ∈ ListFields patches_fc))
          || isna (default VNull (attrs r !! f)))) ∧
  (res.1 = [] ↔ ∀ f, f ∈ patches_fields → f ∈ ListFields patches_fc) ∧
  (∀ e, e ∈ res.1 →
     e = Log (AddWarning
           [Lit "The following data.Patches fields were not found in the feature class: ";
            Vals (VText <$> filter (λ f, f ∉ ListFields patches_fc) patches_fields);
            Lit "."])).
Proof.
  intros res float64. unfold res, extract_data. rewrite W_bind_eq.
  unfold mret, W_ret. cbn [fst snd columns data].
  split; [done|]. split; [by rewrite length_fmap|]. split; [|split].
  - intros i r f Hi. rewrite list_lookup_fmap, Hi. cbn [fmap option_fmap option_map].
    eexists. split; [done|].
    assert (∀ v, to_cell (float64 f) v
                 = match v with
                   | VNull => if float64 f then CNaN else CNone
                   | VInt z => if float64 f then CFloat (inject_Z z) else CInt z
                   | VReal q => CFloat q
                   | VText s => CText s
                   end) as Hto by done.
    rewrite <- Hto.
    assert (∀ m : gmap string cellv,
              m !! f = (if bool_decide (f ∈ patches_fields)
                        then Some (if bool_decide (f ∈ ListFields patches_fc)
                                   then to_cell (float64 f)
                                          (default VNull (attrs r !! f))
                                   else CNA)
                        else None) →
              m !! f = (if bool_decide (f ∈ patches_fields)
                        then Some (if bool_decide (f ∈ ListFields patches_fc)
                                   then to_cell (float64 f)
                                          (default VNull (attrs r !! f))
                                   else CNA)
                        else None) ∧
              (f ∈ patches_fields →
               pd_isna (cell m f)
               = negb (bool_decide (f ∈ ListFields patches_fc))
                 || isna (default VNull (attrs r !! f)))) as Hboth.
    { intros m Hm. split; [done|]. intros Hf. unfold cell. rewrite Hm.
      rewrite (bool_decide_eq_true_2 (f ∈ patches_fields) Hf). cbn [default id].
      destruct (bool_decide (f ∈ ListFields patches_fc)); cbn [negb orb];
        [apply to_cell_isna|done]. }
    apply Hboth.
    rewrite (lookup_list_to_map_fmap
      (λ f, if bool_decide (f ∈ filter (λ f, f ∈ ListFields patches_fc) patches_fields)
            then to_cell (is_float_column (cursor_column patches_fc f))
                   (default VNull (attrs r !! f))
            else CNA)).
    case_bool_decide as Hf; [|done]. f_equal.
    destruct (decide (f ∈ ListFields patches_fc)) as [Hin|Hin].
    + rewrite !bool_decide_eq_true_2; [done..|]. by apply list_elem_of_filter.
    + rewrite !bool_decide_eq_false_2; [done..|].
      by intros [? _]%list_elem_of_filter.
  - rewrite app_nil_r. case_bool_decide as Hlen.
    + split; [done|]. intros Hall. exfalso.
      apply length_pos_elem in Hlen as (f & [Hf Hin]%list_elem_of_filter). auto.
    + split; [|done]. intros _ f Hf.
      destruct (decide (f ∈ ListFields patches_fc)) as [|Hn]; [done|].
      exfalso. apply Hlen. apply length_pos_elem. exists f.
      by apply list_elem_of_filter.
  - rewrite app_nil_r. intros e He. case_bool_decide.
    + by apply list_elem_of_singleton in He.
    + by apply elem_of_nil in He.
Qed.

(** A text with a carriage return or a line feed in it. *)
Fixpoint has_line_break (s : string) : bool :=
  match s with
  | EmptyString => false
  | String a s' =>
      (Ascii.eqb a "013" || Ascii.eqb a "010")%char || has_line_break s'
  end.

Lemma flatten_no_line_break (s : string) : has_line_break (flatten s) = false.
Proof.
  induction s as [|a s IH]; [done|]. cbn [flatten has_line_break].
  rewrite IH, orb_false_r.
  destruct (Ascii.eqb a "013" || Ascii.eqb a "010")%char eqn:E; [done|exact E].
Qed.

Lemma cell_replace_na (cols : list string) (old : cellv)
    (r : gmap string cellv) (c : string) :
  cell_eq CNA old = false →
  cell (replace_na cols old r) c
  = if bool_decide (c ∈ cols) && cell_eq (cell r c) old then CNA else cell r c.
Proof.
  intros Hold. induction cols as [|a cols IH]; [done|].
  cbn [replace_na foldr]. fold (replace_na cols old r).
  destruct (decide (a = c)) as [->|Hne].
  - rewrite (bool_decide_eq_true_2 (c ∈ c :: cols)) by left. cbn [andb].
    destruct (cell_eq (cell (replace_na cols old r) c) old) eqn:HR.
    + unfold cell at 1. rewrite lookup_insert_eq. cbn. rewrite IH in HR.
      destruct (bool_decide (c ∈ cols) && cell_eq (cell r c) old);
        [by rewrite Hold in HR | by rewrite HR].
    + rewrite IH. rewrite IH in HR.
      destruct (bool_decide (c ∈ cols) && cell_eq (cell r c) old) eqn:Hb;
        [by apply andb_true_iff in Hb as [_ ->] | by rewrite HR].
  - assert (bool_decide (c ∈ a :: cols) = bool_decide (c ∈ cols)) as ->.
    { apply bool_decide_ext. rewrite elem_of_cons. naive_solver. }
    rewrite <- IH.
    destruct (cell_eq (cell (replace_na cols old r) a) old); [|done].
    unfold cell. by rewrite lookup_insert_ne.
Qed.

(** X7. [clean_data] keeps the columns and the rows in order and rewrites
    each cell on its own: a Confidence or DistYear equal to 0 and a lone
    blank in EventType, ChangeType, AltType, ChangeDesc or DistName become
    [pd.NA]; any other text has its carriage returns and line feeds replaced by
    blanks; any other value is kept.  No text of the cleaned frame has a line
    break in it. *)
Theorem clean_data_cells (csv_df : frame) :
  columns (clean_data csv_df) = columns csv_df ∧
  length (data (clean_data csv_df)) = length (data csv_df) ∧
  ∀ i row, data csv_df !! i = Some row →
    ∃ row', data (clean_data csv_df) !! i = Some row' ∧
      ∀ c, cell row' c
           = (if bool_decide (c ∈ ["Confidence"; "DistYear"])
                   && cell_eq (cell row c) (CInt 0)
                 || bool_decide (c ∈ ["EventType"; "ChangeType"; "AltType";
                                      "ChangeDesc"; "DistName"])
                   && cell_eq (cell row c) (CText " ")
              then CNA else flatten_value (cell row c)) ∧
           ∀ s, cell row' c = CText s → has_line_break s = false.
Proof.
  unfold clean_data. cbn [columns data]. split; [done|].
  split; [by rewrite length_fmap|]. intros i row Hi.
  rewrite list_lookup_fmap, Hi. cbn [fmap option_fmap option_map].
  eexists. split; [done|]. intros c.
  assert (∀ m : gmap string cellv,
            cell (flatten_value <$> m) c = flatten_value (cell m c)) as Hfl.
  { intros m. unfold cell. rewrite lookup_fmap. by destruct (m !! c). }
  assert (cell (clean_row row) c
          = (if bool_decide (c ∈ ["Confidence"; "DistYear"])
                  && cell_eq (cell row c) (CInt 0)
                || bool_decide (c ∈ ["EventType"; "ChangeType"; "AltType";
                                     "ChangeDesc"; "DistName"])
                  && cell_eq (cell row c) (CText " ")
             then CNA else flatten_value (cell row c))) as Hcell.
  { unfold clean_row. rewrite Hfl, !cell_replace_na by done.
    destruct (bool_decide (c ∈ ["Confidence"; "DistYear"])
              && cell_eq (cell row c) (CInt 0)); cbn [orb].
    - by rewrite andb_false_r.
    - by destruct (_ && _). }
  split; [done|]. intros s Hs. rewrite Hcell in Hs.
  destruct (_ || _); [done|].
  destruct (cell row c) as [| | | | |s0]; try done.
  cbn in Hs. injection Hs as <-. apply flatten_no_line_break.
Qed.

End FrameFacts.

(** Two patches, the second without a Confidence and an AltType. *)
Definition dtype_patches : table unit :=
  Table [("PatchName", TEXT); ("Confidence", SHORT); ("DistYear", SHORT);
         ("AltType", TEXT)]
    [Feature tt (list_to_map
       [("PatchName", VText "MORA_5_7_1990_2020_2001_42"); ("Confidence", VInt 3);
        ("DistYear", VInt 2001); ("AltType", VText "Fire")]);
     Feature tt (list_to_map
       [("PatchName", VText "MORA_5_8_1990_2020_2002_43"); ("Confidence", VNull);
        ("DistYear", VInt 2002); ("AltType", VNull)])].

(** The Confidence column, an integer and a null, is read as float64: the
    frame holds 3.0 and [nan].  DistYear, integers only, stays as it is; the
    null AltType stays [None]; ChangeType, which the feature class lacks, is
    [pd.NA]. *)
Example extract_data_dtypes :
  (λ r, (cell r "Confidence", cell r "DistYear", cell r "AltType",
         cell r "ChangeType"))
    <$> data (ExpPatches.extract_data dtype_patches
                ["PatchName"; "Confidence"; "DistYear"; "AltType"; "ChangeType"]).2
  = [(CFloat (3 # 1), CInt 2001, CText "Fire", CNA);
     (CNaN, CInt 2002, CNone, CNA)].
Proof. vm_compute. reflexivity. Qed.

(** ** The helpers of addAttrUtils.py *)

Section UtilsFacts.
Context {G : Type}.
Variable fr : Q → string.
Import Store Attrs.
Implicit Types (t : table G) (r : feature G) (f g : string).

Lemma lookup_foldr_delete (m : gmap string value) (fs : list string) f :
  foldr delete m fs !! f = if bool_decide (f ∈ fs) then None else m !! f.
Proof.
  induction fs as [|a fs IH]; [done|]. cbn [foldr].
  destruct (decide (a = f)) as [->|Hne].
  - rewrite lookup_delete_eq. rewrite bool_decide_eq_true_2; [done|left].
  - rewrite lookup_delete_ne by done. rewrite IH.
    apply (f_equal (λ b : bool, if b then None else m !! f)).
    apply bool_decide_ext. rewrite elem_of_cons. naive_solver.
Qed.

(** X8. [del_existing_fields] removes the attribute fields, and only those:
    a field is left exactly when the feature class had it and it is none of
    the twenty attribute fields; every patch is kept, in order, with its
    shape and with the values of the fields that are left. *)
Theorem del_existing_fields_removes t :
  (∀ f, f ∈ ListFields (del_existing_fields t)
        ↔ f ∈ ListFields t ∧ f ∉ attr_fields) ∧
  Forall2 (λ r r', shape r' = shape r ∧
             ∀ f, attrs r' !! f
                  = if bool_decide (f ∈ attr_fields ∧ f ∈ ListFields t)
                    then None else attrs r !! f)
          (rows t) (rows (del_existing_fields t)).
Proof.
  split; [apply del_existing_fields_spec|].
  unfold del_existing_fields. case_bool_decide as Hlen.
  - cbn [DeleteField rows]. apply Forall2_fmap_r, Forall_Forall2_diag.
    apply Forall_forall. intros r _. unfold compose. cbn [shape attrs].
    split; [done|]. intros f. rewrite lookup_foldr_delete.
    apply (f_equal (λ b : bool, if b then None else attrs r !! f)).
    apply bool_decide_ext. rewrite list_elem_of_filter. tauto.
  - apply Forall_Forall2_diag, Forall_forall. intros r _. split; [done|].
    intros f. rewrite bool_decide_eq_false_2; [done|]. intros [Ha Hf].
    apply Hlen, length_pos_elem. exists f. by apply list_elem_of_filter.
Qed.

(** X9. On a feature class that does not have the field yet,
    [select_calculate] adds it and writes 1 to the features the selecting
    layer selects and 0 to all the others: no feature is left null, and
    nothing else changes. *)
Theorem select_calculate_binary t (select_fc : G → bool) field :
  has_field t field = false →
  ∃ t', select_calculate fr t select_fc field = Some t' ∧
    ListFields t' = (ListFields t ++ [field])%list ∧
    rows t' = (λ r, set_attr field
                      (VInt (if select_fc (shape r) then 1 else 0)) r)
              <$> rows t.
Proof.
  intros Hno. unfold select_calculate.
  assert (field_type (AddField t field SHORT) field = Some SHORT) as Hty.
  { rewrite field_type_AddField_eq. apply has_field_false in Hno.
    by rewrite Hno. }
  rewrite (CalculateField_total fr t _ field SHORT _ SHORT
             (λ r, if select_fc (shape r) then set_attr field (VInt 1) r else r));
    [|done|by intros r _; destruct (select_fc (shape r))].
  cbn [mbind option_bind].
  rewrite (calc_existing fr _ _ field SHORT SHORT (VInt 0) (VInt 0)); [|done..].
  eexists. split; [done|]. cbn [fields rows]. split.
  - unfold AddField. rewrite Hno. unfold ListFields. cbn [fields].
    by rewrite fmap_app.
  - unfold AddField. rewrite Hno. cbn [rows]. rewrite <- !list_fmap_compose.
    apply list_fmap_ext. intros i r _. unfold compose. cbn [shape set_attr attrs].
    destruct (select_fc (shape r)) eqn:E; unfold set_attr; cbn [shape attrs];
      rewrite E; cbn [negb]; by rewrite insert_insert_eq.
Qed.

End UtilsFacts.

Lemma select_calculate_binary_witness :
  ∃ t', Attrs.select_calculate (λ _, "") c5_patches (λ g, (g =? 2)%Z) "InMask"
        = Some t' ∧
    Store.ListFields t' = (Store.ListFields c5_patches ++ ["InMask"])%list ∧
    rows t' = (λ r, Store.set_attr "InMask"
                      (VInt (if (shape r =? 2)%Z then 1 else 0)) r)
              <$> rows c5_patches.
Proof.
  apply (select_calculate_binary (λ _, "") c5_patches (λ g, (g =? 2)%Z) "InMask").
  reflexivity.
Defined.

(** ** Event fields of patches outside the masks *)

Section EventsMore.
Context {G : Type}.
Variable fr : Q → string.
Variable today : string.
Variable within_water : G → bool.
Import Store Events.
Implicit Types (t : table G) (r : feature G) (f g : string).

(** Adding fresh fields one after the other: each is there, null. *)
Lemma foldl_AddField_fresh (l : list (string * ftype)) t :
  NoDup l.*1 → (∀ f, f ∈ l.*1 → f ∉ ListFields t) →
  fields (foldl (λ acc p, AddField acc p.1 p.2) t l) = (fields t ++ l)%list ∧
  Forall2 (λ r r', shape r' = shape r ∧
             ∀ f, attrs r' !! f
                  = if bool_decide (f ∈ l.*1) then Some VNull else attrs r !! f)
          (rows t) (rows (foldl (λ acc p, AddField acc p.1 p.2) t l)).
Proof.
  revert t. induction l as [|[a ty] l IH]; intros t Hnd Hfresh.
  - cbn [foldl]. split; [by rewrite app_nil_r|].
    apply Forall_Forall2_diag, Forall_forall. by intros r _.
  - cbn [foldl fst snd]. apply list.NoDup_cons in Hnd as [Ha Hnd].
    assert (has_field t a = false) as Hno.
    { apply bool_decide_eq_false. apply Hfresh. left. }
    assert (AddField t a ty
            = Table (fields t ++ [(a, ty)])%list (set_attr a VNull <$> rows t))
      as Hadd by (unfold AddField; by rewrite Hno).
    destruct (IH (AddField t a ty)) as [Hf Hr]; [done| |].
    { intros f Hf. rewrite ListFields_AddField, Hno.
      intros [Hin|Heq%list_elem_of_singleton]%elem_of_app; [|by subst].
      revert Hin. apply Hfresh. by right. }
    split.
    + rewrite Hf, Hadd. cbn [fields]. by rewrite <- app_assoc.
    + rewrite Hadd in Hr at 1. cbn [rows] in Hr. apply Forall2_fmap_l in Hr.
      eapply Forall2_impl; [|exact Hr]. intros r r' [Hs Hat]. split; [done|].
      intros f. rewrite Hat. cbn [fmap list_fmap fst attrs set_attr].
      destruct (decide (f = a)) as [->|Hne].
      * rewrite (bool_decide_eq_false_2 _ Ha), lookup_insert_eq.
        rewrite bool_decide_eq_true_2; [done|left].
      * rewrite lookup_insert_ne by done.
        apply (f_equal (λ b : bool, if b then Some VNull else attrs r !! f)).
        apply bool_decide_ext. rewrite elem_of_cons. naive_solver.
Qed.

(** What a patch that gets no label holds after the labeler: 0 in Split,
    null in the other event fields, its own values elsewhere. *)
Definition unlabeled (r r' : feature G) : Prop :=
  shape r' = shape r ∧
  ∀ f, attrs r' !! f
       = if bool_decide (f = "Split") then Some (VInt 0)
         else if bool_decide (f ∈ field_names) then Some VNull
         else attrs r !! f.

Lemma set_split_rows t t0 (l : list (string * ftype)) :
  fields t0 = (fields t ++ l)%list → l.*1 = field_names →
  assoc l "Split" = Some SHORT → has_field t "Split" = false →
  Forall2 (λ r r', shape r' = shape r ∧
             ∀ f, attrs r' !! f
                  = if bool_decide (f ∈ l.*1) then Some VNull else attrs r !! f)
          (rows t) (rows t0) →
  ∃ t', CalculateField fr t0 (λ _, true) "Split" TEXT (λ _, Some (VInt 0))
        = Some t' ∧
    fields t' = (fields t ++ l)%list ∧ Forall2 unlabeled (rows t) (rows t').
Proof.
  intros Hf Hz Hsplit Hno Hr. rewrite Hz in Hr.
  rewrite (calc_existing fr t0 _ "Split" TEXT SHORT (VInt 0) (VInt 0)); [| |done].
  - eexists. split; [reflexivity|]. cbn [fields rows]. split; [exact Hf|].
    apply Forall2_fmap_r. eapply Forall2_impl; [|exact Hr].
    intros r r' [Hs Hat]. unfold compose. split; [exact Hs|]. intros f.
    cbn [attrs set_attr]. case_bool_decide as Hsp.
    + subst f. apply lookup_insert_eq.
    + rewrite lookup_insert_ne by done. apply Hat.
  - unfold field_type. rewrite Hf, assoc_app.
    apply has_field_false in Hno. unfold field_type in Hno. by rewrite Hno.
Qed.

Lemma add_event_fields_rows t :
  (∀ f, f ∈ field_names → has_field t f = false) →
  ∃ t', add_event_fields fr t = Some t' ∧
    fields t' = (fields t ++ zip field_names field_types)%list ∧
    Forall2 unlabeled (rows t) (rows t').
Proof.
  intros Hfresh. unfold add_event_fields.
  assert ((zip field_names field_types).*1 = field_names) as Hz by reflexivity.
  destruct (foldl_AddField_fresh (zip field_names field_types) t) as [Hf Hr].
  { rewrite Hz. apply (bool_decide_unpack _). vm_compute. exact I. }
  { intros f Hin. apply (bool_decide_eq_false_1 _). apply Hfresh.
    rewrite <- Hz. exact Hin. }
  apply (set_split_rows t _ (zip field_names field_types) Hf Hz).
  - reflexivity.
  - apply Hfresh. in_list.
  - exact Hr.
Qed.

(** X10. On a feature class that has none of the event fields (and, for a
    park with an elevation mask, has InMask), the Event Labeler succeeds, and
    a patch that lies neither in the elevation mask nor completely within the
    water mask stays unlabeled: its EventType and the other event fields are
    null, its Split is 0, its shape and other attributes are untouched. *)
Theorem unmasked_patches_unlabeled (park : string) t :
  (∀ f, f ∈ field_names → has_field t f = false) →
  park = "LEWI" ∨ has_field t "InMask" = true →
  ∃ t', label_events fr today within_water park t = Some t' ∧
    ∀ i r, rows t !! i = Some r →
      park = "LEWI" ∨ in_mask r = false →
      within_water (shape r) = false →
      ∃ r', rows t' !! i = Some r' ∧ unlabeled r r'.
Proof.
  intros Hfresh Hmask.
  destruct (add_event_fields_rows t Hfresh) as (t1 & E1 & Hf1 & Hr1).
  assert (event_typed t1) as Hty1.
  { unfold event_typed, field_type. rewrite Hf1, !assoc_app.
    assert (∀ f, f ∈ field_names → assoc (fields t) f = None) as Hnone.
    { intros f Hf. apply has_field_false. by apply Hfresh. }
    rewrite !Hnone by in_list. done. }
  unfold label_events. rewrite E1. cbn [mbind option_bind].
  assert (∃ t2, (if bool_decide (park ≠ "LEWI") then label_elev_mask fr today t1
                 else Some t1) = Some t2 ∧ fields t2 = fields t1 ∧
                rows t2 = (λ r, if bool_decide (park ≠ "LEWI") && in_mask r
                                then stamp today r else r) <$> rows t1)
    as (t2 & E2 & Hf2 & Hr2).
  { case_bool_decide as Hpark.
    - destruct Hmask as [->|Hmask]; [done|].
      unfold label_elev_mask.
      assert (has_field t1 "InMask" = true) as ->.
      { apply bool_decide_eq_true. apply bool_decide_eq_true in Hmask.
        unfold ListFields in *. rewrite Hf1, fmap_app. apply elem_of_app. by left. }
      rewrite add_annual_var_spec; [|done|intros; by apply in_mask_set].
      by eexists.
    - eexists. split; [done|]. split; [done|]. cbn [andb].
      by rewrite list_fmap_id. }
  rewrite E2. cbn [mbind option_bind]. unfold label_water_mask.
  rewrite add_annual_var_spec; [|by eapply event_typed_fields|done].
  eexists. split; [done|]. cbn [rows]. intros i r Hi Hm Hw.
  destruct (Forall2_lookup_l _ _ _ _ _ Hr1 Hi) as (r1 & Hi1 & Hs1 & Ha1).
  rewrite Hr2, !list_lookup_fmap, Hi1. cbn [fmap option_fmap option_map].
  eexists. split; [done|].
  assert (in_mask r1 = in_mask r) as Hin.
  { unfold in_mask. rewrite Ha1.
    rewrite !bool_decide_eq_false_2; [done| |done].
    apply (bool_decide_eq_false_1 _). vm_compute. done. }
  assert (bool_decide (park ≠ "LEWI") && in_mask r1 = false) as ->.
  { rewrite Hin. destruct Hm as [-> | ->]; [done|apply andb_false_r]. }
  rewrite Hs1, Hw. by split.
Qed.

End EventsMore.

Lemma unmasked_patches_unlabeled_witness :
  ∃ t', Events.label_events (λ _, "") "2024-05-01" (λ g : bool, g) "MORA"
          c4_patches = Some t' ∧
    ∀ i r, rows c4_patches !! i = Some r →
      "MORA" = "LEWI" ∨ Events.in_mask r = false →
      shape r = false →
      ∃ r', rows t' !! i = Some r' ∧ unlabeled r r'.
Proof.
  apply (unmasked_patches_unlabeled (λ _, "") "2024-05-01" (λ g : bool, g)
           "MORA" c4_patches).
  - intros f Hf. repeat (apply elem_of_cons in Hf as [->|Hf]; [reflexivity|]).
    by apply elem_of_nil in Hf.
  - right. reflexivity.
Defined.

(** ** Rounding and renaming *)

Section RoundFacts.
Import Shape.

(** X11. What the code block [update] of [update_area_perim] returns is the
    stored value when it equals the geometry value, and otherwise an integer
    nearest to the geometry value: at most half a unit away, and even when
    the geometry value lies exactly between two integers.  When the values
    differ and the geometry value is no number, [update] raises. *)
Theorem update_within_half (orig new : value) :
  match update orig new with
  | Some v =>
      (py_eq orig new = true ∧ v = orig)
      ∨ (py_eq orig new = false ∧
         ∃ z, v = VInt z ∧
           match new with
           | VInt n => z = n
           | VReal q =>
               (Z.abs (2 * Qnum q - 2 * z * Zpos (Qden q)) <= Zpos (Qden q))%Z ∧
               ((2 * (Qnum q mod Zpos (Qden q)) = Zpos (Qden q))%Z →
                Z.even z = true)
           | _ => False
           end)
  | None => py_eq orig new = false ∧
            match new with VInt _ | VReal _ => False | _ => True end
  end.
Proof.
  unfold update. destruct (py_eq orig new) eqn:E; [by left|].
  destruct new as [|n|q|s]; cbn [py_round]; try done.
  - right. split; [done|]. by exists n.
  - right. split; [done|]. exists (round_half_even q). split; [done|]. split.
    + apply round_half_even_nearest.
    + apply round_half_even_tie.
Qed.

End RoundFacts.

Section RenameFacts.
Context {G : Type}.
Variable fr : Q → string.
Import Store Attrs.
Implicit Types (t : table G) (r : feature G) (f g : string).

(** X12. [rename_field] to a name the feature class does not have yet: when
    it succeeds, the old field is gone, the new field is there with the type
    asked for, and every feature holds under the new name the value it held
    under the old one, as a column of that type stores it; the other
    attributes are untouched.  It fails when a feature has no value to read
    under the old name. *)
Theorem rename_field_moves t old_field new_field ty :
  has_field t new_field = false → old_field ≠ new_field →
  match rename_field fr t old_field new_field ty with
  | Some t' =>
      (∀ f, f ∈ ListFields t' ↔
            (f ∈ ListFields t ∨ f = new_field) ∧ f ≠ old_field) ∧
      field_type t' new_field = Some ty ∧
      Forall2 (λ r r', shape r' = shape r ∧
                 ∃ v v', attrs r !! old_field = Some v ∧
                   coerce fr ty v = Some v' ∧
                   attrs r' = delete old_field (<[new_field := v']> (attrs r)))
              (rows t) (rows t')
  | None => ∃ r, r ∈ rows t ∧
              ∀ v, attrs r !! old_field = Some v → coerce fr ty v = None
  end.
Proof.
  intros Hno Hne. unfold rename_field.
  assert (AddField t new_field ty
          = Table (fields t ++ [(new_field, ty)])%list
                  (set_attr new_field VNull <$> rows t)) as Hadd
    by (unfold AddField; by rewrite Hno).
  assert (field_type (AddField t new_field ty) new_field = Some ty) as Hty.
  { rewrite field_type_AddField_eq. apply has_field_false in Hno.
    by rewrite Hno. }
  destruct (CalculateField fr (AddField t new_field ty) (λ _, true) new_field
              TEXT (read old_field)) as [t1|] eqn:Hc; cbn [mbind option_bind].
  - apply CalculateField_inv in Hc as (ty' & Hty' & Hf & Hrows).
    rewrite (AddField_has (AddField t new_field ty)) in Hty', Hf, Hrows
      by apply has_field_AddField.
    rewrite Hty in Hty'. injection Hty' as <-.
    split; [|split].
    + intros f. rewrite ListFields_DeleteField. unfold ListFields at 1.
      rewrite Hf, Hadd. cbn [fields]. rewrite fmap_app, elem_of_app.
      cbn [fmap list_fmap fst]. rewrite !list_elem_of_singleton. done.
    + unfold field_type, DeleteField. cbn [fields]. rewrite Hf, Hadd.
      cbn [fields]. rewrite list.filter_app, assoc_app.
      assert (assoc (filter (λ p, p.1 ∉ [old_field]) (fields t)) new_field = None)
        as ->.
      { apply assoc_None. apply has_field_false, assoc_None in Hno.
        intros ([g ty0] & -> & [_ Hin]%list_elem_of_filter)%list_elem_of_fmap.
        apply Hno. apply list_elem_of_fmap. by exists (g, ty0). }
      rewrite filter_cons_True, filter_nil;
        [|cbn; by intros ->%list_elem_of_singleton].
      cbn. by rewrite String.eqb_refl.
    + cbn [DeleteField rows]. apply Forall2_fmap_r.
      rewrite Hadd in Hrows. cbn [rows] in Hrows.
      rewrite Forall2_fmap_l in Hrows.
      eapply Forall2_impl; [|exact Hrows]. intros r r' Hr.
      unfold compose, calculated in Hr. destruct Hr as (v & v' & Hv & Hco & ->).
      unfold compose. cbn [shape set_attr attrs foldr]. split; [done|].
      unfold read in Hv. cbn [attrs set_attr] in Hv.
      rewrite lookup_insert_ne in Hv by done. exists v, v'.
      split; [done|]. split; [done|]. by rewrite insert_insert_eq.
  - unfold CalculateField in Hc.
    rewrite (AddField_has (AddField t new_field ty) new_field TEXT
               (has_field_AddField _ _ _)) in Hc.
    rewrite Hty in Hc. cbn in Hc.
    destruct (mapM _ (rows (AddField t new_field ty))) as [rs|] eqn:Hm;
      [done|]. clear Hc.
    apply mapM_None, Exists_exists in Hm as (r0 & Hin & Hr0).
    apply list_elem_of_In in Hin. rewrite Hadd in Hin. cbn [rows] in Hin.
    apply list_elem_of_fmap in Hin as (r & -> & Hin).
    exists r. split; [done|]. intros v Hv.
    unfold read in Hr0. cbn [attrs set_attr] in Hr0.
    rewrite lookup_insert_ne, Hv in Hr0 by done. cbn in Hr0.
    by destruct (coerce fr ty v).
Qed.

End RenameFacts.

Lemma rename_field_moves_witness :
  match Attrs.rename_field (λ _, "") c5_patches "annualID" "uniqID" LONG with
  | Some t' =>
      (∀ f, f ∈ Store.ListFields t' ↔
            (f ∈ Store.ListFields c5_patches ∨ f = "uniqID") ∧ f ≠ "annualID") ∧
      Store.field_type t' "uniqID" = Some LONG ∧
      Forall2 (λ r r', shape r' = shape r ∧
                 ∃ v v', attrs r !! "annualID" = Some v ∧
                   Store.coerce (λ _, "") LONG v = Some v' ∧
                   attrs r' = delete "annualID" (<["uniqID" := v']> (attrs r)))
              (rows c5_patches) (rows t')
  | None => ∃ r, r ∈ rows c5_patches ∧
              ∀ v, attrs r !! "annualID" = Some v →
                   Store.coerce (λ _, "") LONG v = None
  end.
Proof.
  apply (rename_field_moves (λ _, "") c5_patches "annualID" "uniqID" LONG).
  - reflexivity.
  - discriminate.
Defined.
